(** * The Gaphor UML code generator ([utils/model/gen_uml.py])

    A shallow embedding of the generator that turns the element table of a
    Gaphor model into the property descriptors of [uml2.py], and the
    properties of its emission passes.

    Conventions of the embedding:
    - an element object is identified with its key in [all_elements]
      (the parser stores every element under its own id), so object
      references, [is] and set membership become identifiers;
    - the attributes that [generate] attaches to its elements live in two
      stores of the state, one for classes and one for properties;
    - the output sink and the [msg] log are lists of emission records: one
      record per formatted write, holding the arguments of the format;
    - strings are byte strings and the case functions act on ASCII;
    - recursion that the source does not bound takes a [fuel] argument, and
      running out of it is the result [OutOfFuel], which is not a result of
      the program. *)

From stdpp Require Import base option list strings gmap.
From Stdlib Require Import Ascii String ZArith Lia.

Open Scope string_scope.
Open Scope list_scope.

(** ** Python strings *)

Module Py.

Definition is_upper (c : ascii) : bool :=
  (65 <=? nat_of_ascii c)%nat && (nat_of_ascii c <=? 90)%nat.

Definition is_lower (c : ascii) : bool :=
  (97 <=? nat_of_ascii c)%nat && (nat_of_ascii c <=? 122)%nat.

Definition to_lower (c : ascii) : ascii :=
  if is_upper c then ascii_of_nat (nat_of_ascii c + 32) else c.

Definition to_upper (c : ascii) : ascii :=
  if is_lower c then ascii_of_nat (nat_of_ascii c - 32) else c.

(** [str.lower] *)
Fixpoint lower (s : string) : string :=
  match s with
  | EmptyString => EmptyString
  | String c r => String (to_lower c) (lower r)
  end.

(** [str.title]: the first cased character of every run of letters is put
    in upper case, the others in lower case. *)
Fixpoint title_from (prev_cased : bool) (s : string) : string :=
  match s with
  | EmptyString => EmptyString
  | String c r =>
      let cased := is_upper c || is_lower c in
      String (if prev_cased then to_lower c else to_upper c)
             (title_from cased r)
  end.

Definition title (s : string) : string := title_from false s.

(** [str.endswith] *)
Definition endswith (s suffix : string) : bool :=
  let n := String.length s in
  let k := String.length suffix in
  (k <=? n)%nat && String.eqb (substring (n - k) k s) suffix.

(** [s.replace(c, "")] for a one-character [c] *)
Fixpoint remove_char (c : ascii) (s : string) : string :=
  match s with
  | EmptyString => EmptyString
  | String d r =>
      if Ascii.eqb c d then remove_char c r else String d (remove_char c r)
  end.

(** [s.split(",")]: never empty, the empty string gives one empty field. *)
Fixpoint split_from (sep : ascii) (cur : string) (s : string) : list string :=
  match s with
  | EmptyString => [cur]
  | String d r =>
      if Ascii.eqb sep d then cur :: split_from sep EmptyString r
      else split_from sep (cur +:+ String d EmptyString) r
  end.

Definition split (sep : ascii) (s : string) : list string :=
  split_from sep EmptyString s.

(** Truth value of a string, and of an optional one ([None] is false). *)
Definition truthy (s : string) : bool := negb (String.eqb s "").

Definition truthy_opt (o : option string) : bool :=
  match o with Some s => truthy s | None => false end.

(** [x or y] on optional strings *)
Definition or_else (o : option string) (d : string) : string :=
  match o with Some s => if truthy s then s else d | None => d end.

(** [str(x)] and the [%s] and f-string formats of an optional string *)
Definition fmt (o : option string) : string :=
  match o with Some s => s | None => "None" end.

End Py.

(** A value that is a string, the integer the source stores, or [None]:
    [head.lower] is a multiplicity string or the integer [0]. *)
Inductive pyval :=
| PNone
| PStr (s : string)
| PInt (z : Z).

#[export] Instance pyval_eq_dec : EqDecision pyval.
Proof. solve_decision. Defined.

(** ** The element table *)

Abbreviation ident := string.

(** Modelled from the spec: the elements that [parse] of
    [gaphor.storage.parser] returns, which is not among the sources: a
    dictionary from element ids to elements, in document order.  The
    elements are typed here by the kind tag [val.type] and hold the fields
    that the generator reads; a field that the file does not give is
    [None], as the patched [base.__getitem__] returns it. *)
Record property := {
  p_name : option string;
  typeValue : option string;
  defaultValue : option string;
  lowerValue : option string;
  upperValue : option string;
  isDerived : option string;
  aggregation : option string;
  p_association : option ident;        (* reference [association] *)
  p_type : option ident;               (* reference [type] *)
  p_class_ : option ident;             (* reference [class_] *)
  p_appliedStereotype : option (list ident);
}.

(** Modelled from the spec: the kinds of elements of the table, with the
    fields read by the generator; [Named] stands for the kinds that it
    reads the name of only, [Other] for the entries of the table that are
    no [element]. *)
Inductive element :=
| Class (name : option string)
        (appliedStereotype ownedAttribute ownedOperation : option (list ident))
| Generalization (specific general : option ident)
| Association (memberEnd : option (list ident))
| Property (p : property)
| Operation (name : option string)
| Extension (memberEnd : option (list ident))
| InstanceSpecification (classifier slot : option (list ident))
| Slot (value : option string) (definingFeature : option ident)
| Named (name : option string)       (* any other element, e.g. a Stereotype *)
| Other.                             (* not an [element]: canvas items *)

(** [x.name] of an arbitrary element *)
Definition element_name (e : element) : option string :=
  match e with
  | Class n _ _ _ | Operation n | Named n => n
  | Property p => p_name p
  | _ => None
  end.

(** Ordered dictionaries, as Python keeps them: insertion order, assignment
    to an existing key keeps its place. *)
Section Dict.
Context {K V : Type} `{EqDecision K}.

Definition dict := list (K * V).

Fixpoint dict_get (d : dict) (k : K) : option V :=
  match d with
  | [] => None
  | (k', v) :: r => if decide (k = k') then Some v else dict_get r k
  end.

Fixpoint dict_set (d : dict) (k : K) (v : V) : dict :=
  match d with
  | [] => [(k, v)]
  | (k', v') :: r =>
      if decide (k = k') then (k, v) :: r else (k', v') :: dict_set r k v
  end.

Definition dict_values (d : dict) : list V := map snd d.
End Dict.
Arguments dict : clear implicits.

(** ** Objects of the generator *)

(** A class of the [classes] dictionary with the attributes that the
    classification loop adds to it. *)
Record class_obj := {
  c_name : string;
  c_appliedStereotype : option (list ident);
  c_ownedAttribute : option (list ident);
  c_ownedOperation : option (list ident);
  specialization : list ident;
  generalization : list ident;
  stereotypeName : option string;
  c_written : bool;
}.

(** An enumeration: a class whose name ends in [Kind] or [Sort]. *)
Record enum_obj := {
  e_name : string;
  e_ownedAttribute : option (list ident);
  enumerates : list string;
}.

(** A property with the attributes that [generate] and
    [parse_association_end] set on it.  An attribute that has not been set
    reads as [None]. *)
Record prop_obj := {
  p_src : property;
  set_typeValue : option string;       (* [e1.typeValue = "str"] *)
  p_written : bool;
  class_name : option string;
  type_obj : option ident;             (* [end.type], a class *)
  class_obj_ : option ident;           (* [end.class_], a class or None *)
  is_simple_attribute : bool;
  navigable : option ident;            (* [head.get("class_")] *)
  opposite_class_name : option string;
  lower : pyval;
  upper : option string;
  subsets : option (list string);
  composite : bool;
  derived : option Z;
  redefines : option string;
  union : option (list ident);
}.

Definition new_prop (p : property) : prop_obj :=
  {| p_src := p; set_typeValue := None; p_written := false;
     class_name := None; type_obj := None; class_obj_ := None;
     is_simple_attribute := false; navigable := None;
     opposite_class_name := None; lower := PNone; upper := None;
     subsets := None; composite := false; derived := None;
     redefines := None; union := None |}.

(** [a.typeValue]: the instance attribute when set, else the file's value *)
Definition typeValue_of (a : prop_obj) : option string :=
  match set_typeValue a with
  | Some t => Some t
  | None => typeValue (p_src a)
  end.

Definition name_of (a : prop_obj) : option string := p_name (p_src a).

(** [f"{a.class_name}.{a.name}"] *)
Definition full_name (cn n : option string) : string :=
  Py.fmt cn +:+ "." +:+ Py.fmt n.

(** ** Emission records *)

(** The right-hand side of [Class.feature = ...].  The fields are the
    arguments of the format string, already formatted ([None] prints as
    the text None); an optional field is a part that the source appends
    only under a condition. *)
Inductive descriptor :=
| Dattribute (name type : string) (params : list (string * string))
| Denumeration (name : string) (values : list string) (default : string)
| Dassociation (name opposite_class_name : string)
               (lower : option pyval) (upper : option string)
               (composite : bool) (opposite : option string)
| Dderivedunion (name opposite_class_name : string)
                (lower : pyval) (upper : string) (subs : string)
| Dredefine (class_name name opposite_class_name redefines : string).

(** One record per emission into the output file.  A record keeps the
    object it was written for next to the arguments of its format. *)
Inductive line :=
| Header
| Stereotyped (c : ident) (name : string) (stereotype : option string)
              (too : bool)
| ClassDef (c : ident) (name : string) (bases : string)
| ClassOverride (c : ident) (key : string) (text : string)
| SimpleAttribute (owner name : string)
| Override (key : string) (text : string)
| Assign (key : string) (d : descriptor).

(** One record per call of [msg]. *)
Inductive message :=
| IgnoringDerived (class_name name : string)
| NoOverrideForOperation (full_name : string)
| NoSubsets (class_name name : string) (lower : pyval) (upper : string)
| Scanning (feature value : string)
| NotADerivedUnion (class_name s : string)
| Redefining (redefines class_name name : string).

(** ** The override registry *)

(** Modelled from the spec: the class [Overrides] of
    [utils.model.override], which is not among the sources.
    [has_override key] tells whether replacement text exists for [key];
    [write_override sink key] writes that text and returns whether it did
    ([Some text]), or writes nothing and returns [False] ([None]);
    [derives key] tells whether the registry marks the feature as
    derived. *)
Record Overrides := {
  has_override : string -> bool;
  write_override : string -> option string;
  derives : string -> bool;
}.

(** ** State, faults and the monad of the generator *)

Inductive fault :=
| ValueError (m : string)
| KeyError
| IndexError
| TypeError
| AttributeError
| AssertionError
| OutOfFuel.

Record state := {
  out : list line;                     (* the output sink, append only *)
  log : list message;                  (* what [msg] wrote to stderr *)
  classes_st : gmap string class_obj;
  props_st : gmap string prop_obj;
  resolved : list (string * string);   (* (object, attr) pairs [resolve] set *)
}.

Definition init_state : state :=
  {| out := []; log := []; classes_st := ∅; props_st := ∅; resolved := [] |}.

(** A run ends normally or with a fault; the output written before a fault
    stays written. *)
Inductive result (A : Type) :=
| Ok (a : A) (s : state)
| Err (f : fault) (s : state).
Arguments Ok {A}.
Arguments Err {A}.

Definition M (A : Type) := state -> result A.

Definition ret {A} (a : A) : M A := fun s => Ok a s.

Definition bind {A B} (m : M A) (k : A -> M B) : M B :=
  fun s => match m s with
           | Ok a s' => k a s'
           | Err f s' => Err f s'
           end.

Definition raise {A} (f : fault) : M A := fun s => Err f s.

Declare Scope gen_scope.
Delimit Scope gen_scope with gen.
Notation "'do' x <- m ; k" := (bind m (fun x => k))
  (at level 10, x name, m at level 100, k at level 200) : gen_scope.
Notation "'exec' m ; k" := (bind m (fun _ => k))
  (at level 10, m at level 100, k at level 200) : gen_scope.
Open Scope gen_scope.

Definition final_state {A} (r : result A) : state :=
  match r with Ok _ s => s | Err _ s => s end.

Definition succeeded {A} (r : result A) : bool :=
  match r with Ok _ _ => true | Err _ _ => false end.

Definition fault_of {A} (r : result A) : option fault :=
  match r with Ok _ _ => None | Err f _ => Some f end.

(** [for x in l: f x] *)
Fixpoint for_each {A} (l : list A) (f : A -> M unit) : M unit :=
  match l with
  | [] => ret tt
  | x :: r => exec f x; for_each r f
  end.

(** A loop that carries a local variable *)
Fixpoint fold_each {A B} (l : list A) (f : B -> A -> M B) (b : B) : M B :=
  match l with
  | [] => ret b
  | x :: r => do b' <- f b x; fold_each r f b'
  end.

Definition from_option {A} (f : fault) (o : option A) : M A :=
  match o with Some a => ret a | None => raise f end.

(** [writer.write] and [msg] *)
Definition write (l : line) : M unit :=
  fun s => Ok tt {| out := out s ++ [l]; log := log s;
                    classes_st := classes_st s; props_st := props_st s;
                    resolved := resolved s |}.

Definition msg (m : message) : M unit :=
  fun s => Ok tt {| out := out s; log := log s ++ [m];
                    classes_st := classes_st s; props_st := props_st s;
                    resolved := resolved s |}.

(** Reading and updating the attributes of a class object.  A reference to
    an object is always live in Python; the fault of [get_class] cannot
    arise on the states that [generate] builds. *)
Definition get_class (c : ident) : M class_obj :=
  fun s => match classes_st s !! c with
           | Some o => Ok o s
           | None => Err AttributeError s
           end.

Definition put_class (c : ident) (o : class_obj) : M unit :=
  fun s => Ok tt {| out := out s; log := log s;
                    classes_st := <[c := o]> (classes_st s);
                    props_st := props_st s; resolved := resolved s |}.

Definition get_prop (p : ident) : M prop_obj :=
  fun s => match props_st s !! p with
           | Some o => Ok o s
           | None => Err AttributeError s
           end.

Definition put_prop (p : ident) (o : prop_obj) : M unit :=
  fun s => Ok tt {| out := out s; log := log s; classes_st := classes_st s;
                    props_st := <[p := o]> (props_st s);
                    resolved := resolved s |}.

Definition mark_resolved (val attr : string) : M unit :=
  fun s => Ok tt {| out := out s; log := log s; classes_st := classes_st s;
                    props_st := props_st s;
                    resolved := (val, attr) :: resolved s |}.

Definition is_resolved (val attr : string) : M bool :=
  fun s => Ok (bool_decide ((val, attr) ∈ resolved s)) s.

(** Assignments to single attributes *)
Definition set_c_written (b : bool) (o : class_obj) : class_obj :=
  {| c_name := c_name o; c_appliedStereotype := c_appliedStereotype o;
     c_ownedAttribute := c_ownedAttribute o;
     c_ownedOperation := c_ownedOperation o;
     specialization := specialization o; generalization := generalization o;
     stereotypeName := stereotypeName o; c_written := b |}.

Definition set_stereotypeName (t : option string) (o : class_obj) : class_obj :=
  {| c_name := c_name o; c_appliedStereotype := c_appliedStereotype o;
     c_ownedAttribute := c_ownedAttribute o;
     c_ownedOperation := c_ownedOperation o;
     specialization := specialization o; generalization := generalization o;
     stereotypeName := t; c_written := c_written o |}.

Definition add_generalization (g : ident) (o : class_obj) : class_obj :=
  {| c_name := c_name o; c_appliedStereotype := c_appliedStereotype o;
     c_ownedAttribute := c_ownedAttribute o;
     c_ownedOperation := c_ownedOperation o;
     specialization := specialization o;
     generalization := generalization o ++ [g];
     stereotypeName := stereotypeName o; c_written := c_written o |}.

Definition add_specialization (c : ident) (o : class_obj) : class_obj :=
  {| c_name := c_name o; c_appliedStereotype := c_appliedStereotype o;
     c_ownedAttribute := c_ownedAttribute o;
     c_ownedOperation := c_ownedOperation o;
     specialization := specialization o ++ [c];
     generalization := generalization o;
     stereotypeName := stereotypeName o; c_written := c_written o |}.

Definition with_typeValue (v : option string) (o : prop_obj)
  : prop_obj :=
  {| p_src := p_src o; set_typeValue := v; p_written := p_written o;
     class_name := class_name o; type_obj := type_obj o;
     class_obj_ := class_obj_ o;
     is_simple_attribute := is_simple_attribute o; navigable := navigable o;
     opposite_class_name := opposite_class_name o; lower := lower o;
     upper := upper o; subsets := subsets o; composite := composite o;
     derived := derived o; redefines := redefines o; union := union o |}.

Definition with_written (v : bool) (o : prop_obj)
  : prop_obj :=
  {| p_src := p_src o; set_typeValue := set_typeValue o; p_written := v;
     class_name := class_name o; type_obj := type_obj o;
     class_obj_ := class_obj_ o;
     is_simple_attribute := is_simple_attribute o; navigable := navigable o;
     opposite_class_name := opposite_class_name o; lower := lower o;
     upper := upper o; subsets := subsets o; composite := composite o;
     derived := derived o; redefines := redefines o; union := union o |}.

Definition with_class_name (v : option string) (o : prop_obj)
  : prop_obj :=
  {| p_src := p_src o; set_typeValue := set_typeValue o;
     p_written := p_written o; class_name := v; type_obj := type_obj o;
     class_obj_ := class_obj_ o;
     is_simple_attribute := is_simple_attribute o; navigable := navigable o;
     opposite_class_name := opposite_class_name o; lower := lower o;
     upper := upper o; subsets := subsets o; composite := composite o;
     derived := derived o; redefines := redefines o; union := union o |}.

Definition with_type_obj (v : option ident) (o : prop_obj)
  : prop_obj :=
  {| p_src := p_src o; set_typeValue := set_typeValue o;
     p_written := p_written o; class_name := class_name o; type_obj := v;
     class_obj_ := class_obj_ o;
     is_simple_attribute := is_simple_attribute o; navigable := navigable o;
     opposite_class_name := opposite_class_name o; lower := lower o;
     upper := upper o; subsets := subsets o; composite := composite o;
     derived := derived o; redefines := redefines o; union := union o |}.

Definition with_class_obj (v : option ident) (o : prop_obj)
  : prop_obj :=
  {| p_src := p_src o; set_typeValue := set_typeValue o;
     p_written := p_written o; class_name := class_name o;
     type_obj := type_obj o; class_obj_ := v;
     is_simple_attribute := is_simple_attribute o; navigable := navigable o;
     opposite_class_name := opposite_class_name o; lower := lower o;
     upper := upper o; subsets := subsets o; composite := composite o;
     derived := derived o; redefines := redefines o; union := union o |}.

Definition with_is_simple_attribute (v : bool) (o : prop_obj)
  : prop_obj :=
  {| p_src := p_src o; set_typeValue := set_typeValue o;
     p_written := p_written o; class_name := class_name o;
     type_obj := type_obj o; class_obj_ := class_obj_ o;
     is_simple_attribute := v; navigable := navigable o;
     opposite_class_name := opposite_class_name o; lower := lower o;
     upper := upper o; subsets := subsets o; composite := composite o;
     derived := derived o; redefines := redefines o; union := union o |}.

Definition with_navigable (v : option ident) (o : prop_obj)
  : prop_obj :=
  {| p_src := p_src o; set_typeValue := set_typeValue o;
     p_written := p_written o; class_name := class_name o;
     type_obj := type_obj o; class_obj_ := class_obj_ o;
     is_simple_attribute := is_simple_attribute o; navigable := v;
     opposite_class_name := opposite_class_name o; lower := lower o;
     upper := upper o; subsets := subsets o; composite := composite o;
     derived := derived o; redefines := redefines o; union := union o |}.

Definition with_opposite_class_name (v : option string) (o : prop_obj)
  : prop_obj :=
  {| p_src := p_src o; set_typeValue := set_typeValue o;
     p_written := p_written o; class_name := class_name o;
     type_obj := type_obj o; class_obj_ := class_obj_ o;
     is_simple_attribute := is_simple_attribute o; navigable := navigable o;
     opposite_class_name := v; lower := lower o; upper := upper o;
     subsets := subsets o; composite := composite o; derived := derived o;
     redefines := redefines o; union := union o |}.

Definition with_lower (v : pyval) (o : prop_obj)
  : prop_obj :=
  {| p_src := p_src o; set_typeValue := set_typeValue o;
     p_written := p_written o; class_name := class_name o;
     type_obj := type_obj o; class_obj_ := class_obj_ o;
     is_simple_attribute := is_simple_attribute o; navigable := navigable o;
     opposite_class_name := opposite_class_name o; lower := v;
     upper := upper o; subsets := subsets o; composite := composite o;
     derived := derived o; redefines := redefines o; union := union o |}.

Definition with_upper (v : option string) (o : prop_obj)
  : prop_obj :=
  {| p_src := p_src o; set_typeValue := set_typeValue o;
     p_written := p_written o; class_name := class_name o;
     type_obj := type_obj o; class_obj_ := class_obj_ o;
     is_simple_attribute := is_simple_attribute o; navigable := navigable o;
     opposite_class_name := opposite_class_name o; lower := lower o;
     upper := v; subsets := subsets o; composite := composite o;
     derived := derived o; redefines := redefines o; union := union o |}.

Definition with_subsets (v : option (list string)) (o : prop_obj)
  : prop_obj :=
  {| p_src := p_src o; set_typeValue := set_typeValue o;
     p_written := p_written o; class_name := class_name o;
     type_obj := type_obj o; class_obj_ := class_obj_ o;
     is_simple_attribute := is_simple_attribute o; navigable := navigable o;
     opposite_class_name := opposite_class_name o; lower := lower o;
     upper := upper o; subsets := v; composite := composite o;
     derived := derived o; redefines := redefines o; union := union o |}.

Definition with_composite (v : bool) (o : prop_obj)
  : prop_obj :=
  {| p_src := p_src o; set_typeValue := set_typeValue o;
     p_written := p_written o; class_name := class_name o;
     type_obj := type_obj o; class_obj_ := class_obj_ o;
     is_simple_attribute := is_simple_attribute o; navigable := navigable o;
     opposite_class_name := opposite_class_name o; lower := lower o;
     upper := upper o; subsets := subsets o; composite := v;
     derived := derived o; redefines := redefines o; union := union o |}.

Definition with_derived (v : option Z) (o : prop_obj)
  : prop_obj :=
  {| p_src := p_src o; set_typeValue := set_typeValue o;
     p_written := p_written o; class_name := class_name o;
     type_obj := type_obj o; class_obj_ := class_obj_ o;
     is_simple_attribute := is_simple_attribute o; navigable := navigable o;
     opposite_class_name := opposite_class_name o; lower := lower o;
     upper := upper o; subsets := subsets o; composite := composite o;
     derived := v; redefines := redefines o; union := union o |}.

Definition with_redefines (v : option string) (o : prop_obj)
  : prop_obj :=
  {| p_src := p_src o; set_typeValue := set_typeValue o;
     p_written := p_written o; class_name := class_name o;
     type_obj := type_obj o; class_obj_ := class_obj_ o;
     is_simple_attribute := is_simple_attribute o; navigable := navigable o;
     opposite_class_name := opposite_class_name o; lower := lower o;
     upper := upper o; subsets := subsets o; composite := composite o;
     derived := derived o; redefines := v; union := union o |}.

Definition with_union (v : option (list ident)) (o : prop_obj)
  : prop_obj :=
  {| p_src := p_src o; set_typeValue := set_typeValue o;
     p_written := p_written o; class_name := class_name o;
     type_obj := type_obj o; class_obj_ := class_obj_ o;
     is_simple_attribute := is_simple_attribute o; navigable := navigable o;
     opposite_class_name := opposite_class_name o; lower := lower o;
     upper := upper o; subsets := subsets o; composite := composite o;
     derived := derived o; redefines := redefines o; union := v |}.

Definition update_prop (p : ident) (f : prop_obj -> prop_obj) : M unit :=
  do o <- get_prop p; put_prop p (f o).

Definition update_class (c : ident) (f : class_obj -> class_obj) : M unit :=
  do o <- get_class c; put_class c (f o).

(** [assert b], with assertions enabled *)
Definition assert (b : bool) : M unit :=
  if b then ret tt else raise AssertionError.

(** Truth value of [head.derived], an integer or [None] *)
Definition truthy_int (o : option Z) : bool :=
  match o with Some z => negb (z =? 0)%Z | None => false end.

(** ** The writer and the generator

    The functions of Python's library that the generator calls on the
    derived flag are parameters: [literal_eval s] is the truth value of
    [ast.literal_eval(s)] or the fault it raises, [int_of_str s] is
    [int(s)], which raises [ValueError] on [None]. *)

Section Generator.

Variable ov : Overrides.
Variable literal_eval : string -> fault + bool.
Variable int_of_str : string -> option Z.

Definition lift_sum {A} (r : fault + A) : M A :=
  match r with inl f => raise f | inr a => ret a end.

(** *** [class Writer] *)

Fixpoint write_classdef (fuel : nat) (clazz : ident) : M unit :=
  match fuel with
  | O => raise OutOfFuel
  | S fuel' =>
      do o <- get_class clazz;
      exec (if negb (c_written o) then
              do s <- fold_each (generalization o)
                        (fun s g =>
                           exec write_classdef fuel' g;
                           do go <- get_class g;
                           ret ((if Py.truthy s then s +:+ ", " else s)
                                +:+ c_name go)) "";
              match write_override ov (c_name o) with
              | Some text => write (ClassOverride clazz (c_name o) text)
              | None => write (ClassDef clazz (c_name o) s)
              end
            else ret tt);
      update_class clazz (set_c_written true)
  end.

Definition write_property (full_name : string) (value : descriptor)
  : M unit :=
  match write_override ov full_name with
  | Some text => write (Override full_name text)
  | None => write (Assign full_name value)
  end.

(** The type names of the target: lines 126-131. *)
Definition map_type (type : string) : string :=
  if String.eqb (Py.lower type) "boolean" then "int"
  else if String.eqb (Py.lower type) "integer"
          || String.eqb (Py.lower type) "unlimitednatural" then "int"
  else if String.eqb (Py.lower type) "string" then "str"
  else type.

(** The default value: lines 133-138. *)
Definition map_default (default : option string) : option string :=
  match default with
  | Some d =>
      if Py.truthy d
         && (String.eqb (Py.lower d) "true"
             || String.eqb (Py.lower d) "false")
      then Some (Py.title d) else Some d
  | None => None
  end.

(** The [lower] and [upper] entries of [params]: lines 140-147. *)
Definition lower_param (lower : option string) : list (string * string) :=
  match lower with
  | Some l => if Py.truthy l && negb (String.eqb l "0")
              then [("lower", l)] else []
  | None => []
  end.

Definition upper_param (upper : option string) : list (string * string) :=
  match upper with
  | Some u => if String.eqb u "*" then [("upper", "'*'")]
              else if Py.truthy u && negb (String.eqb u "1")
                   then [("upper", u)] else []
  | None => []
  end.

Definition attribute_params (a : prop_obj) : list (string * string) :=
  match map_default (defaultValue (p_src a)) with
  | Some d => [("default", d)]
  | None => []
  end
  ++ lower_param (lowerValue (p_src a))
  ++ upper_param (upperValue (p_src a)).

Definition write_attribute (a : ident) (enumerations : dict ident enum_obj)
  : M unit :=
  do o <- get_prop a;
  match typeValue_of o with
  | None =>
      raise (ValueError ("ERROR! type is not specified for property "
                         +:+ full_name (class_name o) (name_of o)))
  | Some type0 =>
      let type := map_type type0 in
      let default := map_default (defaultValue (p_src o)) in
      let params := attribute_params o in
      let full := full_name (class_name o) (name_of o) in
      if has_override ov full then
        match write_override ov full with
        | Some text => write (Override full text)
        | None => ret tt
        end
      else
        do is_derived <- lift_sum
                           (literal_eval (Py.or_else (isDerived (p_src o)) "0"));
        if (is_derived : bool) then
          msg (IgnoringDerived (Py.fmt (class_name o)) (Py.fmt (name_of o)))
        else if Py.endswith type "Kind" || Py.endswith type "Sort" then
          match filter (fun e => e_name e = type) (dict_values enumerations)
          with
          | [] => raise IndexError
          | e :: _ =>
              do dflt <- (if Py.truthy_opt default then ret (Py.fmt default)
                          else from_option IndexError (head (enumerates e)));
              write_property full
                (Denumeration (Py.fmt (name_of o)) (enumerates e) dflt)
          end
        else
          write_property full (Dattribute (Py.fmt (name_of o)) type params)
  end.

Definition write_operation (o_class_name : string) (o_name : option string)
  : M unit :=
  let full := full_name (Some o_class_name) o_name in
  if has_override ov full then
    match write_override ov full with
    | Some text => write (Override full text)
    | None => ret tt
    end
  else msg (NoOverrideForOperation full).

(** [head.lower not in ("0", 0)] *)
Definition lower_is_zero (v : pyval) : bool :=
  match v with
  | PStr s => String.eqb s "0"
  | PInt z => (z =? 0)%Z
  | PNone => false
  end.

Definition write_association (head tail : ident) : M unit :=
  do h <- get_prop head;
  if p_written h then ret tt
  else
    exec assert (Py.truthy_opt (navigable h));
    exec assert (negb (truthy_int (derived h)));
    exec assert (negb (Py.truthy_opt (redefines h)));
    do t <- get_prop tail;
    exec (if Py.truthy_opt (navigable t)
          then assert (negb (truthy_int (derived h)
                             && negb (truthy_int (derived t))))
          else ret tt);
    write_property (full_name (class_name h) (name_of h))
      (Dassociation (Py.fmt (name_of h)) (Py.fmt (opposite_class_name h))
         (if lower_is_zero (lower h) then None else Some (lower h))
         (if bool_decide (upper h = Some "*") then None
          else Some (Py.fmt (upper h)))
         (composite h)
         (if Py.truthy_opt (navigable t) then Some (Py.fmt (name_of t))
          else None)).

(** [d.upper == "*" and "'*'" or d.upper] *)
Definition quoted_upper (upper : option string) : string :=
  if bool_decide (upper = Some "*") then "'*'" else Py.fmt upper.

Fixpoint write_derivedunion (fuel : nat) (d : ident) : M unit :=
  match fuel with
  | O => raise OutOfFuel
  | S fuel' =>
      do o <- get_prop d;
      do members <- from_option TypeError (union o);
      do subs <- fold_each members
                   (fun subs u =>
                      do uo <- get_prop u;
                      exec (if truthy_int (derived uo) && negb (p_written uo)
                            then write_derivedunion fuel' u else ret tt);
                      do uo <- get_prop u;
                      ret ((if Py.truthy subs then subs +:+ ", " else subs)
                           +:+ full_name (class_name uo) (name_of uo))) "";
      do o <- get_prop d;
      let full := full_name (class_name o) (name_of o) in
      let value :=
        Dderivedunion (Py.fmt (name_of o)) (Py.fmt (opposite_class_name o))
          (lower o) (quoted_upper (upper o)) subs in
      exec (if Py.truthy subs then write_property full value
            else
              exec (if negb (has_override ov full)
                    then msg (NoSubsets (Py.fmt (class_name o))
                                (Py.fmt (name_of o)) (lower o)
                                (Py.fmt (upper o)))
                    else ret tt);
              write_property full value);
      update_prop d (with_written true)
  end.

Definition write_redefine (r : ident) : M unit :=
  do o <- get_prop r;
  write_property (full_name (class_name o) (name_of o))
    (Dredefine (Py.fmt (class_name o)) (Py.fmt (name_of o))
       (Py.fmt (opposite_class_name o)) (Py.fmt (redefines o))).

(** *** The functions on association ends *)

(** [value.replace(" ", "").replace("\n", "").replace("\r", "")] *)
Definition strip_blanks (value : string) : string :=
  Py.remove_char "013" (Py.remove_char "010" (Py.remove_char " " value)).

Section WithElements.

Variable all_elements : dict ident element.

(** [stereotype.slot or []] and the fields of a slot, after [resolve]
    replaced the ids by the elements they name. *)
Definition slot_of (stereotype : ident) : list ident :=
  match dict_get all_elements stereotype with
  | Some (InstanceSpecification _ (Some l)) => l
  | _ => []
  end.

Definition definingFeature_of (slot : ident) : option ident :=
  match dict_get all_elements slot with
  | Some (Slot _ f) => f
  | _ => None
  end.

Definition value_of (slot : ident) : option string :=
  match dict_get all_elements slot with
  | Some (Slot v _) => v
  | _ => None
  end.

Definition scan_slot (acc : list string * option string) (slot : ident)
  : M (list string * option string) :=
  (* [slot.definingFeature.name]: no feature, no attribute [name] *)
  do f <- from_option AttributeError (definingFeature_of slot);
  do fe <- from_option AttributeError (dict_get all_elements f);
  let fname := element_name fe in
  exec msg (Scanning (Py.fmt fname) (Py.fmt (value_of slot)));
  do acc1 <- (if bool_decide (fname = Some "subsets") then
                do value <- from_option AttributeError (value_of slot);
                ret (Py.split "," (strip_blanks value), acc.2)
              else ret acc);
  if bool_decide (fname = Some "redefines") then
    do value <- from_option AttributeError (value_of slot);
    ret (acc1.1, Some (strip_blanks value))
  else ret acc1.

Definition parse_association_tags (appliedStereotypes : option (list ident))
  : M (list string * option string) :=
  fold_each (default [] appliedStereotypes)
    (fun acc stereotype => fold_each (slot_of stereotype) scan_slot acc)
    ([], None).

(** [upper] and [lower] of an end: lines 342-345. *)
Definition end_upper (p : property) : string :=
  Py.or_else (upperValue p) "*".

Definition end_lower (p : property) : pyval :=
  let lower := Py.or_else (lowerValue p) (end_upper p) in
  if String.eqb lower "*" then PInt 0 else PStr lower.

Definition parse_association_end (head tail : ident) : M unit :=
  do h <- get_prop head;
  exec update_prop head (with_navigable (p_class_ (p_src h)));
  if negb (Py.truthy_opt (p_class_ (p_src h))) then ret tt
  else
    match name_of h with
    | None =>
        raise (ValueError ("ERROR! no name, but navigable: " +:+ head
                           +:+ " (" +:+ full_name (class_name h) None
                           +:+ ")"))
    | Some _ =>
        let upper := end_upper (p_src h) in
        let lower := end_lower (p_src h) in
        do tags <- parse_association_tags (p_appliedStereotype (p_src h));
        do h <- get_prop head;
        do c <- from_option TypeError (class_obj_ h);
        do co <- get_class c;
        exec update_prop head (with_class_name (Some (c_name co)));
        do t <- from_option TypeError (type_obj h);
        do to <- get_class t;
        exec update_prop head (with_opposite_class_name (Some (c_name to)));
        exec update_prop head (with_lower lower);
        exec update_prop head (with_upper (Some upper));
        exec update_prop head (with_subsets (Some tags.1));
        exec update_prop head
               (with_composite
                  (bool_decide (aggregation (p_src h) = Some "composite")));
        do d <- (if Py.truthy_opt (isDerived (p_src h))
                 then from_option (ValueError "invalid literal for int()")
                        (int_of_str (Py.fmt (isDerived (p_src h))))
                 else ret 0%Z);
        exec update_prop head (with_derived (Some d));
        update_prop head (with_redefines tags.2)
    end.

(** *** [generate] *)

(** The raw references of an element that [resolve] is called on. *)
Inductive refs :=
| RefOne (r : ident)
| RefMany (l : list ident).

Definition references (e : element) (attr : string) : option refs :=
  match e with
  | Property p =>
      if String.eqb attr "appliedStereotype"
      then RefMany <$> p_appliedStereotype p else None
  | InstanceSpecification _ slot =>
      if String.eqb attr "slot" then RefMany <$> slot else None
  | Slot _ f =>
      if String.eqb attr "definingFeature" then RefOne <$> f else None
  | _ => None
  end.

Definition element_at (r : ident) : M element :=
  from_option KeyError (dict_get all_elements r).

(** [resolve] overwrites [val.references[attr]] with the elements found
    (or with [None]); run a second time on the same field it looks up
    those values, which are no keys of the table, unless the field was
    an empty list. *)
Definition resolve (val : ident) (attr : string) : M unit :=
  do e <- element_at val;
  do again <- is_resolved val attr;
  if (again : bool) then
    match references e attr with
    | Some (RefMany []) => ret tt
    | _ => raise KeyError
    end
  else
    exec mark_resolved val attr;
    match references e attr with
    | None => ret tt
    | Some (RefMany l) =>
        for_each l (fun r => do _ <- element_at r; ret tt)
    | Some (RefOne r) => do _ <- element_at r; ret tt
    end.

(** The dictionaries that the classification loop fills.  A dictionary
    whose values are mutable objects is the list of its keys; the
    others keep the fields read later. *)
Record tables := {
  classes : list ident;
  enumerations : dict ident enum_obj;
  generalizations : list (option ident * option ident);
  associations : list (option (list ident));
  properties : list ident;
  operations : dict ident (option string);
  extensions : list (option (list ident));
}.

Definition no_tables : tables :=
  {| classes := []; enumerations := []; generalizations := [];
     associations := []; properties := []; operations := [];
     extensions := [] |}.

Definition new_class (name : string)
    (appliedStereotype ownedAttribute ownedOperation : option (list ident))
  : class_obj :=
  {| c_name := name; c_appliedStereotype := appliedStereotype;
     c_ownedAttribute := ownedAttribute;
     c_ownedOperation := ownedOperation;
     specialization := []; generalization := [];
     stereotypeName := None; c_written := false |}.

(** Lines 392-428 *)
Definition classify (tb : tables) (kv : ident * element) : M tables :=
  let key := kv.1 in
  match kv.2 with
  | Class name st oa oo =>
      if Py.truthy_opt name then
        if Py.endswith (Py.fmt name) "Kind"
           || Py.endswith (Py.fmt name) "Sort" then
          ret {| classes := classes tb;
                 enumerations :=
                   dict_set (enumerations tb) key
                     {| e_name := Py.fmt name; e_ownedAttribute := oa;
                        enumerates := [] |};
                 generalizations := generalizations tb;
                 associations := associations tb;
                 properties := properties tb;
                 operations := operations tb;
                 extensions := extensions tb |}
        else
          exec put_class key (new_class (Py.fmt name) st oa oo);
          ret {| classes := classes tb ++ [key];
                 enumerations := enumerations tb;
                 generalizations := generalizations tb;
                 associations := associations tb;
                 properties := properties tb;
                 operations := operations tb;
                 extensions := extensions tb |}
      else ret tb
  | Generalization specific general =>
      ret {| classes := classes tb; enumerations := enumerations tb;
             generalizations := generalizations tb ++ [(specific, general)];
             associations := associations tb;
             properties := properties tb; operations := operations tb;
             extensions := extensions tb |}
  | Association memberEnd =>
      ret {| classes := classes tb; enumerations := enumerations tb;
             generalizations := generalizations tb;
             associations := associations tb ++ [memberEnd];
             properties := properties tb; operations := operations tb;
             extensions := extensions tb |}
  | Property p =>
      exec put_prop key (new_prop p);
      exec resolve key "appliedStereotype";
      exec for_each (default [] (p_appliedStereotype p))
             (fun st =>
                exec resolve st "slot";
                for_each (slot_of st)
                  (fun slot =>
                     exec resolve slot "value";
                     resolve slot "definingFeature"));
      ret {| classes := classes tb; enumerations := enumerations tb;
             generalizations := generalizations tb;
             associations := associations tb;
             properties := properties tb ++ [key];
             operations := operations tb;
             extensions := extensions tb |}
  | Operation name =>
      ret {| classes := classes tb; enumerations := enumerations tb;
             generalizations := generalizations tb;
             associations := associations tb;
             properties := properties tb;
             operations := dict_set (operations tb) key name;
             extensions := extensions tb |}
  | Extension memberEnd =>
      ret {| classes := classes tb; enumerations := enumerations tb;
             generalizations := generalizations tb;
             associations := associations tb;
             properties := properties tb; operations := operations tb;
             extensions := extensions tb ++ [memberEnd] |}
  | _ => ret tb
  end.

(** [d[k]] on a dictionary of objects given by its keys *)
Definition item (keys : list ident) (k : option ident) : M ident :=
  match k with
  | Some k => if bool_decide (k ∈ keys) then ret k else raise KeyError
  | None => raise KeyError
  end.

(** Lines 431-436 *)
Definition link_generalization (classes : list ident)
    (g : option ident * option ident) : M unit :=
  do specific <- item classes g.1;
  do general <- item classes g.2;
  exec update_class specific (add_generalization general);
  update_class general (add_specialization specific).

(** Lines 439-443 *)
Definition enumeration_values (properties : list ident) (e : enum_obj)
  : M enum_obj :=
  do keys <- from_option TypeError (e_ownedAttribute e);
  do values <- fold_each keys
                 (fun values key =>
                    do p <- item properties (Some key);
                    do o <- get_prop p;
                    ret (values ++ [Py.fmt (name_of o)])) [];
  ret {| e_name := e_name e; e_ownedAttribute := e_ownedAttribute e;
         enumerates := values |}.

(** Lines 447-457: the types of the member ends of an extension are
    resolved, and the type of the first one leaves [classes]. *)
Definition extension_end (ends : list ident) (end_ : ident)
  : M (list ident) :=
  do e <- element_at end_;
  match e with
  | Property p =>
      if Py.truthy_opt (p_type p) then
        do t <- item (map fst all_elements) (p_type p);
        exec update_prop end_ (with_type_obj (Some t));
        ret (ends ++ [t])
      else ret ends
  | _ => ret ends
  end.

Definition remove_metaclass (classes : list ident)
    (memberEnd : option (list ident)) : M (list ident) :=
  do l <- from_option TypeError memberEnd;
  do ends <- fold_each l extension_end [];
  match ends with
  | t :: _ =>
      do _ <- item classes (Some t);
      ret (filter (fun c => c ≠ t) classes)
  | [] => ret classes
  end.

(** Lines 475-483 *)
Fixpoint tag_children (fuel : nat) (sType_name : option string)
    (me : ident) : M unit :=
  match fuel with
  | O => raise OutOfFuel
  | S fuel' =>
      do o <- get_class me;
      for_each (specialization o)
        (fun child =>
           exec update_class child (set_stereotypeName sType_name);
           do co <- get_class child;
           exec write (Stereotyped child (c_name co)
                         (stereotypeName co) true);
           tag_children fuel' sType_name child)
  end.

(** Lines 463-485 *)
Definition tag_class (fuel : nat) (c : ident) : M unit :=
  do o <- get_class c;
  match c_appliedStereotype o with
  | Some (i :: _) =>
      do instSpec <- element_at i;
      do cl <- match instSpec with
               | InstanceSpecification (Some (cl :: _)) _ => ret cl
               | InstanceSpecification (Some []) _ => raise IndexError
               | _ => raise TypeError
               end;
      do sType <- element_at cl;
      exec update_class c (set_stereotypeName (element_name sType));
      exec write (Stereotyped c (c_name o) (element_name sType) false);
      tag_children fuel (element_name sType) c
  | _ => ret tt
  end.

(** Lines 487-494 *)
Definition write_classdefs (fuel : nat) (classes : list ident)
  : M (list ident) :=
  fold_each classes
    (fun ignored_classes c =>
       do o <- get_class c;
       if bool_decide (stereotypeName o = Some "SimpleAttribute")
       then ret (ignored_classes ++ [c])
       else exec write_classdef fuel c; ret ignored_classes) [].

(** Lines 497-507 *)
Definition emit_attribute (tb : tables) (c_name : string)
    (derivedattributes : dict (option string) ident) (p : ident)
  : M (dict (option string) ident) :=
  if bool_decide (p ∈ properties tb) then
    exec update_prop p (with_class_name (Some c_name));
    do a <- get_prop p;
    if negb (Py.truthy_opt (p_association (p_src a))) then
      if derives ov (full_name (class_name a) (name_of a))
      then ret (dict_set derivedattributes (name_of a) p)
      else exec write_attribute p (enumerations tb); ret derivedattributes
    else ret derivedattributes
  else raise AttributeError.

Definition write_attributes (tb : tables) (ignored_classes : list ident)
  : M (dict (option string) ident) :=
  fold_each (filter (fun c => c ∉ ignored_classes) (classes tb))
    (fun derivedattributes c =>
       do o <- get_class c;
       fold_each (default [] (c_ownedAttribute o))
         (emit_attribute tb (c_name o)) derivedattributes) [].

(** Lines 515-526 *)
Definition resolve_end (tb : tables)
    (acc : option ident * list ident) (end_ : ident)
  : M (option ident * list ident) :=
  do e <- item (properties tb) (Some end_);
  do o <- get_prop e;
  do t <- item (classes tb) (p_type (p_src o));
  exec update_prop e (with_type_obj (Some t));
  exec (if Py.truthy_opt (p_class_ (p_src o)) then
          do c <- item (classes tb) (p_class_ (p_src o));
          update_prop e (with_class_obj (Some c))
        else update_prop e (with_class_obj None));
  exec update_prop e (with_is_simple_attribute false);
  do to <- get_class t;
  if bool_decide (stereotypeName to = Some "SimpleAttribute") then
    exec update_prop e (with_is_simple_attribute true);
    ret (Some e, acc.2 ++ [e])
  else ret (acc.1, acc.2 ++ [e]).

(** Lines 531-554, one turn of the loop *)
Definition route_end (tb : tables) (asAttribute : option ident)
    (e1 e2 : ident)
    (acc : dict (option string) ident * list ident)
  : M (dict (option string) ident * list ident) :=
  match asAttribute with
  | Some sa =>
      do o1 <- get_prop e1;
      if bool_decide (sa = e1) && Py.truthy_opt (navigable o1) then
        do o2 <- get_prop e2;
        do t2 <- from_option AttributeError (type_obj o2);
        do to2 <- get_class t2;
        exec write (SimpleAttribute (c_name to2) (Py.fmt (name_of o1)));
        exec update_prop e1 (with_class_name (Some (c_name to2)));
        exec update_prop e1 (with_typeValue (Some "str"));
        exec write_attribute e1 (enumerations tb);
        exec update_prop e1 (with_written true);
        exec update_prop e2 (with_written true);
        ret acc
      else ret acc
  | None =>
      do o1 <- get_prop e1;
      if Py.truthy_opt (redefines o1) then ret (acc.1, acc.2 ++ [e1])
      else if truthy_int (derived o1)
              || derives ov (full_name (class_name o1) (name_of o1)) then
        exec assert (negb (bool_decide
                             (is_Some (dict_get acc.1 (name_of o1)))));
        exec update_prop e1 (with_union (Some []));
        exec update_prop e1 (with_written false);
        ret (dict_set acc.1 (name_of o1) e1, acc.2)
      else if Py.truthy_opt (navigable o1) then
        exec write_association e1 e2; ret acc
      else ret acc
  end.

(** Lines 531-554: both turns, [(ends[0], ends[1])] and then
    [(ends[1], ends[0])] *)
Definition route_ends (tb : tables) (asAttribute : option ident)
    (e0 e1 : ident)
    (acc : dict (option string) ident * list ident)
  : M (dict (option string) ident * list ident) :=
  do acc1 <- route_end tb asAttribute e0 e1 acc;
  route_end tb asAttribute e1 e0 acc1.

(** Lines 512-554, one association *)
Definition write_association_ends (tb : tables)
    (acc : dict (option string) ident * list ident)
    (memberEnd : option (list ident))
  : M (dict (option string) ident * list ident) :=
  do l <- from_option TypeError memberEnd;
  do r <- fold_each l (resolve_end tb) (None, []);
  do e0 <- from_option IndexError (r.2 !! 0%nat);
  do e1 <- from_option IndexError (r.2 !! 1%nat);
  exec parse_association_end e0 e1;
  exec parse_association_end e1 e0;
  route_ends tb r.1 e0 e1 acc.

(** Lines 557-563 *)
Definition link_subsets (ignored_classes : list ident)
    (derivedunions : dict (option string) ident) (a : ident) : M unit :=
  do o <- get_prop a;
  for_each (default [] (subsets o))
    (fun s =>
       do o <- get_prop a;
       do t <- from_option AttributeError (type_obj o);
       if bool_decide (t ∉ ignored_classes) then
         match dict_get derivedunions (Some s) with
         | Some d =>
             do do_ <- get_prop d;
             do members <- from_option AttributeError (union do_);
             update_prop d (with_union (Some (members ++ [a])))
         | None => msg (NotADerivedUnion (Py.fmt (class_name o)) s)
         end
       else ret tt).

(** Lines 579-583 *)
Definition write_operations (tb : tables) (ignored_classes : list ident)
  : M unit :=
  for_each (filter (fun c => c ∉ ignored_classes) (classes tb))
    (fun c =>
       do o <- get_class c;
       for_each (default [] (c_ownedOperation o))
         (fun p =>
            do name <- from_option AttributeError
                         (dict_get (operations tb) p);
            write_operation (c_name o) name)).

(** The stages of [generate], in the order of the source. *)
Definition build_tables : M tables :=
  do tb <- fold_each all_elements classify no_tables;
  exec for_each (generalizations tb) (link_generalization (classes tb));
  do enums <- fold_each (enumerations tb)
                (fun acc kv =>
                   do e <- enumeration_values (properties tb) kv.2;
                   ret (acc ++ [(kv.1, e)])) [];
  do cls <- fold_each (extensions tb) remove_metaclass (classes tb);
  ret {| classes := cls; enumerations := enums;
         generalizations := generalizations tb;
         associations := associations tb;
         properties := properties tb; operations := operations tb;
         extensions := extensions tb |}.

Definition generate (fuel : nat) : M unit :=
  do tb <- build_tables;
  exec write Header;
  exec for_each (classes tb) (tag_class fuel);
  do ignored_classes <- write_classdefs fuel (classes tb);
  do derivedattributes <- write_attributes tb ignored_classes;
  do r <- fold_each (associations tb) (write_association_ends tb) ([], []);
  exec for_each (properties tb) (link_subsets ignored_classes r.1);
  exec for_each (dict_values derivedattributes)
         (fun d => write_attribute d []);
  exec for_each (dict_values r.1) (write_derivedunion fuel);
  exec for_each r.2
         (fun r =>
            do o <- get_prop r;
            exec msg (Redefining (Py.fmt (redefines o))
                        (Py.fmt (class_name o)) (Py.fmt (name_of o)));
            write_redefine r);
  write_operations tb ignored_classes.

End WithElements.

End Generator.

(** ** The helpers on names *)

(** [re.sub(r"([A-Z])", r"_\1", str)]: an underscore before every capital
    letter. *)
Fixpoint underscore_capitals (str : string) : string :=
  match str with
  | EmptyString => EmptyString
  | String c r =>
      if Py.is_upper c then String "_" (String c (underscore_capitals r))
      else String c (underscore_capitals r)
  end.

(** The function on ASCII text: [Py.lower] is [str.lower] there.  On
    other text [str.lower] also lowers the cased letters outside ASCII
    and may change the length, which the embedding does not follow; a
    property that depends on it is stated for ASCII arguments. *)
Definition camelCase_to_underscore (str : string) : string :=
  Py.lower (underscore_capitals str).

(** [c.isalpha()], on ASCII text *)
Definition is_alpha (c : ascii) : bool := Py.is_upper c || Py.is_lower c.

(** The loop of [parse_association_name]: characters are dropped up to the
    first letter, and a slash among them sets [derived]. *)
Fixpoint skip_to_letter (derived : bool) (name : string) : bool * string :=
  match name with
  | EmptyString => (derived, EmptyString)
  | String c r =>
      if is_alpha c then (derived, name)
      else skip_to_letter (derived || Ascii.eqb c "/") r
  end.

Definition parse_association_name (name : string) : bool * string :=
  skip_to_letter false (Py.remove_char " " name).

(** ** Registries and library functions of the examples *)

(** The empty registry: no override file was given. *)
Definition no_overrides : Overrides :=
  {| has_override := fun _ => false;
     write_override := fun _ => None;
     derives := fun _ => false |}.

(** A registry with replacement text for one key. *)
Definition one_override (key text : string) : Overrides :=
  {| has_override := fun k => bool_decide (k = key);
     write_override := fun k => if bool_decide (k = key) then Some text
                                else None;
     derives := fun _ => false |}.

(** [ast.literal_eval] and [int] on the flags that model files hold:
    the examples use no other argument. *)
Definition flag_literal (s : string) : fault + bool :=
  if bool_decide (s = "0") || bool_decide (s = "False") then inr false
  else if bool_decide (s = "1") || bool_decide (s = "True") then inr true
  else inl (ValueError "malformed node or string").

Definition flag_int (s : string) : option Z :=
  if bool_decide (s = "0") then Some 0%Z
  else if bool_decide (s = "1") then Some 1%Z
  else None.

(** A property of the file with the given name and type and no other
    field. *)
Definition plain_property (name : string) (type : option string) : property :=
  {| p_name := Some name; typeValue := type; defaultValue := None;
     lowerValue := None; upperValue := None; isDerived := None;
     aggregation := None; p_association := None; p_type := None;
     p_class_ := None; p_appliedStereotype := None |}.

(** A state that holds one property object, owned by class [cn]. *)
Definition one_prop_state (key : ident) (cn : string) (p : property) : state :=
  {| out := []; log := [];
     classes_st := ∅;
     props_st := {[ key := with_class_name (Some cn) (new_prop p) ]};
     resolved := [] |}.

(** ** Multiplicities *)

(** Reading back the [lower] and [upper] parameters of an emitted
    attribute descriptor: an omitted [lower] is 0, an omitted [upper] is
    the implicit 1, and the quoted star is the wildcard. *)
Definition reparse_multiplicity (params : list (string * string))
  : string * string :=
  (default "0" (dict_get params "lower"),
   match dict_get params "upper" with
   | None => "1"
   | Some u => if String.eqb u "'*'" then "*" else u
   end).

(** The multiplicity that an attribute declares, with the defaults of
    attributes: no lower bound is 0, no upper bound is 1. *)
Definition declared_multiplicity (p : property) : string * string :=
  (Py.or_else (lowerValue p) "0", Py.or_else (upperValue p) "1").

(** The multiplicity under the rule of association ends (lines 342-345):
    [lower] defaults to [upper], and is 0 when it is the wildcard. *)
Definition end_rule_multiplicity (p : property) : string * string :=
  (match end_lower p with
   | PStr l => l
   | _ => "0"
   end, end_upper p).

(** ** Inputs of the examples on enumerations *)

Definition kind_attribute : property := plain_property "k" (Some "FooKind").

Definition two_enumerations : dict ident enum_obj :=
  [("e1", {| e_name := "FooKind"; e_ownedAttribute := Some [];
             enumerates := ["x"; "y"] |});
   ("e2", {| e_name := "FooKind"; e_ownedAttribute := Some [];
             enumerates := ["z"] |})].

(** A model with two enumerations of the same name and an attribute of
    that type. *)
Definition two_enumerations_model : dict ident element :=
  [("C", Class (Some "C") None (Some ["k"]) None);
   ("k", Property kind_attribute);
   ("e1", Class (Some "FooKind") None (Some ["x"; "y"]) None);
   ("x", Property (plain_property "x" None));
   ("y", Property (plain_property "y" None));
   ("e2", Class (Some "FooKind") None (Some ["z"]) None);
   ("z", Property (plain_property "z" None))].

(** A model whose attribute [A.x] has no type. *)
Definition typeless_attribute_model : dict ident element :=
  [("A", Class (Some "A") None (Some ["x"]) None);
   ("x", Property (plain_property "x" None))].

(** [default or e.enumerates[0]] *)
Definition enumeration_default (default : option string) (e : enum_obj)
  : option string :=
  if Py.truthy_opt default then default else head (enumerates e).

(** The enumeration branch of [write_attribute] is reached for a typed
    attribute whose mapped type ends in [Kind] or [Sort], that has no
    override and is not derived. *)
Definition enumeration_typed (type : string) : bool :=
  Py.endswith (map_type type) "Kind" || Py.endswith (map_type type) "Sort".

(** ** Inputs of the examples on attributes *)

(** An attribute of type [String] with the upper bound 5 and no lower
    bound. *)
Definition bounded_attribute : property :=
  {| p_name := Some "n"; typeValue := Some "String"; defaultValue := None;
     lowerValue := None; upperValue := Some "5"; isDerived := None;
     aggregation := None; p_association := None; p_type := None;
     p_class_ := None; p_appliedStereotype := None |}.

(** A derived attribute of type [String]. *)
Definition derived_attribute : property :=
  {| p_name := Some "x"; typeValue := Some "String"; defaultValue := None;
     lowerValue := None; upperValue := None; isDerived := Some "1";
     aggregation := None; p_association := None; p_type := None;
     p_class_ := None; p_appliedStereotype := None |}.

(** A model with one class that owns one derived attribute. *)
Definition derived_attribute_model : dict ident element :=
  [("A", Class (Some "A") None (Some ["x"]) None);
   ("x", Property derived_attribute)].

(** ** Inputs of the examples on associations *)

(** An association end named [name], of type [type], owned by [owner]
    (no owner: not navigable), derived or not. *)
Definition association_end (name : string) (type : ident)
    (owner : option ident) (derived : option string) : property :=
  {| p_name := Some name; typeValue := None; defaultValue := None;
     lowerValue := None; upperValue := None; isDerived := derived;
     aggregation := None; p_association := Some "assoc"; p_type := Some type;
     p_class_ := owner; p_appliedStereotype := None |}.

(** Classes [A] and [B] each have a derived end named [x] towards [T]. *)
Definition colliding_unions_model : dict ident element :=
  [("A", Class (Some "A") None None None);
   ("B", Class (Some "B") None None None);
   ("T", Class (Some "T") None None None);
   ("a_x", Property (association_end "x" "T" (Some "A") (Some "1")));
   ("a_o", Property (association_end "o" "A" None None));
   ("b_x", Property (association_end "x" "T" (Some "B") (Some "1")));
   ("b_o", Property (association_end "o" "B" None None));
   ("as1", Association (Some ["a_x"; "a_o"]));
   ("as2", Association (Some ["b_x"; "b_o"]))].

(** Class [A] has a derived end [u] that no property subsets. *)
Definition empty_union_model : dict ident element :=
  [("A", Class (Some "A") None None None);
   ("T", Class (Some "T") None None None);
   ("a_u", Property (association_end "u" "T" (Some "A") (Some "1")));
   ("a_o", Property (association_end "o" "A" None None));
   ("as1", Association (Some ["a_u"; "a_o"]))].

(** Class [S] carries the stereotype [SimpleAttribute]; the end [s] of
    type [S] has no owning class, the opposite end [a] is owned by [S]. *)
Definition unowned_simple_end_model : dict ident element :=
  [("A", Class (Some "A") None None None);
   ("S", Class (Some "S") (Some ["inst"]) None None);
   ("inst", InstanceSpecification (Some ["st"]) None);
   ("st", Named (Some "SimpleAttribute"));
   ("e_s", Property (association_end "s" "S" None None));
   ("e_a", Property (association_end "a" "A" (Some "S") None));
   ("as1", Association (Some ["e_s"; "e_a"]))].

(** The same association with the end [s] owned by [A]. *)
Definition simple_end_model : dict ident element :=
  [("A", Class (Some "A") None None None);
   ("S", Class (Some "S") (Some ["inst"]) None None);
   ("inst", InstanceSpecification (Some ["st"]) None);
   ("st", Named (Some "SimpleAttribute"));
   ("e_s", Property (association_end "s" "S" (Some "A") None));
   ("e_a", Property (association_end "a" "A" None None));
   ("as1", Association (Some ["e_s"; "e_a"]))].

(** The line that [write_property] emits. *)
Definition property_line (ov : Overrides) (full : string) (value : descriptor)
  : line :=
  match write_override ov full with
  | Some text => Override full text
  | None => Assign full value
  end.

(** What [write_attribute] emits for an end folded into an attribute of
    type [str]: [is_derived] is the truth value of its derived flag. *)
Definition folded_lines (ov : Overrides) (is_derived : bool) (cn : string)
    (o : prop_obj) : list line :=
  let full := full_name (Some cn) (name_of o) in
  if has_override ov full then
    match write_override ov full with
    | Some text => [Override full text]
    | None => []
    end
  else if is_derived then []
  else [property_line ov full
          (Dattribute (Py.fmt (name_of o)) "str" (attribute_params o))].

Definition folded_log (ov : Overrides) (is_derived : bool) (cn : string)
    (o : prop_obj) : list message :=
  if has_override ov (full_name (Some cn) (name_of o)) then []
  else if is_derived then [IgnoringDerived cn (Py.fmt (name_of o))]
  else [].

(** ** States, for the statements *)

(** [s] with more lines and messages, and [s] with another property
    store. *)
Definition emit (ls : list line) (ms : list message) (s : state) : state :=
  {| out := out s ++ ls; log := log s ++ ms; classes_st := classes_st s;
     props_st := props_st s; resolved := resolved s |}.

Definition store_props (m : gmap string prop_obj) (s : state) : state :=
  {| out := out s; log := log s; classes_st := classes_st s;
     props_st := m; resolved := resolved s |}.


(** The state after the turn that folds [e1]. *)
Definition folded_state (ov : Overrides) (b : bool) (e1 e2 : ident)
    (o1 o2 : prop_obj) (cn : string) (s : state) : state :=
  let o1' :=
    with_written true
      (with_typeValue (Some "str") (with_class_name (Some cn) o1)) in
  store_props (<[e2 := with_written true o2]> (<[e1 := o1']> (props_st s)))
    (emit (SimpleAttribute cn (Py.fmt (name_of o1))
           :: folded_lines ov b cn o1)
       (folded_log ov b cn o1) s).


(** A state at the routing of the association of [simple_end_model]:
    the end [e_s] is navigable from [A], the end [e_a] has the type [A]. *)
Definition simple_end_state : state :=
  {| out := []; log := [];
     classes_st := {[ "A" := new_class "A" None None None ]};
     props_st :=
       {[ "e_s" := with_navigable (Some "A")
                     (new_prop (association_end "s" "S" (Some "A") None));
          "e_a" := with_type_obj (Some "A")
                     (new_prop (association_end "a" "A" None None)) ]};
     resolved := [] |}.

(** ** Class graphs *)

(** Following from the class [c], at each step, the specialization whose
    number in the list [me.specialization] is the next element of
    [path]. *)
Fixpoint walk (h : gmap string class_obj) (c : ident) (path : list nat)
  : option ident :=
  match path with
  | [] => Some c
  | i :: rest =>
      match h !! c with
      | Some o =>
          match specialization o !! i with
          | Some child => walk h child rest
          | None => None
          end
      | None => None
      end
  end.

(** Every specialization is a live class object. *)
Definition children_live (h : gmap string class_obj) : Prop :=
  forall c o child,
    h !! c = Some o -> child ∈ specialization o -> is_Some (h !! child).

(** The specialization graph has no cycle: the rank decreases along its
    edges. *)
Definition specialization_acyclic (h : gmap string class_obj)
    (rank : ident -> nat) : Prop :=
  forall c o child,
    h !! c = Some o -> child ∈ specialization o -> (rank child < rank c)%nat.

(** [l] is the line written when [tag_children], started on [c], tags the
    class at the end of [path]. *)
Definition tag_line (h : gmap string class_obj) (tag : option string)
    (c : ident) (path : list nat) (l : line) : Prop :=
  exists d o,
    walk h c path = Some d /\ h !! d = Some o
    /\ l = Stereotyped d (c_name o) tag true.

(** The heap [h'] is [h] with the tag [tag] set on some classes. *)
Definition retag (tag : option string) (h h' : gmap string class_obj) : Prop :=
  forall d, h' !! d = h !! d \/ h' !! d = set_stereotypeName tag <$> h !! d.

(** Is [l] the line of a propagated tag on the class [d]? *)
Definition is_tag_of (d : ident) (l : line) : bool :=
  match l with
  | Stereotyped c _ _ true => bool_decide (c = d)
  | _ => false
  end.

(** A diamond: [B] and [C] specialize the stereotyped class [A], and [D]
    specializes both. *)
Definition diamond_model : dict ident element :=
  [("A", Class (Some "A") (Some ["inst"]) None None);
   ("B", Class (Some "B") None None None);
   ("C", Class (Some "C") None None None);
   ("D", Class (Some "D") None None None);
   ("inst", InstanceSpecification (Some ["st"]) None);
   ("st", Named (Some "Tagged"));
   ("g1", Generalization (Some "B") (Some "A"));
   ("g2", Generalization (Some "C") (Some "A"));
   ("g3", Generalization (Some "D") (Some "B"));
   ("g4", Generalization (Some "D") (Some "C"))].

(** A class tagged between [h] and [h'] *)
Definition tagged_in (tag : option string) (h h' : gmap string class_obj)
    (d : ident) : Prop :=
  h' !! d = set_stereotypeName tag <$> h !! d.

(** What [tag_children] does with [fuel] on a class of smaller rank: it
    ends, the lines it writes are those of the non-empty paths from the
    class, each path once, in the order of the traversal, and the classes
    at the end of the paths have the tag. *)
Definition tag_children_spec (tag : option string) (rank : ident -> nat)
    (fuel : nat) : Prop :=
  forall c s,
    children_live (classes_st s) ->
    specialization_acyclic (classes_st s) rank ->
    is_Some (classes_st s !! c) ->
    (rank c < fuel)%nat ->
    exists s' paths lines,
      tag_children fuel tag c s = Ok tt s'
      /\ out s' = out s ++ lines
      /\ Forall2 (tag_line (classes_st s) tag c) paths lines
      /\ NoDup paths
      /\ (forall p, p ∈ paths <-> p ≠ [] /\ is_Some (walk (classes_st s) c p))
      /\ retag tag (classes_st s) (classes_st s')
      /\ (forall p d, p ∈ paths -> walk (classes_st s) c p = Some d ->
                      tagged_in tag (classes_st s) (classes_st s') d).

(** The class store after the stages before the tagging of
    [diamond_model], and a rank for it. *)
Definition diamond_heap : gmap string class_obj :=
  {[ "A" := add_specialization "C"
              (add_specialization "B"
                 (new_class "A" (Some ["inst"]) None None));
     "B" := add_generalization "A"
              (add_specialization "D" (new_class "B" None None None));
     "C" := add_generalization "A"
              (add_specialization "D" (new_class "C" None None None));
     "D" := add_generalization "C"
              (add_generalization "B" (new_class "D" None None None)) ]}.

Definition diamond_state : state :=
  {| out := [Header]; log := []; classes_st := diamond_heap; props_st := ∅;
     resolved := [] |}.

Definition diamond_rank (c : ident) : nat :=
  if bool_decide (c = "A") then 2
  else if bool_decide (c = "D") then 0 else 1.

(** ** Class declarations *)

(** Is [l] the declaration of the class [c]: the synthesized one or the
    text of its override? *)
Definition is_decl_of (c : ident) (l : line) : bool :=
  match l with
  | ClassDef c' _ _ | ClassOverride c' _ _ => bool_decide (c' = c)
  | _ => false
  end.

(** How many times is [c] declared in the output? *)
Definition decl_count (c : ident) (ls : list line) : nat :=
  List.length (filter (fun l => is_decl_of c l) ls).

Definition declared_at (c : ident) (ls : list line) (i : nat) : Prop :=
  exists l, ls !! i = Some l /\ is_decl_of c l = true.

(** A declaration of [g] stands before a declaration of [c]. *)
Definition declared_before (g c : ident) (ls : list line) : Prop :=
  exists i j, (i < j)%nat /\ declared_at g ls i /\ declared_at c ls j.

(** Every generalization is a live class object. *)
Definition parents_live (h : gmap string class_obj) : Prop :=
  forall c o g,
    h !! c = Some o -> g ∈ generalization o -> is_Some (h !! g).

(** The generalization graph has no cycle: the rank decreases from a
    class to its generalizations. *)
Definition generalization_acyclic (h : gmap string class_obj)
    (rank : ident -> nat) : Prop :=
  forall c o g,
    h !! c = Some o -> g ∈ generalization o -> (rank g < rank c)%nat.

(** The heap [h'] is [h] with the flag [written] set on some classes. *)
Definition marked (h h' : gmap string class_obj) : Prop :=
  forall d, h' !! d = h !! d \/ h' !! d = set_c_written true <$> h !! d.

(** The invariant of the class definition pass: a class marked written is
    declared once, after its generalizations; any other class is not
    declared. *)
Definition class_inv (s : state) : Prop :=
  forall c,
    match classes_st s !! c with
    | Some o =>
        if c_written o then
          decl_count c (out s) = 1%nat
          /\ forall g, g ∈ generalization o -> declared_before g c (out s)
        else decl_count c (out s) = 0%nat
    | None => decl_count c (out s) = 0%nat
    end.

(** What [write_classdef] does with [fuel] on a class of smaller rank. *)
Definition write_classdef_spec (ov : Overrides) (rank : ident -> nat)
    (fuel : nat) : Prop :=
  forall c s,
    class_inv s ->
    parents_live (classes_st s) ->
    generalization_acyclic (classes_st s) rank ->
    is_Some (classes_st s !! c) ->
    (rank c < fuel)%nat ->
    exists s' lines,
      write_classdef ov fuel c s = Ok tt s'
      /\ out s' = out s ++ lines
      /\ class_inv s'
      /\ marked (classes_st s) (classes_st s')
      /\ (forall d, (rank c < rank d)%nat ->
                    classes_st s' !! d = classes_st s !! d)
      /\ (exists o', classes_st s' !! c = Some o' /\ c_written o' = true).

(** Is [l] a class declaration? *)
Definition is_class_line (l : line) : bool :=
  match l with
  | ClassDef _ _ _ | ClassOverride _ _ _ => true
  | _ => false
  end.

(** A rank for the generalizations of [diamond_heap]. *)
Definition diamond_depth (c : ident) : nat :=
  if bool_decide (c = "A") then 0
  else if bool_decide (c = "D") then 2 else 1.

(** ** The passes of the output *)

(** The lines that each pass of [generate] may write. *)
Definition is_header (l : line) : bool :=
  match l with Header => true | _ => false end.

Definition is_stereotype_line (l : line) : bool :=
  match l with Stereotyped _ _ _ _ => true | _ => false end.

Definition is_attribute_line (l : line) : bool :=
  match l with
  | Override _ _ => true
  | Assign _ (Dattribute _ _ _) | Assign _ (Denumeration _ _ _) => true
  | _ => false
  end.

Definition is_association_pass_line (l : line) : bool :=
  match l with
  | SimpleAttribute _ _ | Override _ _ => true
  | Assign _ (Dattribute _ _ _) | Assign _ (Denumeration _ _ _) => true
  | Assign _ (Dassociation _ _ _ _ _ _) => true
  | _ => false
  end.

Definition is_derivedunion_line (l : line) : bool :=
  match l with
  | Override _ _ | Assign _ (Dderivedunion _ _ _ _ _) => true
  | _ => false
  end.

Definition is_redefine_line (l : line) : bool :=
  match l with
  | Override _ _ | Assign _ (Dredefine _ _ _ _) => true
  | _ => false
  end.

Definition is_operation_line (l : line) : bool :=
  match l with Override _ _ => true | _ => false end.

Definition no_line (l : line) : bool := false.

(** The passes in the order of [generate]: header, stereotype comments,
    class definitions, attributes, associations (with the simple
    attributes folded there), deferred derived attributes, derived unions,
    redefinitions, operations. *)
Definition passes : list (line -> bool) :=
  [is_header; is_stereotype_line; is_class_line; is_attribute_line;
   is_association_pass_line; is_attribute_line; is_derivedunion_line;
   is_redefine_line; is_operation_line].

(** [ls] is made of consecutive segments, one for each pass of [ks] in
    their order (a segment may be empty), and the lines of a segment are
    lines of its pass. *)
Inductive in_passes : list (line -> bool) -> list line -> Prop :=
| in_passes_nil ks : in_passes ks []
| in_passes_here k ks l ls :
    k l = true -> in_passes (k :: ks) ls -> in_passes (k :: ks) (l :: ls)
| in_passes_next k ks ls : in_passes ks ls -> in_passes (k :: ks) ls.

(** Whatever the state and the outcome, [m] appends lines of the kind [k]
    alone. *)
Definition emits {A} (k : line -> bool) (m : M A) : Prop :=
  forall s, exists seg,
    out (final_state (m s)) = out s ++ seg
    /\ Forall (fun l => k l = true) seg.

(** Whatever the state and the outcome, [m] appends lines in the order of
    the passes [ks]. *)
Definition emits_in_passes {A} (ks : list (line -> bool)) (m : M A) : Prop :=
  forall s, exists seg,
    out (final_state (m s)) = out s ++ seg /\ in_passes ks seg.

(** An association written before a folded simple attribute. *)
Definition association_then_attribute_model : dict ident element :=
  [("A", Class (Some "A") None None None);
   ("B", Class (Some "B") None None None);
   ("S", Class (Some "S") (Some ["inst"]) None None);
   ("inst", InstanceSpecification (Some ["st"]) None);
   ("st", Named (Some "SimpleAttribute"));
   ("a_b", Property (association_end "b" "B" (Some "A") None));
   ("b_o", Property (association_end "o" "A" None None));
   ("a_s", Property (association_end "s" "S" (Some "A") None));
   ("s_o", Property (association_end "o" "A" None None));
   ("as1", Association (Some ["a_b"; "b_o"]));
   ("as2", Association (Some ["a_s"; "s_o"]))].

(** ** The stages before the class definitions *)

(** The generalizations of the input have no cycle: the rank decreases
    from the specific to the general class of every [Generalization]. *)
Definition input_acyclic (all_elements : dict ident element)
    (rank : ident -> nat) : Prop :=
  forall key specific general,
    (key, Generalization (Some specific) (Some general)) ∈ all_elements ->
    (rank general < rank specific)%nat.

(** [generate] up to the class definition pass: lines 361-485. *)
Definition prepare (all_elements : dict ident element) (fuel : nat)
  : M tables :=
  do tb <- build_tables all_elements;
  exec write Header;
  exec for_each (classes tb) (tag_class all_elements fuel);
  ret tb.

(** A class object as the classification loop makes it. *)
Definition fresh_class (o : class_obj) : Prop :=
  c_written o = false /\ generalization o = [] /\ specialization o = [].

(** The class store after the generalizations [edges] were linked:
    nothing is written, and the generalizations and the specializations
    of a class are live classes that an edge gives. *)
Definition wired (edges : list (option ident * option ident))
    (h : gmap string class_obj) : Prop :=
  map_Forall
    (fun c o =>
       c_written o = false
       /\ Forall (fun g => is_Some (h !! g) /\ (Some c, Some g) ∈ edges)
            (generalization o)
       /\ Forall (fun d => is_Some (h !! d) /\ (Some d, Some c) ∈ edges)
            (specialization o)) h.

(** What the tagging of stereotypes leaves unchanged in a class. *)
Definition skeleton (o : class_obj)
  : string * list ident * list ident * bool :=
  (c_name o, generalization o, specialization o, c_written o).

Definition same_graph (h h' : gmap string class_obj) : Prop :=
  forall d, skeleton <$> h' !! d = skeleton <$> h !! d.

(** Relations between the state before and after a run. *)
Definition quiet (s s' : state) : Prop :=
  classes_st s' = classes_st s /\ out s' = out s.

Definition restyled (s s' : state) : Prop :=
  same_graph (classes_st s) (classes_st s').

(** Whatever the state and the outcome, the run of [m] is in the relation
    [R]. *)
Definition framed {A} (R : relation state) (m : M A) : Prop :=
  forall s, R s (final_state (m s)).

(** The invariant of the classification loop (lines 392-428). *)
Definition classified (all_elements : dict ident element) (tb : tables)
    (s : state) : Prop :=
  out s = []
  /\ (forall c, c ∈ classes tb -> is_Some (classes_st s !! c))
  /\ map_Forall (fun _ o => fresh_class o) (classes_st s)
  /\ (forall sp ge, (sp, ge) ∈ generalizations tb ->
                    exists key, (key, Generalization sp ge) ∈ all_elements).

(** The invariant of the linking loop (lines 431-436), for the classes
    [keys] and the generalizations [edges]. *)
Definition linked (keys : list ident)
    (edges : list (option ident * option ident)) (s : state) : Prop :=
  out s = []
  /\ (forall c, c ∈ keys -> is_Some (classes_st s !! c))
  /\ wired edges (classes_st s).

(** [generate] after the class definition pass: lines 496-585. *)
Definition emit_features (ov : Overrides)
    (literal_eval : string -> fault + bool) (int_of_str : string -> option Z)
    (all_elements : dict ident element) (fuel : nat) (tb : tables)
    (ignored_classes : list ident) : M unit :=
  do derivedattributes <- write_attributes ov literal_eval tb ignored_classes;
  do r <- fold_each (associations tb)
            (write_association_ends ov literal_eval int_of_str all_elements tb)
            ([], []);
  exec for_each (properties tb) (link_subsets ignored_classes r.1);
  exec for_each (dict_values derivedattributes)
         (fun d => write_attribute ov literal_eval d []);
  exec for_each (dict_values r.1) (write_derivedunion ov fuel);
  exec for_each r.2
         (fun r =>
            do o <- get_prop r;
            exec msg (Redefining (Py.fmt (redefines o))
                        (Py.fmt (class_name o)) (Py.fmt (name_of o)));
            write_redefine ov r);
  write_operations ov tb ignored_classes.

(** A line that is no class declaration *)
Definition is_feature_line (l : line) : bool := negb (is_class_line l).

(** The end [u] of [empty_union_model] when the derived unions are
    written, and a state that holds it. *)
Definition empty_union_end : prop_obj :=
  with_union (Some [])
    (with_derived (Some 1%Z)
       (with_upper (Some "*")
          (with_lower (PInt 0)
             (with_opposite_class_name (Some "T")
                (with_class_name (Some "A")
                   (new_prop (association_end "u" "T" (Some "A")
                                (Some "1")))))))).

Definition empty_union_state : state :=
  {| out := []; log := []; classes_st := ∅;
     props_st := {[ "a_u" := empty_union_end ]}; resolved := [] |}.

(** The derived end [u] subsets the derived union [v], and no property
    subsets [u]. *)
Definition subsetting_end : property :=
  {| p_name := Some "u"; typeValue := None; defaultValue := None;
     lowerValue := None; upperValue := None; isDerived := Some "1";
     aggregation := None; p_association := Some "assoc"; p_type := Some "T";
     p_class_ := Some "A"; p_appliedStereotype := Some ["inst"] |}.

Definition nested_union_model : dict ident element :=
  [("A", Class (Some "A") None None None);
   ("T", Class (Some "T") None None None);
   ("a_v", Property (association_end "v" "T" (Some "A") (Some "1")));
   ("v_o", Property (association_end "o" "A" None None));
   ("a_u", Property subsetting_end);
   ("u_o", Property (association_end "o" "A" None None));
   ("inst", InstanceSpecification None (Some ["slot"]));
   ("slot", Slot (Some "v") (Some "feature"));
   ("feature", Named (Some "subsets"));
   ("as1", Association (Some ["a_v"; "v_o"]));
   ("as2", Association (Some ["a_u"; "u_o"]))].

(** ** Strings, for the statements *)

(** Every character of [s] satisfies [p]; some character of [s] is [c]. *)
Fixpoint all_chars (p : ascii -> bool) (s : string) : bool :=
  match s with
  | EmptyString => true
  | String c r => p c && all_chars p r
  end.

Fixpoint has_char (c : ascii) (s : string) : bool :=
  match s with
  | EmptyString => false
  | String d r => Ascii.eqb c d || has_char c r
  end.

(** [c] is a character of ASCII text. *)
Definition is_ascii (c : ascii) : bool := (nat_of_ascii c <? 128)%nat.

(** The number of capital letters of [s] *)
Fixpoint capitals (s : string) : nat :=
  match s with
  | EmptyString => 0
  | String c r => (if Py.is_upper c then 1 else 0) + capitals r
  end.

(** [s] is empty or begins with a letter. *)
Definition starts_with_letter (s : string) : bool :=
  match s with
  | EmptyString => true
  | String c _ => is_alpha c
  end.

(** A character that [parse_association_tags] leaves in no subset name *)
Definition is_separator (c : ascii) : bool :=
  Ascii.eqb c " " || Ascii.eqb c "010" || Ascii.eqb c "013"
  || Ascii.eqb c ",".

(** [n] holds no blank, line break or comma. *)
Definition separator_free (n : string) : bool :=
  negb (has_char " " n || has_char "010" n || has_char "013" n
        || has_char "," n).

(** [n] holds no blank or line break. *)
Definition blank_free (n : string) : bool :=
  negb (has_char " " n || has_char "010" n || has_char "013" n).

(** The end [head] after [head.navigable] was set *)
Definition navigable_set (head : ident) (h : prop_obj) (s : state) : state :=
  store_props (<[head := with_navigable (p_class_ (p_src h)) h]> (props_st s))
    s.

(** An end without a name, owned by the class [owner] or by none *)
Definition nameless_end (owner : option ident) : property :=
  {| p_name := None; typeValue := None; defaultValue := None;
     lowerValue := None; upperValue := None; isDerived := None;
     aggregation := None; p_association := Some "assoc"; p_type := Some "T";
     p_class_ := owner; p_appliedStereotype := None |}.

(** The end [a_u] of [nested_union_model] as the association loop finds
    it, with the two classes that it lies between. *)
Definition subsetting_end_state : state :=
  {| out := []; log := [];
     classes_st := {[ "A" := new_class "A" None None None;
                      "T" := new_class "T" None None None ]};
     props_st :=
       {[ "a_u" := with_class_obj (Some "A")
                     (with_type_obj (Some "T") (new_prop subsetting_end)) ]};
     resolved := [] |}.

(** The tags of an end are clean: see [separator_free], [blank_free]. *)
Definition tags_clean (acc : list string * option string) : Prop :=
  Forall (fun n => separator_free n = true) acc.1
  /\ (forall r, acc.2 = Some r -> blank_free r = true).

(** ** The writer, for the statements *)

(** The state [s] after the lines [ls] were written; after the messages
    [ms] were logged. *)
Definition written_lines (ls : list line) (s : state) : state :=
  {| out := out s ++ ls; log := log s; classes_st := classes_st s;
     props_st := props_st s; resolved := resolved s |}.

Definition logged (ms : list message) (s : state) : state :=
  {| out := out s; log := log s ++ ms; classes_st := classes_st s;
     props_st := props_st s; resolved := resolved s |}.

(** A line that holds the text that the registry [ov] has for its key *)
Definition is_registered_override (ov : Overrides) (l : line) : bool :=
  match l with
  | Override key text =>
      has_override ov key && bool_decide (write_override ov key = Some text)
  | _ => false
  end.

(** The line of the association end [h] whose other end is [t] *)
Definition association_line (ov : Overrides) (h t : prop_obj) : line :=
  property_line ov (full_name (class_name h) (name_of h))
    (Dassociation (Py.fmt (name_of h)) (Py.fmt (opposite_class_name h))
       (if lower_is_zero (lower h) then None else Some (lower h))
       (if bool_decide (upper h = Some "*") then None
        else Some (Py.fmt (upper h)))
       (composite h)
       (if Py.truthy_opt (navigable t) then Some (Py.fmt (name_of t))
        else None)).

(** An end that is neither derived nor redefining, and not written yet *)
Definition plain_end (ov : Overrides) (o : prop_obj) : Prop :=
  Py.truthy_opt (redefines o) = false
  /\ truthy_int (derived o) = false
  /\ derives ov (full_name (class_name o) (name_of o)) = false
  /\ p_written o = false.

(** The names of the properties [keys], as [str] prints them *)
Definition literal_names (h : gmap string prop_obj) (keys : list ident)
  : list string :=
  omap (fun k => (fun o => Py.fmt (name_of o)) <$> h !! k) keys.

(** The end [name] of the class [cn] towards the class [opp], with the
    attributes that [parse_association_end] sets *)
Definition parsed_end (name : string) (cn opp : string) : prop_obj :=
  with_navigable (Some cn)
    (with_derived (Some 0%Z)
       (with_upper (Some "*")
          (with_lower (PInt 0)
             (with_opposite_class_name (Some opp)
                (with_class_name (Some cn)
                   (new_prop (association_end name opp (Some cn) None))))))).

Definition two_ends_state : state :=
  {| out := []; log := []; classes_st := ∅;
     props_st := {[ "a_b" := parsed_end "b" "A" "B";
                    "b_a" := parsed_end "a" "B" "A" ]};
     resolved := [] |}.

(** The enumeration [VisibilityKind] with two literals *)
Definition two_literals_state : state :=
  {| out := []; log := []; classes_st := ∅;
     props_st := {[ "l1" := new_prop (plain_property "public" None);
                    "l2" := new_prop (plain_property "private" None) ]};
     resolved := [] |}.

(** The derived end [x] of the class [B], met after a derived end [x] of
    another class was registered as a derived union *)
Definition second_union_state : state :=
  {| out := []; log := []; classes_st := ∅;
     props_st :=
       {[ "b_x" := with_derived (Some 1%Z)
                     (new_prop (association_end "x" "T" (Some "B")
                                  (Some "1"))) ]};
     resolved := [] |}.

(** The end [a_u] of [nested_union_model] with its tags read, before any
    derived union is registered *)
Definition tagged_end_state : state :=
  {| out := []; log := []; classes_st := ∅;
     props_st :=
       {[ "a_u" := with_subsets (Some ["v"; "w"])
                     (with_type_obj (Some "T") (parsed_end "u" "A" "T")) ]};
     resolved := [] |}.

(** ** Derived unions *)

(** The names of the members of a derived union, as [write_derivedunion]
    prints them *)
Definition member_names (h : gmap string prop_obj) (members : list ident)
  : list string :=
  omap (fun u => (fun uo => full_name (class_name uo) (name_of uo))
                   <$> h !! u) members.

(** The line of the derived union [o] with the members [subs] *)
Definition derivedunion_line (ov : Overrides) (o : prop_obj) (subs : string)
  : line :=
  property_line ov (full_name (class_name o) (name_of o))
    (Dderivedunion (Py.fmt (name_of o)) (Py.fmt (opposite_class_name o))
       (lower o) (quoted_upper (upper o)) subs).

(** The member [u] of a derived union is a property object; when it is
    derived and not written yet, it is a derived union itself, of a rank
    below [k]. *)
Definition member_ok (rank : ident -> nat) (h : gmap string prop_obj)
    (k : nat) (u : ident) : bool :=
  match h !! u with
  | Some uo =>
      if truthy_int (derived uo) && negb (p_written uo)
      then bool_decide (is_Some (union uo)) && (rank u <? k)%nat
      else true
  | None => false
  end.

(** The members of the derived unions are live; a member that is
    derived and not written is a derived union itself, with a list of
    members (an end that is derived and redefines has none, and
    [for u in d.union] then faults); and the rank decreases from a
    derived union to these members: no derived union is, through its
    members, a member of itself. *)
Definition unions_closed (rank : ident -> nat) (h : gmap string prop_obj)
  : Prop :=
  map_Forall
    (fun d o => Forall (fun u => member_ok rank h (rank d) u = true)
                  (default [] (union o))) h.

(** The heap [h'] is [h] with the flag [written] set on some properties. *)
Definition props_marked (h h' : gmap string prop_obj) : Prop :=
  forall d, h' !! d = h !! d \/ h' !! d = with_written true <$> h !! d.

(** The member [u] is written unless it is not derived. *)
Definition member_done (h : gmap string prop_obj) (u : ident) : Prop :=
  exists uo, h !! u = Some uo
             /\ (truthy_int (derived uo) = true -> p_written uo = true).

(** The list of the members that the loop of [write_derivedunion] builds
    from [subs] *)
Definition join_onto (subs : string) (names : list string) : string :=
  fold_left (fun subs nm =>
               (if Py.truthy subs then subs +:+ ", " else subs) +:+ nm)
    names subs.

(** What [write_derivedunion] does with [fuel] on a derived union of
    smaller rank *)
Definition write_derivedunion_spec (ov : Overrides) (rank : ident -> nat)
    (fuel : nat) : Prop :=
  forall d o members s,
    unions_closed rank (props_st s) ->
    props_st s !! d = Some o ->
    union o = Some members ->
    (rank d < fuel)%nat ->
    exists s' seg,
      write_derivedunion ov fuel d s = Ok tt s'
      /\ out s' = out s ++ seg
                  ++ [derivedunion_line ov o
                        (String.concat ", "
                           (member_names (props_st s) members))]
      /\ props_marked (props_st s) (props_st s')
      /\ (exists o', props_st s' !! d = Some o' /\ p_written o' = true)
      /\ Forall (member_done (props_st s')) members
      /\ classes_st s' = classes_st s.

(** The derived union [v] of the class [A] with the member [u], a derived
    union without members *)
Definition union_v : prop_obj :=
  with_union (Some ["a_u"])
    (with_derived (Some 1%Z)
       (with_upper (Some "*")
          (with_lower (PInt 0)
             (with_opposite_class_name (Some "T")
                (with_class_name (Some "A")
                   (new_prop (association_end "v" "T" (Some "A")
                                (Some "1")))))))).

Definition nested_union_state : state :=
  {| out := []; log := []; classes_st := ∅;
     props_st := {[ "a_v" := union_v; "a_u" := empty_union_end ]};
     resolved := [] |}.

Definition nested_union_rank (d : ident) : nat :=
  if bool_decide (d = "a_v") then 1 else 0.

(** ** The passes, for the statements *)

Definition follows_header (l : line) : bool := negb (is_header l).

(** Is the class [c] tagged [SimpleAttribute] in the heap [h]? *)
Definition simple_attribute_class (h : gmap string class_obj) (c : ident)
  : Prop :=
  stereotypeName <$> h !! c = Some (Some "SimpleAttribute").

#[export] Instance simple_attribute_class_dec h c :
  Decision (simple_attribute_class h c).
Proof. unfold simple_attribute_class. apply _. Defined.

(** The class [S], tagged [SimpleAttribute], and its specialization [B] *)
Definition simple_base_state : state :=
  {| out := [Header]; log := [];
     classes_st :=
       {[ "S" := set_stereotypeName (Some "SimpleAttribute")
                   (add_specialization "B" (new_class "S" None None None));
          "B" := add_generalization "S" (new_class "B" None None None) ]};
     props_st := ∅; resolved := [] |}.

Definition simple_base_rank (c : ident) : nat :=
  if bool_decide (c = "S") then 0 else 1.

(** ** The tables, for the statements *)

(** A [Class] element with a name that does not end in [Kind] or [Sort];
    one with a name that does. *)
Definition is_class_element (e : element) : bool :=
  match e with
  | Class name _ _ _ =>
      Py.truthy_opt name
      && negb (Py.endswith (Py.fmt name) "Kind"
               || Py.endswith (Py.fmt name) "Sort")
  | _ => false
  end.

Definition is_enumeration_element (e : element) : bool :=
  match e with
  | Class name _ _ _ =>
      Py.truthy_opt name
      && (Py.endswith (Py.fmt name) "Kind"
          || Py.endswith (Py.fmt name) "Sort")
  | _ => false
  end.

(** The elements of a model file by their kind, in the order of the
    file *)
Definition class_keys (l : dict ident element) : list ident :=
  omap (fun kv => if is_class_element kv.2 then Some kv.1 else None) l.

Definition generalization_edges (l : dict ident element)
  : list (option ident * option ident) :=
  omap (fun kv => match kv.2 with
                  | Generalization specific general =>
                      Some (specific, general)
                  | _ => None
                  end) l.

Definition association_ends (l : dict ident element)
  : list (option (list ident)) :=
  omap (fun kv => match kv.2 with
                  | Association memberEnd => Some memberEnd
                  | _ => None
                  end) l.

Definition property_keys (l : dict ident element) : list ident :=
  omap (fun kv => match kv.2 with
                  | Property _ => Some kv.1
                  | _ => None
                  end) l.

Definition extension_ends (l : dict ident element)
  : list (option (list ident)) :=
  omap (fun kv => match kv.2 with
                  | Extension memberEnd => Some memberEnd
                  | _ => None
                  end) l.

(** The enumerations of the table are elements of the file whose name
    ends in [Kind] or [Sort]. *)
Definition enumerations_named (l : dict ident element)
    (enums : dict ident enum_obj) : Prop :=
  forall k en, (k, en) ∈ enums ->
    exists e, (k, e) ∈ l /\ is_enumeration_element e = true
              /\ element_name e = Some (e_name en).

(** The types of the member ends of an extension that are properties
    with a type, in their order *)
Definition extension_types (all_elements : dict ident element)
    (memberEnd : list ident) : list ident :=
  omap (fun end_ => match dict_get all_elements end_ with
                    | Some (Property p) =>
                        if Py.truthy_opt (p_type p) then p_type p else None
                    | _ => None
                    end) memberEnd.

(** A model with the class [A], the enumeration [VisibilityKind], a
    class without a name, and the stereotype [S] that extends the
    metaclass [M] *)
Definition kinds_model : dict ident element :=
  [("A", Class (Some "A") None None None);
   ("K", Class (Some "VisibilityKind") None (Some []) None);
   ("U", Class None None None None);
   ("M", Class (Some "M") None None None);
   ("S", Class (Some "S") None None None);
   ("x_m", Property (association_end "base" "M" None None));
   ("x_s", Property (association_end "ext" "S" None None));
   ("ext", Extension (Some ["x_m"; "x_s"]));
   ("g", Generalization (Some "S") (Some "A"))].

(** The table [tb] is [tb0] with the elements [l] added, each to the
    dictionary of its kind. *)
Definition tables_extend (tb0 : tables) (l : dict ident element)
    (tb : tables) : Prop :=
  classes tb = classes tb0 ++ class_keys l
  /\ generalizations tb = generalizations tb0 ++ generalization_edges l
  /\ associations tb = associations tb0 ++ association_ends l
  /\ properties tb = properties tb0 ++ property_keys l
  /\ extensions tb = extensions tb0 ++ extension_ends l
  /\ forall k en, (k, en) ∈ enumerations tb ->
       (k, en) ∈ enumerations tb0
       \/ exists e, (k, e) ∈ l /\ is_enumeration_element e = true
                    /\ element_name e = Some (e_name en).

(** The property objects of the member ends of the extension of
    [kinds_model] *)
Definition kinds_props_state : state :=
  {| out := []; log := []; classes_st := ∅;
     props_st :=
       {[ "x_m" := new_prop (association_end "base" "M" None None);
          "x_s" := new_prop (association_end "ext" "S" None None) ]};
     resolved := [] |}.

(** Two stereotypes that extend the same metaclass [M] *)
Definition shared_metaclass_model : dict ident element :=
  [("M", Class (Some "M") None None None);
   ("x1", Property (association_end "base" "M" None None));
   ("e1", Extension (Some ["x1"]));
   ("x2", Property (association_end "base" "M" None None));
   ("e2", Extension (Some ["x2"]))].

(** The class [A] specializes the enumeration [VisibilityKind]. *)
Definition enumeration_parent_model : dict ident element :=
  [("A", Class (Some "A") None None None);
   ("K", Class (Some "VisibilityKind") None (Some []) None);
   ("g", Generalization (Some "A") (Some "K"))].

(** The attribute [a] has an applied stereotype that the file does not
    hold. *)
Definition dangling_stereotype : property :=
  {| p_name := Some "a"; typeValue := Some "String"; defaultValue := None;
     lowerValue := None; upperValue := None; isDerived := None;
     aggregation := None; p_association := None; p_type := None;
     p_class_ := None; p_appliedStereotype := Some ["missing"] |}.

Definition dangling_stereotype_model : dict ident element :=
  [("A", Class (Some "A") None (Some ["a"]) None);
   ("a", Property dangling_stereotype)].

(** Whatever the state, a fault of [m] satisfies [P]. *)
Definition faults_only {A} (P : fault -> Prop) (m : M A) : Prop :=
  forall s f s', m s = Err f s' -> P f.

(** The classes [keys] are objects of the state [s]. *)
Definition classes_live (keys : list ident) (s : state) : Prop :=
  forall c, c ∈ keys -> is_Some (classes_st s !! c).

(** ** Class lines, for the statements *)

(** The names of the classes [l] *)
Definition base_names (h : gmap string class_obj) (l : list ident)
  : list string :=
  omap (fun g => c_name <$> h !! g) l.

(** The declaration of the class [c] with the bases [bases] *)
Definition class_line (ov : Overrides) (c : ident) (o : class_obj)
    (bases : string) : line :=
  match write_override ov (c_name o) with
  | Some text => ClassOverride c (c_name o) text
  | None => ClassDef c (c_name o) bases
  end.

(** The class store of [s'] is that of [s] with the flag [written] set on
    some classes. *)
Definition marked_st (s s' : state) : Prop :=
  marked (classes_st s) (classes_st s').

(** ** The members of the derived unions, for the statements *)

(** What the name [n] among the subsets of the end [a] of type [t] adds
    to the members of the derived union [d] *)
Definition end_links (ignored : list ident)
    (du : dict (option string) ident) (a t : ident) (n : string)
    (d : ident) : list ident :=
  if bool_decide (t ∉ ignored) then
    match dict_get du (Some n) with
    | Some d0 => if bool_decide (d0 = d) then [a] else []
    | None => []
    end
  else [].

(** What the ends [props] add to the members of the derived union [d]:
    each end once for each of its subsets that names [d], in the order
    of [props]. *)
Definition new_members (ignored : list ident)
    (du : dict (option string) ident) (h : gmap string prop_obj)
    (props : list ident) (d : ident) : list ident :=
  flat_map
    (fun a =>
       match h !! a with
       | Some o =>
           match type_obj o with
           | Some t =>
               flat_map (fun n => end_links ignored du a t n d)
                 (default [] (subsets o))
           | None => []
           end
       | None => []
       end) props.

(** The heap [h'] is [h] with the members [f d] added to each derived
    union [d]. *)
Definition grown (f : ident -> list ident) (h h' : gmap string prop_obj)
  : Prop :=
  forall d,
    h' !! d
    = (fun od => with_union ((fun m => m ++ f d) <$> union od) od) <$> h !! d.

(** The ends [props] are property objects, with a type when they have
    subsets, and the derived unions [du] are property objects with a
    list of members. *)
Definition links_ready (du : dict (option string) ident)
    (props : list ident) (h : gmap string prop_obj) : Prop :=
  Forall (fun a => exists o, h !! a = Some o
                             /\ (default [] (subsets o) = []
                                 \/ is_Some (type_obj o))) props
  /\ Forall (fun nd => exists od, h !! nd.2 = Some od
                                  /\ is_Some (union od)) du.

(** The derived union [v] without members, the end [u] that subsets it
    and the end [w] that subsets it too *)
Definition subsetting_state : state :=
  {| out := []; log := []; classes_st := ∅;
     props_st :=
       {[ "a_v" := with_union (Some [])
                     (with_type_obj (Some "T") (parsed_end "v" "A" "T"));
          "a_u" := with_subsets (Some ["v"])
                     (with_type_obj (Some "T") (parsed_end "u" "A" "T"));
          "a_w" := with_subsets (Some ["v"; "x"])
                     (with_type_obj (Some "T") (parsed_end "w" "A" "T")) ]};
     resolved := [] |}.

(** * Properties *)

(** ** Reasoning about runs *)

Lemma bind_ok {A B} (m : M A) (k : A -> M B) s a s' :
  m s = Ok a s' -> bind m k s = k a s'.
Proof. unfold bind. by intros ->. Qed.

Lemma bind_err {A B} (m : M A) (k : A -> M B) s f s' :
  m s = Err f s' -> bind m k s = Err f s'.
Proof. unfold bind. by intros ->. Qed.

Lemma get_prop_ok p o s : props_st s !! p = Some o -> get_prop p s = Ok o s.
Proof. unfold get_prop. by intros ->. Qed.

Lemma get_class_ok c o s :
  classes_st s !! c = Some o -> get_class c s = Ok o s.
Proof. unfold get_class. by intros ->. Qed.

(** ** The attribute emitter *)

(** C10: an attribute without a type makes [write_attribute] raise
    [ValueError] at once: nothing is written or logged, and the override
    registry [ov] is not consulted, whatever it holds for the attribute. *)
Theorem write_attribute_no_type ov lit a enums o s :
  props_st s !! a = Some o ->
  typeValue_of o = None ->
  write_attribute ov lit a enums s
  = Err (ValueError ("ERROR! type is not specified for property "
                     +:+ full_name (class_name o) (name_of o))) s.
Proof.
  intros Ha Hty. unfold write_attribute.
  rewrite (bind_ok _ _ _ _ _ (get_prop_ok _ _ _ Ha)).
  by rewrite Hty.
Qed.

Lemma write_attribute_no_type_witness :
  write_attribute (one_override "A.x" "A.x = 1") flag_literal "x" []
    (one_prop_state "x" "A" (plain_property "x" None))
  = Err (ValueError "ERROR! type is not specified for property A.x")
      (one_prop_state "x" "A" (plain_property "x" None)).
Proof.
  apply (write_attribute_no_type (one_override "A.x" "A.x = 1") flag_literal
           "x" [] (with_class_name (Some "A")
                     (new_prop (plain_property "x" None)))).
  - reflexivity.
  - reflexivity.
Defined.

(** The run of [generate] on a model whose attribute [A.x] has no type
    stops with that fault although the registry overrides [A.x]. *)
Example typeless_attribute_aborts :
  fault_of (generate (one_override "A.x" "A.x = 1") flag_literal flag_int
              typeless_attribute_model 5 init_state)
  = Some (ValueError "ERROR! type is not specified for property A.x").
Proof. vm_compute. done. Qed.

(** C6, as the code has it: with no matching enumeration the run aborts
    with [IndexError]; with one or more, the first match in the order of
    the enumeration table is taken without any fault, and its literals are
    emitted with the declared default or, failing that, its first literal
    (none: [IndexError]). *)
Theorem write_attribute_enumeration ov lit a enums o type s :
  props_st s !! a = Some o ->
  typeValue_of o = Some type ->
  enumeration_typed type = true ->
  has_override ov (full_name (class_name o) (name_of o)) = false ->
  lit (Py.or_else (isDerived (p_src o)) "0") = inr false ->
  write_attribute ov lit a enums s
  = match filter (fun e => e_name e = map_type type) (dict_values enums) with
    | [] => Err IndexError s
    | e :: _ =>
        match enumeration_default (map_default (defaultValue (p_src o))) e with
        | Some d =>
            write_property ov (full_name (class_name o) (name_of o))
              (Denumeration (Py.fmt (name_of o)) (enumerates e) d) s
        | None => Err IndexError s
        end
    end.
Proof.
  intros Ha Hty Hk Hov Hd. unfold write_attribute.
  rewrite (bind_ok _ _ _ _ _ (get_prop_ok _ _ _ Ha)).
  rewrite Hty, Hov. unfold bind at 1. rewrite Hd. cbn [lift_sum ret].
  unfold enumeration_typed in Hk. rewrite Hk.
  destruct (filter _ _) as [|e l]; [done|].
  unfold enumeration_default.
  destruct (Py.truthy_opt (map_default (defaultValue (p_src o)))) eqn:Hdef.
  - destruct (map_default (defaultValue (p_src o))); [done|discriminate].
  - destruct (enumerates e); done.
Qed.

Lemma write_attribute_enumeration_witness :
  write_attribute no_overrides flag_literal "k" two_enumerations
    (one_prop_state "k" "C" kind_attribute)
  = write_property no_overrides "C.k" (Denumeration "k" ["x"; "y"] "x")
      (one_prop_state "k" "C" kind_attribute).
Proof.
  apply (write_attribute_enumeration no_overrides flag_literal "k"
           two_enumerations
           (with_class_name (Some "C") (new_prop kind_attribute)) "FooKind").
  - reflexivity.
  - reflexivity.
  - reflexivity.
  - reflexivity.
  - reflexivity.
Defined.

(** C6 fails as stated: two enumerations of the model are named
    [FooKind]; the run ends normally, and the attribute [C.k] of that type
    is emitted with the literals of the first one. *)
Lemma enumeration_two_matches_no_fault :
  let r := generate no_overrides flag_literal flag_int
             two_enumerations_model 5 init_state in
  succeeded r = true
  /\ out (final_state r)
     = [Header; ClassDef "C" "C" "";
        Assign "C.k" (Denumeration "k" ["x"; "y"] "x")].
Proof. vm_compute. done. Qed.

(** ** Multiplicity parameters *)

Lemma reparse_attribute_params (o : prop_obj) :
  upperValue (p_src o) ≠ Some "'*'" ->
  reparse_multiplicity (attribute_params o) = declared_multiplicity (p_src o).
Proof.
  intros Hq. unfold attribute_params, declared_multiplicity,
    reparse_multiplicity, lower_param, upper_param, Py.or_else.
  destruct (map_default _) as [d|];
    destruct (lowerValue (p_src o)) as [l|];
    destruct (upperValue (p_src o)) as [u|]; cbn;
    repeat match goal with
      | |- context [Py.truthy ?x] => destruct (Py.truthy x) eqn:?; cbn
      | |- context [String.eqb ?x ?y] =>
          destruct (String.eqb_spec x y); subst; cbn
      | |- context [decide (?x = ?y)] => destruct (decide (x = y)); cbn
      end; try done; try congruence.
Qed.

(** C9, as the code has it: the [lower] and [upper] parameters of an
    attribute descriptor that [write_attribute] emits read back as the
    declared bounds under the defaults of attributes (no lower bound is 0,
    no upper bound is 1), for a declared upper bound other than the
    quoted star.  The rule of association ends is not the one applied. *)
Theorem attribute_multiplicity_roundtrip ov lit a enums o s s' key n t params :
  props_st s !! a = Some o ->
  upperValue (p_src o) ≠ Some "'*'" ->
  write_attribute ov lit a enums s = Ok tt s' ->
  out s' = out s ++ [Assign key (Dattribute n t params)] ->
  reparse_multiplicity params = declared_multiplicity (p_src o).
Proof.
  intros Ha Hq Hrun Hout.
  rewrite <- (reparse_attribute_params o Hq). f_equal.
  unfold write_attribute in Hrun.
  rewrite (bind_ok _ _ _ _ _ (get_prop_ok _ _ _ Ha)) in Hrun.
  destruct (typeValue_of o) as [type|]; [|done].
  destruct (has_override ov _).
  { destruct (write_override ov _); cbn in Hrun; injection Hrun as <-;
      cbn in Hout.
    - apply app_inv_head in Hout. done.
    - rewrite <- (app_nil_r (out s)) in Hout at 1.
      apply app_inv_head in Hout. done. }
  unfold bind in Hrun at 1.
  destruct (lit _) as [f|[]]; cbn in Hrun; [done| |].
  { injection Hrun as <-. cbn in Hout.
    rewrite <- (app_nil_r (out s)) in Hout at 1.
    apply app_inv_head in Hout. done. }
  destruct (_ || _).
  - destruct (filter _ _) as [|e l]; [done|].
    unfold bind in Hrun.
    destruct (Py.truthy_opt _); cbn in Hrun.
    + unfold write_property in Hrun.
      destruct (write_override ov _); cbn in Hrun; injection Hrun as <-;
        cbn in Hout; apply app_inv_head in Hout; done.
    + destruct (head (enumerates e)); cbn in Hrun; [|done].
      unfold write_property in Hrun.
      destruct (write_override ov _); cbn in Hrun; injection Hrun as <-;
        cbn in Hout; apply app_inv_head in Hout; done.
  - unfold write_property in Hrun.
    destruct (write_override ov _); cbn in Hrun; injection Hrun as <-;
      cbn in Hout; apply app_inv_head in Hout; [done|].
    by injection Hout as _ _ _ <-.
Qed.

Lemma attribute_multiplicity_roundtrip_witness :
  reparse_multiplicity [("upper", "5")]
  = declared_multiplicity bounded_attribute.
Proof.
  apply (attribute_multiplicity_roundtrip no_overrides flag_literal "n" []
           (with_class_name (Some "A") (new_prop bounded_attribute))
           (one_prop_state "n" "A" bounded_attribute)
           {| out := [Assign "A.n" (Dattribute "n" "str" [("upper", "5")])];
              log := []; classes_st := ∅;
              props_st := props_st (one_prop_state "n" "A" bounded_attribute);
              resolved := [] |}
           "A.n" "n" "str").
  - reflexivity.
  - discriminate.
  - reflexivity.
  - reflexivity.
Defined.

(** C9 fails as stated: the attribute [A.n] declares the upper bound 5 and
    no lower bound.  Its descriptor carries [upper=5] alone, which reads
    back as 0..5, while the rule that lets [lower] default to [upper]
    gives 5..5. *)
Lemma attribute_roundtrip_not_end_rule :
  write_attribute no_overrides flag_literal "n" []
    (one_prop_state "n" "A" bounded_attribute)
  = Ok tt {| out := [Assign "A.n" (Dattribute "n" "str" [("upper", "5")])];
             log := []; classes_st := ∅;
             props_st := props_st (one_prop_state "n" "A" bounded_attribute);
             resolved := [] |}
  /\ reparse_multiplicity [("upper", "5")] = ("0", "5")
  /\ end_rule_multiplicity bounded_attribute = ("5", "5")
  /\ reparse_multiplicity [("upper", "5")]
     ≠ end_rule_multiplicity bounded_attribute.
Proof. repeat split; try reflexivity. discriminate. Qed.

(** ** Derived attributes *)

(** C2, as the code has it: a typed attribute whose derived flag is true
    and for which the registry has neither an override nor a derivation is
    logged as ignored and nothing else: no line is written for it, and it
    is not recorded in [derivedattributes], so that the deferred pass does
    not see it. *)
Theorem derived_attribute_ignored ov lit tb cn da p o s :
  p ∈ properties tb ->
  props_st s !! p = Some o ->
  Py.truthy_opt (p_association (p_src o)) = false ->
  typeValue_of o ≠ None ->
  has_override ov (full_name (Some cn) (name_of o)) = false ->
  derives ov (full_name (Some cn) (name_of o)) = false ->
  lit (Py.or_else (isDerived (p_src o)) "0") = inr true ->
  exists s',
    emit_attribute ov lit tb cn da p s = Ok da s'
    /\ out s' = out s
    /\ log s' = log s ++ [IgnoringDerived cn (Py.fmt (name_of o))].
Proof.
  intros Hin Hp Hassoc Hty Hov Hder Hlit.
  unfold emit_attribute. rewrite bool_decide_eq_true_2 by done.
  unfold update_prop, bind at 1 2.
  rewrite (get_prop_ok _ _ _ Hp). cbn [put_prop].
  unfold bind at 1, get_prop at 1. cbn [props_st].
  rewrite lookup_insert_eq.
  unfold write_attribute, bind at 1, get_prop.
  destruct o; unfold name_of, typeValue_of in *; cbn in *.
  rewrite Hassoc, Hder. cbn. unfold bind at 1. cbn.
  rewrite lookup_insert_eq. unfold typeValue_of, name_of. cbn.
  destruct set_typeValue0 as [t|]; [|destruct (typeValue p_src0); [|done]];
    rewrite Hov; unfold bind; rewrite Hlit; cbn;
    (eexists; split; [reflexivity|done]).
Qed.

Lemma derived_attribute_ignored_witness :
  exists s',
    emit_attribute no_overrides flag_literal
      {| classes := ["A"]; enumerations := []; generalizations := [];
         associations := []; properties := ["x"]; operations := [];
         extensions := [] |} "A" [] "x"
      (one_prop_state "x" "A" derived_attribute) = Ok [] s'
    /\ out s' = []
    /\ log s' = [IgnoringDerived "A" "x"].
Proof.
  apply (derived_attribute_ignored no_overrides flag_literal _ "A" [] "x"
           (with_class_name (Some "A") (new_prop derived_attribute))
           (one_prop_state "x" "A" derived_attribute)).
  - cbn. apply list_elem_of_here.
  - reflexivity.
  - reflexivity.
  - discriminate.
  - reflexivity.
  - reflexivity.
  - reflexivity.
Defined.

(** C2 fails as stated: the derived attribute [A.x] has no override, the
    whole run writes the header and the class alone, and the attribute is
    only logged; the deferred pass emits nothing for it. *)
Lemma derived_attribute_never_emitted :
  let r := generate no_overrides flag_literal flag_int
             derived_attribute_model 5 init_state in
  succeeded r = true
  /\ out (final_state r) = [Header; ClassDef "A" "A" ""]
  /\ log (final_state r) = [IgnoringDerived "A" "x"].
Proof. vm_compute. done. Qed.

(** ** Association ends *)

Lemma update_prop_ok p f o s :
  props_st s !! p = Some o ->
  update_prop p f s
  = Ok tt {| out := out s; log := log s; classes_st := classes_st s;
             props_st := <[p := f o]> (props_st s);
             resolved := resolved s |}.
Proof.
  intros H. unfold update_prop.
  by rewrite (bind_ok _ _ _ _ _ (get_prop_ok _ _ _ H)).
Qed.

(** C7, as the code has it: an end that is derived (or that the registry
    derives) and does not redefine is registered under its feature name,
    and the registration asserts that the name is free: a second derived
    end of the same name, in whatever class, stops the run with
    [AssertionError]. *)
Theorem duplicate_derived_union_rejected
    ov lit tb e1 e2 derivedunions redefines_ o1 d s :
  props_st s !! e1 = Some o1 ->
  Py.truthy_opt (redefines o1) = false ->
  truthy_int (derived o1)
  || derives ov (full_name (class_name o1) (name_of o1)) = true ->
  dict_get derivedunions (name_of o1) = Some d ->
  route_end ov lit tb None e1 e2 (derivedunions, redefines_) s
  = Err AssertionError s.
Proof.
  intros Hp Hr Hd Hin. unfold route_end.
  rewrite (bind_ok _ _ _ _ _ (get_prop_ok _ _ _ Hp)).
  rewrite Hr, Hd. cbn [fst]. rewrite Hin.
  rewrite bool_decide_eq_true_2 by eauto. done.
Qed.

Lemma duplicate_derived_union_rejected_witness :
  route_end no_overrides flag_literal no_tables None "b_x" "b_o"
    ([(Some "x", "a_x")], [])
    {| out := []; log := []; classes_st := ∅;
       props_st :=
         {[ "b_x" := with_derived (Some 1%Z)
                       (new_prop (association_end "x" "T" (Some "B")
                                    (Some "1"))) ]};
       resolved := [] |}
  = Err AssertionError
      {| out := []; log := []; classes_st := ∅;
         props_st :=
           {[ "b_x" := with_derived (Some 1%Z)
                         (new_prop (association_end "x" "T" (Some "B")
                                      (Some "1"))) ]};
         resolved := [] |}.
Proof.
  apply (duplicate_derived_union_rejected no_overrides flag_literal no_tables
           "b_x" "b_o" [(Some "x", "a_x")] []
           (with_derived (Some 1%Z)
              (new_prop (association_end "x" "T" (Some "B") (Some "1"))))
           "a_x").
  - reflexivity.
  - reflexivity.
  - reflexivity.
  - reflexivity.
Defined.

(** C7 fails as stated: the classes [A] and [B] are unrelated and each has
    a derived end named [x]; the run stops at the assertion when the
    second one is registered, after the class definitions. *)
Lemma colliding_unions_abort :
  let r := generate no_overrides flag_literal flag_int
             colliding_unions_model 5 init_state in
  fault_of r = Some AssertionError
  /\ out (final_state r)
     = [Header; ClassDef "A" "A" ""; ClassDef "B" "B" ""; ClassDef "T" "T" ""].
Proof. vm_compute. done. Qed.

(** ** Derived unions *)

(** What [write_derivedunion] does on a derived union whose member list
    is empty: it does not fault and emits one line, the descriptor without
    members or the text of the override.  Its docstring promises the
    warning whenever there are no subsets; the code logs it only when the
    registry has no override for the union. *)
Theorem write_derivedunion_empty ov fuel d o s :
  props_st s !! d = Some o ->
  union o = Some [] ->
  let full := full_name (class_name o) (name_of o) in
  write_derivedunion ov (S fuel) d s
  = Ok tt {| out := out s
               ++ [property_line ov full
                     (Dderivedunion (Py.fmt (name_of o))
                        (Py.fmt (opposite_class_name o)) (lower o)
                        (quoted_upper (upper o)) "")];
             log := log s
               ++ (if has_override ov full then []
                   else [NoSubsets (Py.fmt (class_name o))
                           (Py.fmt (name_of o)) (lower o)
                           (Py.fmt (upper o))]);
             classes_st := classes_st s;
             props_st := <[d := with_written true o]> (props_st s);
             resolved := resolved s |}.
Proof.
  intros Hp Hu full. cbn [write_derivedunion].
  unfold bind, get_prop, update_prop, write_property, property_line.
  rewrite Hp, Hu. cbn [from_option ret fold_each]. rewrite Hp.
  cbn [Py.truthy String.eqb negb]. fold full.
  destruct (has_override ov full); cbn [negb];
    destruct (write_override ov full); unfold bind, get_prop; cbn;
    rewrite Hp, ?app_nil_r; reflexivity.
Qed.

Lemma write_derivedunion_empty_witness :
  write_derivedunion no_overrides 1 "a_u" empty_union_state
  = Ok tt (store_props
             (<["a_u" := with_written true empty_union_end]>
                (props_st empty_union_state))
             (emit [Assign "A.u" (Dderivedunion "u" "T" (PInt 0) "'*'" "")]
                [NoSubsets "A" "u" (PInt 0) "*"] empty_union_state)).
Proof.
  apply (write_derivedunion_empty no_overrides 0 "a_u" empty_union_end).
  - reflexivity.
  - reflexivity.
Defined.

(** C8, a defect of the code: the derived union [A.u] has no member and
    the registry overrides it; the run ends normally and writes one line
    for the union, the text of the override, but logs no warning, against
    the docstring of [write_derivedunion] ("If there are no subsets a
    warning is issued"): the test of [has_override] in line 252 suppresses
    it. *)
Lemma overridden_empty_union_no_warning :
  let r := generate (one_override "A.u" "A.u = derived()")
             flag_literal flag_int empty_union_model 5 init_state in
  succeeded r = true
  /\ out (final_state r)
     = [Header; ClassDef "A" "A" ""; ClassDef "T" "T" "";
        Override "A.u" "A.u = derived()"]
  /\ log (final_state r) = [].
Proof. vm_compute. done. Qed.

(** A second defect on empty unions: the loop of [generate] over the
    derived unions (line 571) calls [write_derivedunion] on each of them
    without the test of [written] that the recursion has (line 234): the
    empty union [A.u] is written as a member of [A.v] and once more on
    its own turn, with two descriptor lines and two warnings. *)
Example nested_empty_union_written_twice :
  let r := generate no_overrides flag_literal flag_int nested_union_model 5
             init_state in
  succeeded r = true
  /\ out (final_state r)
     = [Header; ClassDef "A" "A" ""; ClassDef "T" "T" "";
        Assign "A.u" (Dderivedunion "u" "T" (PInt 0) "'*'" "");
        Assign "A.v" (Dderivedunion "v" "T" (PInt 0) "'*'" "A.u");
        Assign "A.u" (Dderivedunion "u" "T" (PInt 0) "'*'" "")]
  /\ log (final_state r)
     = [Scanning "subsets" "v"; NoSubsets "A" "u" (PInt 0) "*";
        NoSubsets "A" "u" (PInt 0) "*"].
Proof. vm_compute. done. Qed.

(** ** Simple attributes *)

Lemma write_attribute_str ov lit a enums o cn b s :
  props_st s !! a = Some o ->
  typeValue_of o = Some "str" ->
  class_name o = Some cn ->
  lit (Py.or_else (isDerived (p_src o)) "0") = inr b ->
  write_attribute ov lit a enums s
  = Ok tt (emit (folded_lines ov b cn o) (folded_log ov b cn o) s).
Proof.
  intros Hp Hty Hcn Hlit. unfold write_attribute.
  rewrite (bind_ok _ _ _ _ _ (get_prop_ok _ _ _ Hp)).
  rewrite Hty, Hcn. unfold folded_lines, folded_log, emit.
  destruct (has_override ov _).
  { destruct (write_override ov _); unfold write, ret;
      rewrite ?app_nil_r; try done. by destruct s. }
  unfold bind. rewrite Hlit. cbn [lift_sum ret].
  destruct b.
  { unfold msg. by rewrite app_nil_r. }
  change (Py.endswith (map_type "str") "Kind"
          || Py.endswith (map_type "str") "Sort") with false.
  cbn match. unfold write_property, property_line.
  change (map_type "str") with "str".
  destruct (write_override ov _); unfold write; rewrite ?app_nil_r; done.
Qed.

(** A turn of the routing loop on an association that has a simple
    attribute does nothing unless it is the turn of that end and the end
    is navigable. *)
Lemma route_end_skip ov lit tb sa e1 e2 acc s o1 :
  props_st s !! e1 = Some o1 ->
  bool_decide (sa = e1) && Py.truthy_opt (navigable o1) = false ->
  route_end ov lit tb (Some sa) e1 e2 acc s = Ok acc s.
Proof.
  intros Hp Hc. unfold route_end.
  rewrite (bind_ok _ _ _ _ _ (get_prop_ok _ _ _ Hp)). by rewrite Hc.
Qed.

Lemma route_end_fold ov lit tb e1 e2 acc s o1 o2 t2 to2 b :
  e1 ≠ e2 ->
  props_st s !! e1 = Some o1 ->
  Py.truthy_opt (navigable o1) = true ->
  props_st s !! e2 = Some o2 ->
  type_obj o2 = Some t2 ->
  classes_st s !! t2 = Some to2 ->
  lit (Py.or_else (isDerived (p_src o1)) "0") = inr b ->
  route_end ov lit tb (Some e1) e1 e2 acc s
  = Ok acc (folded_state ov b e1 e2 o1 o2 (c_name to2) s).
Proof.
  intros Hne Hp1 Hnav Hp2 Hty Hc Hlit. unfold route_end.
  rewrite (bind_ok _ _ _ _ _ (get_prop_ok _ _ _ Hp1)).
  rewrite bool_decide_eq_true_2, Hnav by done. cbn [andb].
  rewrite (bind_ok _ _ _ _ _ (get_prop_ok _ _ _ Hp2)).
  rewrite Hty. cbn [from_option]. unfold bind at 1. cbn [ret].
  rewrite (bind_ok _ _ _ _ _ (get_class_ok _ _ _ Hc)).
  unfold bind at 1. cbn [write].
  set (cn := c_name to2).
  erewrite bind_ok; [|by apply update_prop_ok].
  erewrite bind_ok; [|apply update_prop_ok; cbn [props_st];
                      by rewrite lookup_insert_eq].
  cbn [out log classes_st props_st resolved].
  erewrite bind_ok;
    [|eapply (write_attribute_str ov lit e1 _ _ cn b);
      [cbn [props_st]; by rewrite lookup_insert_eq|done|done|exact Hlit]].
  unfold emit at 1. cbn [out log classes_st props_st resolved].
  erewrite bind_ok; [|apply update_prop_ok; cbn [props_st];
                      by rewrite lookup_insert_eq].
  cbn [out log classes_st props_st resolved].
  erewrite bind_ok; [|apply update_prop_ok; cbn [props_st];
                      by rewrite lookup_insert_ne, !lookup_insert_ne].
  cbn [out log classes_st props_st resolved ret].
  unfold folded_state, store_props, emit.
  cbn [out log classes_st props_st resolved].
  rewrite !insert_insert_eq, <- !app_assoc. cbn [app].
  unfold folded_lines, folded_log. cbn [name_of p_src with_typeValue
    with_class_name attribute_params]. reflexivity.
Qed.

(** [asAttribute] is the last member end whose type carries the tag
    [SimpleAttribute]. *)
Lemma resolve_end_asAttribute tb acc e r s s' :
  resolve_end tb acc e s = Ok r s' ->
  exists o t to,
    props_st s !! e = Some o /\ p_type (p_src o) = Some t
    /\ classes_st s !! t = Some to
    /\ r.1 = (if bool_decide (stereotypeName to = Some "SimpleAttribute")
              then Some e else acc.1)
    /\ r.2 = acc.2 ++ [e].
Proof.
  unfold resolve_end, item. intros H.
  destruct (bool_decide (e ∈ properties tb)); [|done].
  unfold bind at 1 in H. cbn [ret] in H.
  unfold bind at 1, get_prop at 1 in H.
  destruct (props_st s !! e) as [o|] eqn:Hp; [|done].
  destruct (p_type (p_src o)) as [t|] eqn:Ht; [|done].
  destruct (bool_decide (t ∈ classes tb)); [|done].
  unfold bind at 1 in H. cbn [ret] in H.
  rewrite (bind_ok _ _ _ _ _ (update_prop_ok _ _ _ _ Hp)) in H.
  match type of H with
  | bind ?m _ ?st = _ =>
      destruct (m st) as [[] s1|] eqn:H1;
      [|by rewrite (bind_err _ _ _ _ _ H1) in H]
  end.
  rewrite (bind_ok _ _ _ _ _ H1) in H.
  assert (classes_st s1 = classes_st s /\ is_Some (props_st s1 !! e))
    as [Hcl [o1 Hp1]].
  { destruct (Py.truthy_opt _).
    - unfold bind at 1 in H1.
      destruct (p_class_ (p_src o)) as [c|]; [|done]. cbn [item] in H1.
      destruct (bool_decide (c ∈ classes tb)); [|done]. cbn [ret] in H1.
      erewrite update_prop_ok in H1
        by (cbn [props_st]; by rewrite lookup_insert_eq).
      injection H1 as <-. cbn. by rewrite lookup_insert_eq.
    - erewrite update_prop_ok in H1
        by (cbn [props_st]; by rewrite lookup_insert_eq).
      injection H1 as <-. cbn. by rewrite lookup_insert_eq. }
  rewrite (bind_ok _ _ _ _ _ (update_prop_ok _ _ _ _ Hp1)) in H.
  unfold bind at 1, get_class at 1 in H. cbn [classes_st] in H.
  rewrite Hcl in H.
  destruct (classes_st s !! t) as [to|] eqn:Hto; [|done].
  exists o, t, to. repeat split; try done.
  - destruct (bool_decide _).
    + unfold bind in H. destruct (update_prop _ _ _); [|done].
      by injection H as <- _.
    + by injection H as <- _.
  - destruct (bool_decide _).
    + unfold bind in H. destruct (update_prop _ _ _); [|done].
      by injection H as <- _.
    + by injection H as <- _.
Qed.

(** With a simple attribute that is not navigable, both turns do
    nothing. *)
Lemma simple_attribute_not_navigable ov lit tb sa e0 e1 acc s o0 o1 osa :
  props_st s !! e0 = Some o0 ->
  props_st s !! e1 = Some o1 ->
  props_st s !! sa = Some osa ->
  Py.truthy_opt (navigable osa) = false ->
  route_ends ov lit tb (Some sa) e0 e1 acc s = Ok acc s.
Proof.
  intros H0 H1 Hsa Hnav. unfold route_ends.
  assert (forall e o, props_st s !! e = Some o ->
            bool_decide (sa = e) && Py.truthy_opt (navigable o) = false)
    as Hskip.
  { intros e o He. case_bool_decide; [|done]. simplify_eq. by rewrite Hnav. }
  erewrite bind_ok; eapply route_end_skip; eauto.
Qed.

(** C4, as the code has it: let the end [sa] of an association be the
    simple attribute (its type carries the tag).  No turn of the routing
    loop registers a derived union or a redefinition or writes an
    association descriptor.  If [sa] is navigable, the loop writes the
    comment and passes [sa] itself, as an attribute of type [str] of the
    class that is the type of the other end, to [write_attribute], and
    both ends are marked written; if [sa] is not navigable, the loop
    changes nothing. *)
Theorem simple_attribute_fold
    ov lit tb sa other e0 e1 acc s o1 o2 t2 to2 b :
  (e0 = sa /\ e1 = other) \/ (e0 = other /\ e1 = sa) ->
  sa ≠ other ->
  props_st s !! sa = Some o1 ->
  props_st s !! other = Some o2 ->
  type_obj o2 = Some t2 ->
  classes_st s !! t2 = Some to2 ->
  lit (Py.or_else (isDerived (p_src o1)) "0") = inr b ->
  route_ends ov lit tb (Some sa) e0 e1 acc s
  = Ok acc (if Py.truthy_opt (navigable o1)
            then folded_state ov b sa other o1 o2 (c_name to2) s
            else s).
Proof.
  intros Hends Hne Hp1 Hp2 Hty Hc Hlit.
  destruct (Py.truthy_opt (navigable o1)) eqn:Hnav.
  - destruct Hends as [[-> ->]|[-> ->]]; unfold route_ends.
    + erewrite bind_ok; [|by eapply route_end_fold].
      eapply route_end_skip.
      * unfold folded_state, store_props. cbn [props_st].
        by rewrite lookup_insert_eq.
      * by rewrite bool_decide_eq_false_2.
    + erewrite bind_ok; [|eapply route_end_skip; [done|]].
      * by eapply route_end_fold.
      * by rewrite bool_decide_eq_false_2.
  - destruct Hends as [[-> ->]|[-> ->]];
      by eapply simple_attribute_not_navigable.
Qed.

Lemma simple_attribute_fold_witness :
  route_ends no_overrides flag_literal no_tables (Some "e_s") "e_s" "e_a"
    ([], []) simple_end_state
  = Ok ([], [])
      (folded_state no_overrides false "e_s" "e_a"
         (with_navigable (Some "A")
            (new_prop (association_end "s" "S" (Some "A") None)))
         (with_type_obj (Some "A")
            (new_prop (association_end "a" "A" None None)))
         "A" simple_end_state).
Proof.
  apply (simple_attribute_fold no_overrides flag_literal no_tables
           "e_s" "e_a" "e_s" "e_a" ([], []) simple_end_state
           (with_navigable (Some "A")
              (new_prop (association_end "s" "S" (Some "A") None)))
           (with_type_obj (Some "A")
              (new_prop (association_end "a" "A" None None)))
           "A" (new_class "A" None None None) false).
  - left. split; reflexivity.
  - discriminate.
  - reflexivity.
  - reflexivity.
  - reflexivity.
  - reflexivity.
  - reflexivity.
Defined.

(** C4 fails as stated: the type [S] of the end [s] carries the tag
    [SimpleAttribute], and [s] has no owning class.  The run ends normally;
    it writes no attribute, and neither end is marked written. *)
Lemma unowned_simple_end_not_folded :
  let r := generate no_overrides flag_literal flag_int
             unowned_simple_end_model 5 init_state in
  succeeded r = true
  /\ out (final_state r)
     = [Header; Stereotyped "S" "S" (Some "SimpleAttribute") false;
        ClassDef "A" "A" ""]
  /\ p_written <$> props_st (final_state r) !! "e_s" = Some false
  /\ p_written <$> props_st (final_state r) !! "e_a" = Some false.
Proof. vm_compute. done. Qed.

(** ** Stereotype propagation *)

Lemma retag_refl tag h : retag tag h h.
Proof. intros d. by left. Qed.

Lemma set_stereotypeName_twice tag o :
  set_stereotypeName tag (set_stereotypeName tag o) = set_stereotypeName tag o.
Proof. reflexivity. Qed.

Lemma retag_trans tag h1 h2 h3 :
  retag tag h1 h2 -> retag tag h2 h3 -> retag tag h1 h3.
Proof.
  intros H12 H23 d. destruct (H12 d) as [E|E], (H23 d) as [F|F];
    rewrite F, E; auto.
  right. by destruct (h1 !! d).
Qed.

Lemma retag_insert tag h c o :
  h !! c = Some o -> retag tag h (<[c := set_stereotypeName tag o]> h).
Proof.
  intros Hc d. destruct (decide (c = d)) as [->|Hne].
  - right. by rewrite lookup_insert_eq, Hc.
  - left. by rewrite lookup_insert_ne.
Qed.

Lemma retag_lookup tag h h' d o :
  retag tag h h' -> h !! d = Some o ->
  exists o', h' !! d = Some o' /\ c_name o' = c_name o
             /\ specialization o' = specialization o.
Proof.
  intros R Hd. destruct (R d) as [E|E]; rewrite Hd in E; eauto.
Qed.

Lemma retag_lookup_inv tag h h' d o' :
  retag tag h h' -> h' !! d = Some o' ->
  exists o, h !! d = Some o /\ c_name o' = c_name o
            /\ specialization o' = specialization o.
Proof.
  intros R Hd. destruct (R d) as [E|E]; rewrite Hd in E; eauto.
  destruct (h !! d) as [o|]; [|done]. injection E as ->. eauto.
Qed.

Lemma walk_retag tag h h' c p : retag tag h h' -> walk h' c p = walk h c p.
Proof.
  intros R. revert c. induction p as [|i p IH]; intros c; [done|].
  cbn [walk]. destruct (h !! c) as [o|] eqn:Hc.
  - destruct (retag_lookup _ _ _ _ _ R Hc) as (o' & -> & _ & ->).
    destruct (specialization o !! i); auto.
  - destruct (h' !! c) as [o'|] eqn:Hc'; [|done].
    destruct (retag_lookup_inv _ _ _ _ _ R Hc') as (o & ? & _). congruence.
Qed.

Lemma children_live_retag tag h h' :
  retag tag h h' -> children_live h -> children_live h'.
Proof.
  intros R L c o' child Hc Hin.
  destruct (retag_lookup_inv _ _ _ _ _ R Hc) as (o & Ho & _ & Hs).
  rewrite Hs in Hin. destruct (L _ _ _ Ho Hin) as [oc Hoc].
  destruct (retag_lookup _ _ _ _ _ R Hoc) as (? & ? & _). eauto.
Qed.

Lemma specialization_acyclic_retag tag h h' rank :
  retag tag h h' -> specialization_acyclic h rank ->
  specialization_acyclic h' rank.
Proof.
  intros R A c o' child Hc Hin.
  destruct (retag_lookup_inv _ _ _ _ _ R Hc) as (o & Ho & _ & Hs).
  rewrite Hs in Hin. eauto.
Qed.

Lemma tag_line_retag tag h h' c p l :
  retag tag h h' -> tag_line h' tag c p l -> tag_line h tag c p l.
Proof.
  intros R (d & o' & Hw & Hd & ->).
  destruct (retag_lookup_inv _ _ _ _ _ R Hd) as (o & Ho & Hn & _).
  exists d, o. rewrite <- (walk_retag _ _ _ _ _ R), Hn. auto.
Qed.

Lemma tagged_in_before tag h h1 h2 d :
  retag tag h h1 -> tagged_in tag h1 h2 d -> tagged_in tag h h2 d.
Proof.
  unfold tagged_in. intros R ->. destruct (R d) as [->| ->]; [done|].
  by destruct (h !! d).
Qed.

Lemma tagged_in_after tag h h1 h2 d :
  tagged_in tag h h1 d -> retag tag h1 h2 -> tagged_in tag h h2 d.
Proof.
  unfold tagged_in. intros E R. destruct (R d) as [->| ->]; [done|].
  rewrite E. by destruct (h !! d).
Qed.

Lemma update_class_ok c f o s :
  classes_st s !! c = Some o ->
  update_class c f s
  = Ok tt {| out := out s; log := log s;
             classes_st := <[c := f o]> (classes_st s);
             props_st := props_st s; resolved := resolved s |}.
Proof.
  intros H. unfold update_class.
  by rewrite (bind_ok _ _ _ _ _ (get_class_ok _ _ _ H)).
Qed.

Lemma walk_live h c p d :
  children_live h -> is_Some (h !! c) -> walk h c p = Some d ->
  is_Some (h !! d).
Proof.
  intros L. revert c. induction p as [|i p IH]; intros c Hc Hw; cbn in Hw.
  - by simplify_eq.
  - destruct (h !! c) as [o|] eqn:Ho; [|done].
    destruct (specialization o !! i) as [child|] eqn:Hi; [|done].
    eapply IH; [|done]. eapply L; [done|]. eapply list_elem_of_lookup_2, Hi.
Qed.

(** The loop of [tag_children] over the specializations of [c] from the
    one of number [k] on. *)
Lemma tag_children_loop tag rank n h c o :
  tag_children_spec tag rank n ->
  children_live h ->
  specialization_acyclic h rank ->
  h !! c = Some o ->
  (rank c <= n)%nat ->
  forall l k s1,
    retag tag h (classes_st s1) ->
    (forall j child, l !! j = Some child ->
                     specialization o !! (k + j)%nat = Some child) ->
    exists s2 paths lines,
      for_each l
        (fun child =>
           exec update_class child (set_stereotypeName tag);
           do co <- get_class child;
           exec write (Stereotyped child (c_name co) (stereotypeName co) true);
           tag_children n tag child) s1 = Ok tt s2
      /\ out s2 = out s1 ++ lines
      /\ Forall2 (tag_line h tag c) paths lines
      /\ NoDup paths
      /\ (forall p, p ∈ paths <->
                    exists i rest, p = i :: rest
                                   /\ (k <= i < k + List.length l)%nat
                                   /\ is_Some (walk h c p))
      /\ retag tag (classes_st s1) (classes_st s2)
      /\ (forall p d, p ∈ paths -> walk h c p = Some d ->
                      tagged_in tag (classes_st s1) (classes_st s2) d).
Proof.
  intros IH L A Hc Hrk. induction l as [|child l IHl]; intros k s1 R Hidx.
  { exists s1, [], []. cbn [for_each ret]. rewrite app_nil_r.
    split_and!; try done.
    - constructor.
    - intros p. split; [by intros ?%elem_of_nil|].
      intros (i & rest & _ & Hi & _). cbn in Hi. lia.
    - apply retag_refl.
    - by intros p d ?%elem_of_nil. }
  assert (specialization o !! k = Some child) as Hk.
  { specialize (Hidx 0%nat child eq_refl). by rewrite Nat.add_0_r in Hidx. }
  assert (child ∈ specialization o) as Hin
      by (eapply list_elem_of_lookup_2, Hk).
  destruct (L _ _ _ Hc Hin) as [och Hoch].
  destruct (retag_lookup _ _ _ _ _ R Hoch) as (och1 & Hoch1 & Hname & Hspec).
  pose (s1b := {| out := out s1
                    ++ [Stereotyped child (c_name och) tag true];
                  log := log s1;
                  classes_st :=
                    <[child := set_stereotypeName tag och1]> (classes_st s1);
                  props_st := props_st s1; resolved := resolved s1 |}).
  assert (retag tag (classes_st s1) (classes_st s1b)) as R1b
      by (by apply retag_insert).
  assert (retag tag h (classes_st s1b)) as Rhb by (by eapply retag_trans).
  destruct (IH child s1b) as (s1c & pc & lc & Hrun & Hout & Hl & Hnd & Hch
                              & Rbc & Htag).
  { by eapply children_live_retag. }
  { by eapply specialization_acyclic_retag. }
  { cbn. rewrite lookup_insert_eq. eauto. }
  { pose proof (A _ _ _ Hc Hin). lia. }
  destruct (IHl (S k) s1c) as (s2 & pr & lr & Hrun2 & Hout2 & Hl2 & Hnd2
                               & Hch2 & Rc2 & Htag2).
  { by eapply retag_trans. }
  { intros j ch Hj. specialize (Hidx (S j) ch Hj).
    by replace (S k + j)%nat with (k + S j)%nat by lia. }
  exists s2, ([k] :: map (cons k) pc ++ pr),
    (Stereotyped child (c_name och) tag true :: lc ++ lr).
  assert (forall q, walk h c (k :: q) = walk h child q) as Hwalk.
  { intros q. cbn [walk]. by rewrite Hc, Hk. }
  split_and!.
  - cbn [for_each]. unfold bind at 1.
    unfold bind at 1. rewrite (update_class_ok _ _ _ _ Hoch1).
    unfold bind at 1, get_class at 1. cbn [classes_st].
    rewrite lookup_insert_eq. cbn [write set_stereotypeName stereotypeName
      c_name out log classes_st props_st resolved].
    unfold bind at 1. cbn [write out log classes_st props_st resolved].
    rewrite Hname. fold s1b. by rewrite Hrun.
  - rewrite Hout2, Hout. cbn. by rewrite <- !app_assoc.
  - constructor.
    + exists child, och. by rewrite Hwalk.
    + apply Forall2_app; [|done]. apply Forall2_fmap_l.
      eapply Forall2_impl; [exact Hl|]. intros q l0 Hq.
      apply (tag_line_retag _ _ _ _ _ _ Rhb) in Hq.
      destruct Hq as (d & od & Hw & Hd & ->). exists d, od.
      by rewrite Hwalk.
  - constructor.
    + rewrite elem_of_app, list_elem_of_fmap.
      intros [(q & [= <-] & Hq)|Hq].
      * apply Hch in Hq. by destruct Hq.
      * apply Hch2 in Hq. destruct Hq as (i & rest & [= <- _] & ? & _). lia.
    + apply NoDup_app. split_and!; [|  |done].
      * apply NoDup_fmap_2; [|done]. by intros ?? [=].
      * intros p (q & -> & Hq)%list_elem_of_fmap Hp.
        apply Hch2 in Hp. destruct Hp as (i & rest & [= <- _] & ? & _). lia.
  - intros p. rewrite elem_of_cons, elem_of_app, list_elem_of_fmap. split.
    + intros [->|[(q & -> & Hq)|Hp]].
      * exists k, []. rewrite Hwalk. cbn. split_and!; eauto; lia.
      * exists k, q. apply Hch in Hq. destruct Hq as [_ Hq].
        rewrite (walk_retag _ _ _ _ _ Rhb) in Hq. rewrite Hwalk.
        cbn. split_and!; eauto; lia.
      * apply Hch2 in Hp. destruct Hp as (i & rest & -> & ? & ?).
        exists i, rest. cbn. split_and!; eauto; lia.
    + intros (i & rest & -> & Hi & Hw). cbn in Hi.
      destruct (decide (i = k)) as [->|Hne].
      * destruct rest as [|j rest]; [by left|]. right. left.
        exists (j :: rest). split; [done|]. apply Hch. split; [done|].
        rewrite (walk_retag _ _ _ _ _ Rhb). by rewrite <- Hwalk.
      * right. right. apply Hch2. exists i, rest. split_and!; eauto; lia.
  - eapply retag_trans; [exact R1b|]. by eapply retag_trans.
  - intros p d. rewrite elem_of_cons, elem_of_app, list_elem_of_fmap.
    intros [->|[(q & -> & Hq)|Hp]] Hw.
    + rewrite Hwalk in Hw. cbn in Hw. simplify_eq.
      eapply (tagged_in_after _ _ (classes_st s1b));
        [|exact (retag_trans _ _ _ _ Rbc Rc2)].
      unfold tagged_in. cbn. by rewrite lookup_insert_eq, Hoch1.
    + rewrite Hwalk, <- (walk_retag _ _ _ _ _ Rhb) in Hw.
      eapply tagged_in_after; [|exact Rc2].
      eapply tagged_in_before; [exact R1b|]. by eapply Htag.
    + eapply tagged_in_before; [|by eapply Htag2].
      by eapply retag_trans.
Qed.

Lemma tag_children_correct tag rank fuel : tag_children_spec tag rank fuel.
Proof.
  induction fuel as [|n IH]; intros c s L A [o Hc] Hrk; [lia|].
  destruct (tag_children_loop tag rank n (classes_st s) c o IH L A Hc
              ltac:(lia) (specialization o) 0%nat s)
    as (s2 & paths & lines & Hrun & Hout & Hl & Hnd & Hch & R & Htag).
  { apply retag_refl. }
  { by intros j child Hj. }
  exists s2, paths, lines. split_and!; try done.
  - cbn [tag_children].
    by rewrite (bind_ok _ _ _ _ _ (get_class_ok _ _ _ Hc)).
  - intros p. rewrite Hch. split.
    + intros (i & rest & -> & _ & Hw). done.
    + intros [Hne Hw]. destruct p as [|i rest]; [done|].
      exists i, rest. split_and!; [done|lia| |done].
      cbn in Hw. rewrite Hc in Hw.
      destruct (specialization o !! i) eqn:Hi; [|by destruct Hw].
      apply lookup_lt_Some in Hi. cbn. lia.
Qed.

(** The two graph conditions can be decided on a given class store. *)
Lemma children_live_alt h :
  children_live h
  <-> map_Forall (fun _ o => Forall (fun child => is_Some (h !! child))
                               (specialization o)) h.
Proof.
  unfold children_live, map_Forall. setoid_rewrite Forall_forall.
  naive_solver.
Qed.

Lemma specialization_acyclic_alt h rank :
  specialization_acyclic h rank
  <-> map_Forall (fun c o => Forall (fun child => (rank child < rank c)%nat)
                               (specialization o)) h.
Proof.
  unfold specialization_acyclic, map_Forall. setoid_rewrite Forall_forall.
  naive_solver.
Qed.

#[export] Instance children_live_dec h : Decision (children_live h).
Proof.
  refine (cast_if (decide (map_Forall
            (fun _ o => Forall (fun child => is_Some (h !! child))
                          (specialization o)) h)));
    by rewrite children_live_alt.
Defined.

#[export] Instance specialization_acyclic_dec h rank :
  Decision (specialization_acyclic h rank).
Proof.
  refine (cast_if (decide (map_Forall
            (fun c o => Forall (fun child => (rank child < rank c)%nat)
                          (specialization o)) h)));
    by rewrite specialization_acyclic_alt.
Defined.

(** C3, as the code has it: on an acyclic specialization graph
    [tag_children] ends, and it tags a class once for every path of
    specializations that leads to it from the class it starts on.  The
    lines it writes are those of the non-empty paths, each path once, so
    that every transitive descendant is tagged at least once, and exactly
    once when a single path leads to it; all of them carry the tag in the
    end. *)
Theorem tag_children_visits_every_path tag rank fuel c s :
  children_live (classes_st s) ->
  specialization_acyclic (classes_st s) rank ->
  is_Some (classes_st s !! c) ->
  (rank c < fuel)%nat ->
  exists s' paths lines,
    tag_children fuel tag c s = Ok tt s'
    /\ out s' = out s ++ lines
    /\ Forall2 (tag_line (classes_st s) tag c) paths lines
    /\ NoDup paths
    /\ (forall p, p ∈ paths <-> p ≠ [] /\ is_Some (walk (classes_st s) c p))
    /\ (forall p d, p ≠ [] -> walk (classes_st s) c p = Some d ->
                    stereotypeName <$> classes_st s' !! d = Some tag).
Proof.
  intros L A Hc Hrk.
  destruct (tag_children_correct tag rank fuel c s L A Hc Hrk)
    as (s' & paths & lines & Hrun & Hout & Hl & Hnd & Hch & R & Htag).
  exists s', paths, lines. split_and!; try done.
  intros p d Hne Hw.
  assert (p ∈ paths) as Hp by (apply Hch; split; [done|by rewrite Hw]).
  specialize (Htag p d Hp Hw). unfold tagged_in in Htag.
  destruct (walk_live _ _ _ _ L Hc Hw) as [od Hod].
  by rewrite Htag, Hod.
Qed.

Lemma tag_children_visits_every_path_witness :
  exists s' paths lines,
    tag_children 3 (Some "Tagged") "A" diamond_state = Ok tt s'
    /\ out s' = [Header] ++ lines
    /\ Forall2 (tag_line diamond_heap (Some "Tagged") "A") paths lines
    /\ NoDup paths
    /\ (forall p, p ∈ paths <-> p ≠ [] /\ is_Some (walk diamond_heap "A" p))
    /\ (forall p d, p ≠ [] -> walk diamond_heap "A" p = Some d ->
                    stereotypeName <$> classes_st s' !! d = Some (Some "Tagged")).
Proof.
  apply (tag_children_visits_every_path (Some "Tagged") diamond_rank 3 "A"
           diamond_state).
  - apply (bool_decide_unpack _). vm_compute. exact I.
  - apply (bool_decide_unpack _). vm_compute. exact I.
  - vm_compute. eauto.
  - vm_compute. lia.
Defined.

(** C3 fails as stated: in the diamond the class [D] is reached through
    [B] and through [C], and the run tags it twice. *)
Lemma diamond_tagged_twice :
  let r := generate no_overrides flag_literal flag_int diamond_model 5
             init_state in
  succeeded r = true
  /\ out (final_state r)
     = [Header;
        Stereotyped "A" "A" (Some "Tagged") false;
        Stereotyped "B" "B" (Some "Tagged") true;
        Stereotyped "D" "D" (Some "Tagged") true;
        Stereotyped "C" "C" (Some "Tagged") true;
        Stereotyped "D" "D" (Some "Tagged") true;
        ClassDef "A" "A" ""; ClassDef "B" "B" "A"; ClassDef "C" "C" "A";
        ClassDef "D" "D" "B, C"]
  /\ List.length (filter (fun l => is_tag_of "D" l) (out (final_state r)))
     = 2%nat.
Proof. vm_compute. done. Qed.

(** ** Class definitions *)

Lemma marked_refl h : marked h h.
Proof. intros d. by left. Qed.

Lemma marked_trans h1 h2 h3 : marked h1 h2 -> marked h2 h3 -> marked h1 h3.
Proof.
  intros H12 H23 d. destruct (H12 d) as [E|E], (H23 d) as [F|F];
    rewrite F, E; auto.
  right. by destruct (h1 !! d).
Qed.

Lemma marked_insert h c o :
  h !! c = Some o -> marked h (<[c := set_c_written true o]> h).
Proof.
  intros Hc d. destruct (decide (c = d)) as [->|Hne].
  - right. by rewrite lookup_insert_eq, Hc.
  - left. by rewrite lookup_insert_ne.
Qed.

Lemma written_fixed o : c_written o = true -> set_c_written true o = o.
Proof. destruct o. cbn. by intros ->. Qed.

Lemma marked_lookup h h' d o :
  marked h h' -> h !! d = Some o ->
  exists o', h' !! d = Some o' /\ c_name o' = c_name o
             /\ generalization o' = generalization o
             /\ stereotypeName o' = stereotypeName o
             /\ (c_written o = true -> c_written o' = true).
Proof.
  intros R Hd. destruct (R d) as [E|E]; rewrite Hd in E; eauto 10.
Qed.

Lemma marked_lookup_inv h h' d o' :
  marked h h' -> h' !! d = Some o' ->
  exists o, h !! d = Some o /\ c_name o' = c_name o
            /\ generalization o' = generalization o
            /\ stereotypeName o' = stereotypeName o
            /\ (c_written o = true -> c_written o' = true).
Proof.
  intros R Hd. destruct (R d) as [E|E]; rewrite Hd in E; eauto 10.
  destruct (h !! d) as [o|]; [|done]. injection E as ->. eauto 10.
Qed.

Lemma parents_live_marked h h' :
  marked h h' -> parents_live h -> parents_live h'.
Proof.
  intros R L c o' g Hc Hin.
  destruct (marked_lookup_inv _ _ _ _ R Hc) as (o & Ho & _ & Hs & _).
  rewrite Hs in Hin. destruct (L _ _ _ Ho Hin) as [og Hog].
  destruct (marked_lookup _ _ _ _ R Hog) as (? & ? & _). eauto.
Qed.

Lemma generalization_acyclic_marked h h' rank :
  marked h h' -> generalization_acyclic h rank ->
  generalization_acyclic h' rank.
Proof.
  intros R A c o' g Hc Hin.
  destruct (marked_lookup_inv _ _ _ _ R Hc) as (o & Ho & _ & Hs & _).
  rewrite Hs in Hin. eauto.
Qed.

Lemma decl_count_app c l1 l2 :
  decl_count c (l1 ++ l2) = (decl_count c l1 + decl_count c l2)%nat.
Proof. unfold decl_count. by rewrite filter_app, length_app. Qed.

Lemma decl_count_one c l :
  decl_count c [l] = if is_decl_of c l then 1%nat else 0%nat.
Proof.
  unfold decl_count. rewrite filter_cons, filter_nil.
  destruct (is_decl_of c l); by case_decide.
Qed.

Lemma declared_at_count c ls :
  (0 < decl_count c ls)%nat -> exists i, declared_at c ls i.
Proof.
  unfold decl_count. intros H.
  destruct (filter (fun l => is_decl_of c l) ls) as [|l r] eqn:E;
    [cbn in H; lia|].
  assert (l ∈ filter (fun l => is_decl_of c l) ls) as Hin
      by (rewrite E; apply list_elem_of_here).
  apply list_elem_of_filter in Hin as [Hd Hin].
  apply list_elem_of_lookup in Hin as [i Hi].
  exists i, l. split; [done|]. by destruct (is_decl_of c l).
Qed.

Lemma declared_at_app c l1 l2 i :
  declared_at c l1 i -> declared_at c (l1 ++ l2) i.
Proof.
  intros (l & Hl & Hd). exists l. split; [|done].
  by apply lookup_app_l_Some.
Qed.

Lemma declared_before_app g c l1 l2 :
  declared_before g c l1 -> declared_before g c (l1 ++ l2).
Proof.
  intros (i & j & Hij & Hg & Hc).
  exists i, j. eauto using declared_at_app.
Qed.

Lemma declared_at_bound c ls i : declared_at c ls i -> (i < List.length ls)%nat.
Proof. intros (l & Hl & _). by apply lookup_lt_Some in Hl. Qed.

Lemma declared_at_last c ls l :
  is_decl_of c l = true -> declared_at c (ls ++ [l]) (List.length ls).
Proof.
  intros Hd. exists l. split; [|done].
  rewrite lookup_app_r by done. by rewrite Nat.sub_diag.
Qed.

(** Declaring an undeclared class whose generalizations are all written,
    and marking it, keeps the invariant. *)
Lemma class_inv_declare s c o l :
  class_inv s ->
  classes_st s !! c = Some o ->
  c_written o = false ->
  is_decl_of c l = true ->
  (forall d, d ≠ c -> is_decl_of d l = false) ->
  (forall g, g ∈ generalization o ->
             exists og, classes_st s !! g = Some og /\ c_written og = true) ->
  class_inv {| out := out s ++ [l]; log := log s;
               classes_st := <[c := set_c_written true o]> (classes_st s);
               props_st := props_st s; resolved := resolved s |}.
Proof.
  intros Inv Hc Hw Hl Hother Hpar d. cbn [classes_st out].
  destruct (decide (d = c)) as [->|Hne].
  - rewrite lookup_insert_eq. cbn [c_written set_c_written generalization].
    pose proof (Inv c) as Ic. rewrite Hc, Hw in Ic. split.
    + rewrite decl_count_app, decl_count_one, Hl, Ic. done.
    + intros g Hg. destruct (Hpar g Hg) as (og & Hog & Hwg).
      pose proof (Inv g) as Ig. rewrite Hog, Hwg in Ig.
      destruct Ig as [Ig _].
      destruct (declared_at_count g (out s)) as [i Hi]; [lia|].
      exists i, (List.length (out s)). split_and!.
      * by eapply declared_at_bound.
      * by apply declared_at_app.
      * by apply declared_at_last.
  - rewrite lookup_insert_ne by done. pose proof (Inv d) as Id.
    rewrite decl_count_app, decl_count_one, (Hother d Hne), Nat.add_0_r.
    destruct (classes_st s !! d) as [od|]; [|done].
    destruct (c_written od); [|done].
    destruct Id as [? Hb]. split; [done|].
    intros g Hg. by apply declared_before_app, Hb.
Qed.

(** The loop of [write_classdef] over the generalizations, all of rank
    below [k]. *)
Lemma write_classdef_parents ov rank n k :
  write_classdef_spec ov rank n ->
  (k <= n)%nat ->
  forall l acc s1,
    class_inv s1 ->
    parents_live (classes_st s1) ->
    generalization_acyclic (classes_st s1) rank ->
    (forall g, g ∈ l -> is_Some (classes_st s1 !! g) /\ (rank g < k)%nat) ->
    exists acc' s2 lines,
      fold_each l
        (fun s g =>
           exec write_classdef ov n g;
           do go <- get_class g;
           ret ((if Py.truthy s then s +:+ ", " else s) +:+ c_name go))
        acc s1 = Ok acc' s2
      /\ out s2 = out s1 ++ lines
      /\ class_inv s2
      /\ marked (classes_st s1) (classes_st s2)
      /\ (forall d, (k <= rank d)%nat ->
                    classes_st s2 !! d = classes_st s1 !! d)
      /\ (forall g, g ∈ l ->
                    exists og, classes_st s2 !! g = Some og
                               /\ c_written og = true).
Proof.
  intros IH Hk. induction l as [|g l IHl]; intros acc s1 Inv L A Hl.
  { exists acc, s1, []. rewrite app_nil_r. split_and!; try done.
    - apply marked_refl.
    - by intros g ?%elem_of_nil. }
  destruct (Hl g) as [Hg Hrg]; [apply list_elem_of_here|].
  destruct (IH g s1 Inv L A Hg ltac:(lia))
    as (s1a & la & Hrun & Hout & Inva & Ma & Fa & og & Hog & Hwg).
  destruct (IHl ((if Py.truthy acc then acc +:+ ", " else acc) +:+ c_name og)
              s1a)
    as (acc' & s2 & lb & Hrun2 & Hout2 & Inv2 & M2 & F2 & W2).
  { done. }
  { by eapply parents_live_marked. }
  { by eapply generalization_acyclic_marked. }
  { intros g' Hg'. destruct (Hl g') as [[og' Hog'] ?];
      [by apply list_elem_of_further|].
    split; [|done].
    destruct (marked_lookup _ _ _ _ Ma Hog') as (? & ? & _). eauto. }
  exists acc', s2, (la ++ lb). split_and!.
  - cbn [fold_each]. unfold bind at 1. unfold bind at 1. rewrite Hrun.
    by rewrite (bind_ok _ _ _ _ _ (get_class_ok _ _ _ Hog)).
  - by rewrite Hout2, Hout, app_assoc.
  - done.
  - by eapply marked_trans.
  - intros d Hd. rewrite F2 by done. apply Fa. lia.
  - intros g' [->|Hg']%elem_of_cons; [|by apply W2].
    destruct (marked_lookup _ _ _ _ M2 Hog) as (o' & Ho' & _ & _ & _ & Hw').
    eauto.
Qed.

Lemma write_classdef_correct ov rank fuel : write_classdef_spec ov rank fuel.
Proof.
  induction fuel as [|n IH]; intros c s Inv L A [o Hc] Hrk; [lia|].
  cbn [write_classdef].
  rewrite (bind_ok _ _ _ _ _ (get_class_ok _ _ _ Hc)).
  destruct (c_written o) eqn:Hw; cbn [negb].
  { exists s, []. rewrite app_nil_r. unfold bind at 1. cbn [ret].
    rewrite (update_class_ok _ _ _ _ Hc), written_fixed, insert_id by done.
    split_and!; try done.
    - by destruct s.
    - apply marked_refl.
    - eauto. }
  destruct (write_classdef_parents ov rank n (rank c) IH ltac:(lia)
              (generalization o) "" s Inv L A)
    as (bases & s2 & lines & Hrun & Hout & Inv2 & M2 & F2 & W2).
  { intros g Hg. split; [by eapply L|by eapply A]. }
  assert (classes_st s2 !! c = Some o) as Hc2 by (by rewrite F2).
  set (l := match write_override ov (c_name o) with
            | Some text => ClassOverride c (c_name o) text
            | None => ClassDef c (c_name o) bases
            end).
  assert (is_decl_of c l = true) as Hl.
  { unfold l. destruct (write_override ov _); cbn;
      by rewrite bool_decide_eq_true_2. }
  assert (forall d, d ≠ c -> is_decl_of d l = false) as Hother.
  { intros d Hd. unfold l. destruct (write_override ov _); cbn;
      by rewrite bool_decide_eq_false_2. }
  eexists _, (lines ++ [l]). split_and!.
  - unfold bind at 1. unfold bind at 1. rewrite Hrun.
    replace (match write_override ov (c_name o) with
             | Some text => write (ClassOverride c (c_name o) text)
             | None => write (ClassDef c (c_name o) bases)
             end s2) with (write l s2)
      by (unfold l; by destruct (write_override ov _)).
    cbn [write].
    rewrite (update_class_ok _ _ o) by done. reflexivity.
  - cbn [out]. by rewrite Hout, app_assoc.
  - by apply (class_inv_declare s2 c o l).
  - cbn [classes_st]. eapply marked_trans; [exact M2|].
    by apply marked_insert.
  - intros d Hd. cbn [classes_st].
    rewrite lookup_insert_ne by (intros ->; lia). apply F2. lia.
  - cbn [classes_st]. rewrite lookup_insert_eq. eauto.
Qed.

(** The loop of [generate] over the classes (lines 490-494). *)
Lemma write_classdefs_loop ov rank fuel :
  forall l ignored s1,
    class_inv s1 ->
    parents_live (classes_st s1) ->
    generalization_acyclic (classes_st s1) rank ->
    Forall (fun c => is_Some (classes_st s1 !! c) /\ (rank c < fuel)%nat) l ->
    exists ignored' s2,
      fold_each l
        (fun ignored_classes c =>
           do o <- get_class c;
           if bool_decide (stereotypeName o = Some "SimpleAttribute")
           then ret (ignored_classes ++ [c])
           else exec write_classdef ov fuel c; ret ignored_classes)
        ignored s1 = Ok ignored' s2
      /\ class_inv s2
      /\ marked (classes_st s1) (classes_st s2)
      /\ (forall c o, c ∈ l -> classes_st s1 !! c = Some o ->
                      stereotypeName o ≠ Some "SimpleAttribute" ->
                      exists o', classes_st s2 !! c = Some o'
                                 /\ c_written o' = true).
Proof.
  induction l as [|c l IHl]; intros ignored s1 Inv L A Hl.
  { exists ignored, s1. split_and!; try done.
    - apply marked_refl.
    - by intros c o ?%elem_of_nil. }
  apply Forall_cons in Hl as [[[o Hc] Hrk] Hl].
  cbn [fold_each]. unfold bind at 1.
  rewrite (bind_ok _ _ _ _ _ (get_class_ok _ _ _ Hc)).
  case_bool_decide as Hsa.
  - cbn [ret].
    destruct (IHl (ignored ++ [c]) s1 Inv L A Hl)
      as (ig & s2 & Hrun & Inv2 & M2 & W2).
    exists ig, s2. split_and!; try done.
    intros c' o' [->|Hin]%elem_of_cons Hc' Hn; [congruence|eauto].
  - destruct (write_classdef_correct ov rank fuel c s1 Inv L A
                ltac:(eauto) Hrk)
      as (s1a & la & Hrun & Hout & Inva & Ma & Fa & oc & Hoc & Hwc).
    unfold bind at 1. rewrite Hrun. cbn [ret].
    destruct (IHl ignored s1a) as (ig & s2 & Hrun2 & Inv2 & M2 & W2).
    { done. }
    { by eapply parents_live_marked. }
    { by eapply generalization_acyclic_marked. }
    { eapply Forall_impl; [exact Hl|]. intros c' [[o' Ho'] ?].
      split; [|done].
      destruct (marked_lookup _ _ _ _ Ma Ho') as (? & ? & _). eauto. }
    exists ig, s2. split_and!; try done.
    + by eapply marked_trans.
    + intros c' o' [->|Hin]%elem_of_cons Hc' Hn.
      * destruct (marked_lookup _ _ _ _ M2 Hoc)
          as (o2 & Ho2 & _ & _ & _ & Hw2). eauto.
      * destruct (marked_lookup _ _ _ _ Ma Hc')
          as (o1 & Ho1 & _ & _ & Hst & _).
        eapply W2; [done|done|]. by rewrite Hst.
Qed.

Lemma no_class_line_count c ls :
  Forall (fun l => is_class_line l = false) ls -> decl_count c ls = 0%nat.
Proof.
  induction 1 as [|l ls Hl _ IH]; [done|].
  change (l :: ls) with ([l] ++ ls).
  rewrite decl_count_app, decl_count_one, IH.
  by destruct l.
Qed.

(** On a class store that is well formed and acyclic, the class
    definition pass ends; it declares every class of [classes] that is not
    tagged [SimpleAttribute] exactly once, declares no class twice, and
    the declaration of a class stands after the declarations of all its
    generalizations. *)
Lemma classdefs_pass_correct ov rank fuel classes s :
  parents_live (classes_st s) ->
  generalization_acyclic (classes_st s) rank ->
  map_Forall (fun _ o => c_written o = false) (classes_st s) ->
  Forall (fun l => is_class_line l = false) (out s) ->
  Forall (fun c => is_Some (classes_st s !! c) /\ (rank c < fuel)%nat)
    classes ->
  exists ignored_classes s',
    write_classdefs ov fuel classes s = Ok ignored_classes s'
    /\ (forall c o, c ∈ classes -> classes_st s !! c = Some o ->
                    stereotypeName o ≠ Some "SimpleAttribute" ->
                    decl_count c (out s') = 1%nat)
    /\ (forall c, (decl_count c (out s') <= 1)%nat)
    /\ (forall c o g, classes_st s !! c = Some o ->
                      g ∈ generalization o ->
                      decl_count c (out s') = 1%nat ->
                      declared_before g c (out s')).
Proof.
  intros L A Hunw Hout Hcl.
  assert (class_inv s) as Inv.
  { intros c. pose proof (no_class_line_count c (out s) Hout) as H0.
    destruct (classes_st s !! c) as [o|] eqn:Hc; [|done].
    by rewrite (Hunw c o Hc). }
  destruct (write_classdefs_loop ov rank fuel classes [] s Inv L A Hcl)
    as (ig & s' & Hrun & Inv' & M & W).
  exists ig, s'. split_and!.
  - exact Hrun.
  - intros c o Hin Hc Hn. destruct (W c o Hin Hc Hn) as (o' & Ho' & Hw').
    pose proof (Inv' c) as Ic. rewrite Ho', Hw' in Ic. by destruct Ic.
  - intros c. pose proof (Inv' c) as Ic.
    destruct (classes_st s' !! c) as [o'|]; [|lia].
    destruct (c_written o'); [destruct Ic|]; lia.
  - intros c o g Hc Hg H1.
    destruct (marked_lookup _ _ _ _ M Hc) as (o' & Ho' & _ & Hgen & _).
    pose proof (Inv' c) as Ic. rewrite Ho' in Ic.
    destruct (c_written o'); [|lia].
    destruct Ic as [_ Hb]. apply Hb. by rewrite Hgen.
Qed.

Lemma parents_live_alt h :
  parents_live h
  <-> map_Forall (fun _ o => Forall (fun g => is_Some (h !! g))
                               (generalization o)) h.
Proof.
  unfold parents_live, map_Forall. setoid_rewrite Forall_forall.
  naive_solver.
Qed.

Lemma generalization_acyclic_alt h rank :
  generalization_acyclic h rank
  <-> map_Forall (fun c o => Forall (fun g => (rank g < rank c)%nat)
                               (generalization o)) h.
Proof.
  unfold generalization_acyclic, map_Forall. setoid_rewrite Forall_forall.
  naive_solver.
Qed.

#[export] Instance parents_live_dec h : Decision (parents_live h).
Proof.
  refine (cast_if (decide (map_Forall
            (fun _ o => Forall (fun g => is_Some (h !! g))
                          (generalization o)) h)));
    by rewrite parents_live_alt.
Defined.

#[export] Instance generalization_acyclic_dec h rank :
  Decision (generalization_acyclic h rank).
Proof.
  refine (cast_if (decide (map_Forall
            (fun c o => Forall (fun g => (rank g < rank c)%nat)
                          (generalization o)) h)));
    by rewrite generalization_acyclic_alt.
Defined.

(** ** The order of the passes *)

Lemma emits_ret {A} k (a : A) : emits k (ret a).
Proof. intros s. exists []. by rewrite app_nil_r. Qed.

Lemma emits_raise {A} k f : emits k (@raise A f).
Proof. intros s. exists []. by rewrite app_nil_r. Qed.

Lemma emits_bind {A B} k (m : M A) (f : A -> M B) :
  emits k m -> (forall a, emits k (f a)) -> emits k (bind m f).
Proof.
  intros Hm Hf s. unfold bind. destruct (Hm s) as (seg1 & E1 & F1).
  destruct (m s) as [a s1|e s1]; cbn in E1.
  - destruct (Hf a s1) as (seg2 & E2 & F2). exists (seg1 ++ seg2).
    rewrite E2, E1, app_assoc. split; [done|]. by apply Forall_app.
  - by exists seg1.
Qed.

Lemma emits_weaken {A} (k k' : line -> bool) (m : M A) :
  (forall l, k l = true -> k' l = true) -> emits k m -> emits k' m.
Proof.
  intros Hk Hm s. destruct (Hm s) as (seg & E & F). exists seg.
  split; [done|]. eapply Forall_impl; [exact F|]. auto.
Qed.

Lemma emits_silent {A} k (m : M A) :
  (forall s, out (final_state (m s)) = out s) -> emits k m.
Proof. intros H s. exists []. by rewrite app_nil_r. Qed.

Lemma emits_write k l : k l = true -> emits k (write l).
Proof. intros Hl s. exists [l]. split; [done|]. by constructor. Qed.

Lemma emits_msg k m : emits k (msg m).
Proof. by apply emits_silent. Qed.

Lemma emits_get_class k c : emits k (get_class c).
Proof.
  apply emits_silent. intros s. unfold get_class. by destruct (_ !! _).
Qed.

Lemma emits_get_prop k p : emits k (get_prop p).
Proof.
  apply emits_silent. intros s. unfold get_prop. by destruct (_ !! _).
Qed.

Lemma emits_put_class k c o : emits k (put_class c o).
Proof. by apply emits_silent. Qed.

Lemma emits_put_prop k p o : emits k (put_prop p o).
Proof. by apply emits_silent. Qed.

Lemma emits_mark_resolved k v a : emits k (mark_resolved v a).
Proof. by apply emits_silent. Qed.

Lemma emits_is_resolved k v a : emits k (is_resolved v a).
Proof. by apply emits_silent. Qed.

Lemma emits_from_option {A} k f (o : option A) : emits k (from_option f o).
Proof. destruct o; [apply emits_ret|apply emits_raise]. Qed.

Lemma emits_lift_sum {A} k (r : fault + A) : emits k (lift_sum r).
Proof. destruct r; [apply emits_raise|apply emits_ret]. Qed.

Lemma emits_assert k b : emits k (assert b).
Proof. destruct b; [apply emits_ret|apply emits_raise]. Qed.

Lemma emits_update_class k c f : emits k (update_class c f).
Proof.
  apply emits_bind; [apply emits_get_class|]. intros. apply emits_put_class.
Qed.

Lemma emits_update_prop k p f : emits k (update_prop p f).
Proof.
  apply emits_bind; [apply emits_get_prop|]. intros. apply emits_put_prop.
Qed.

Lemma emits_item k keys o : emits k (item keys o).
Proof.
  destruct o; cbn; [|apply emits_raise].
  destruct (bool_decide _); [apply emits_ret|apply emits_raise].
Qed.

Lemma emits_for_each {A} k (l : list A) f :
  (forall x, emits k (f x)) -> emits k (for_each l f).
Proof.
  intros Hf. induction l; cbn; [apply emits_ret|]. by apply emits_bind.
Qed.

Lemma emits_fold_each {A B} k (l : list A) (f : B -> A -> M B) b :
  (forall b x, emits k (f b x)) -> emits k (fold_each l f b).
Proof.
  intros Hf. revert b. induction l; intros b; cbn; [apply emits_ret|].
  by apply emits_bind.
Qed.

Lemma emits_write_property k ov full v :
  (forall text, k (Override full text) = true) ->
  k (Assign full v) = true ->
  emits k (write_property ov full v).
Proof.
  intros Ho Ha. unfold write_property.
  destruct (write_override ov full); by apply emits_write.
Qed.

(** One step of the analysis of a run: the shape of the program decides
    the lemma. *)
Ltac emits_step :=
  lazymatch goal with
  | |- emits _ (bind _ _) => apply emits_bind; [|intros ?]
  | |- emits _ (ret _) => apply emits_ret
  | |- emits _ (raise _) => apply emits_raise
  | |- emits _ (write _) => apply emits_write; reflexivity
  | |- emits _ (msg _) => apply emits_msg
  | |- emits _ (get_class _) => apply emits_get_class
  | |- emits _ (get_prop _) => apply emits_get_prop
  | |- emits _ (put_class _ _) => apply emits_put_class
  | |- emits _ (put_prop _ _) => apply emits_put_prop
  | |- emits _ (update_class _ _) => apply emits_update_class
  | |- emits _ (update_prop _ _) => apply emits_update_prop
  | |- emits _ (mark_resolved _ _) => apply emits_mark_resolved
  | |- emits _ (is_resolved _ _) => apply emits_is_resolved
  | |- emits _ (from_option _ _) => apply emits_from_option
  | |- emits _ (lift_sum _) => apply emits_lift_sum
  | |- emits _ (assert _) => apply emits_assert
  | |- emits _ (item _ _) => apply emits_item
  | |- emits _ (write_property _ _ _) =>
      apply emits_write_property; [intros ?; reflexivity|reflexivity]
  | |- emits _ (for_each _ _) => apply emits_for_each; intros ?
  | |- emits _ (fold_each _ _ _) => apply emits_fold_each; intros ? ?
  | |- emits _ (if ?b then _ else _) => destruct b
  | |- emits _ (match ?x with _ => _ end) => destruct x
  end.

Ltac emits_run := repeat emits_step.

Section Passes.

Variable ov : Overrides.
Variable literal_eval : string -> fault + bool.
Variable int_of_str : string -> option Z.
Variable all_elements : dict ident element.

Lemma emits_element_at k r : emits k (element_at all_elements r).
Proof. unfold element_at. emits_run. Qed.

Lemma emits_resolve k val attr : emits k (resolve all_elements val attr).
Proof.
  unfold resolve. emits_run; try apply emits_element_at.
Qed.

Lemma emits_build_tables k : emits k (build_tables all_elements).
Proof.
  unfold build_tables. apply emits_bind.
  { apply emits_fold_each. intros tb [key val]. unfold classify.
    cbn [fst snd]. destruct val; emits_run; try apply emits_resolve. }
  intros tb. apply emits_bind.
  { apply emits_for_each. intros g. unfold link_generalization. emits_run. }
  intros _. apply emits_bind.
  { apply emits_fold_each. intros acc kv. unfold enumeration_values.
    emits_run. }
  intros enums. apply emits_bind; [|intros; apply emits_ret].
  apply emits_fold_each. intros cls m. unfold remove_metaclass.
  apply emits_bind; [emits_run|]. intros l. apply emits_bind.
  { apply emits_fold_each. intros ends e. unfold extension_end.
    apply emits_bind; [apply emits_element_at|]. intros el.
    destruct el; emits_run. }
  intros ends. emits_run.
Qed.

Lemma emits_tag_children fuel tag me :
  emits is_stereotype_line (tag_children fuel tag me).
Proof.
  revert me. induction fuel as [|n IH]; intros me; cbn [tag_children].
  - apply emits_raise.
  - emits_run. apply IH.
Qed.

Lemma emits_tag_class fuel c :
  emits is_stereotype_line (tag_class all_elements fuel c).
Proof.
  unfold tag_class. apply emits_bind; [emits_run|]. intros o.
  destruct (c_appliedStereotype o) as [[|i l]|]; try apply emits_ret.
  apply emits_bind; [apply emits_element_at|]. intros inst.
  apply emits_bind; [destruct inst; emits_run|]. intros cl.
  apply emits_bind; [apply emits_element_at|]. intros st.
  emits_run. apply emits_tag_children.
Qed.

Lemma emits_write_classdef fuel c :
  emits is_class_line (write_classdef ov fuel c).
Proof.
  revert c. induction fuel as [|n IH]; intros c; cbn [write_classdef].
  - apply emits_raise.
  - apply emits_bind; [emits_run|]. intros o.
    apply emits_bind; [|intros; emits_run].
    destruct (negb (c_written o)); [|apply emits_ret].
    apply emits_bind.
    + apply emits_fold_each. intros s g.
      apply emits_bind; [apply IH|]. intros. emits_run.
    + intros s. emits_run.
Qed.

Lemma emits_write_classdefs fuel classes :
  emits is_class_line (write_classdefs ov fuel classes).
Proof.
  unfold write_classdefs. apply emits_fold_each. intros ig c.
  apply emits_bind; [emits_run|]. intros o.
  destruct (bool_decide _); [apply emits_ret|].
  apply emits_bind; [apply emits_write_classdef|]. intros. apply emits_ret.
Qed.

Lemma emits_write_attribute a enums :
  emits is_attribute_line (write_attribute ov literal_eval a enums).
Proof. unfold write_attribute. emits_run. Qed.

Lemma emits_write_attributes tb ignored :
  emits is_attribute_line (write_attributes ov literal_eval tb ignored).
Proof.
  unfold write_attributes. apply emits_fold_each. intros da c.
  apply emits_bind; [emits_run|]. intros o.
  apply emits_fold_each. intros da' p. unfold emit_attribute.
  destruct (bool_decide _); [|apply emits_raise].
  apply emits_bind; [emits_run|]. intros _.
  apply emits_bind; [emits_run|]. intros a.
  destruct (negb _); [|apply emits_ret].
  destruct (derives ov _); [apply emits_ret|].
  apply emits_bind; [apply emits_write_attribute|]. intros. apply emits_ret.
Qed.

Lemma emits_parse_association_end k head tail :
  emits k (parse_association_end int_of_str all_elements head tail).
Proof.
  unfold parse_association_end. apply emits_bind; [emits_run|]. intros h.
  apply emits_bind; [emits_run|]. intros _.
  destruct (negb _); [apply emits_ret|].
  destruct (name_of h); [|apply emits_raise].
  apply emits_bind.
  { unfold parse_association_tags. apply emits_fold_each. intros acc st.
    apply emits_fold_each. intros acc' slot. unfold scan_slot. emits_run. }
  intros tags. emits_run.
Qed.

Lemma emits_write_association head tail :
  emits is_association_pass_line (write_association ov head tail).
Proof. unfold write_association. emits_run. Qed.

Lemma emits_route_end tb asAttribute e1 e2 acc :
  emits is_association_pass_line
    (route_end ov literal_eval tb asAttribute e1 e2 acc).
Proof.
  unfold route_end. destruct asAttribute as [sa|].
  - apply emits_bind; [emits_run|]. intros o1.
    destruct (_ && _); [|apply emits_ret].
    apply emits_bind; [emits_run|]. intros o2.
    apply emits_bind; [emits_run|]. intros t2.
    apply emits_bind; [emits_run|]. intros to2.
    apply emits_bind; [emits_run|]. intros _.
    apply emits_bind; [emits_run|]. intros _.
    apply emits_bind; [emits_run|]. intros _.
    apply emits_bind; [|intros; emits_run].
    eapply emits_weaken; [|apply emits_write_attribute].
    by intros [| | | | | |? []].
  - apply emits_bind; [emits_run|]. intros o1.
    destruct (Py.truthy_opt _); [apply emits_ret|].
    destruct (_ || _); [emits_run|].
    destruct (Py.truthy_opt _); [|apply emits_ret].
    apply emits_bind; [apply emits_write_association|]. intros.
    apply emits_ret.
Qed.

Lemma emits_write_association_ends tb acc memberEnd :
  emits is_association_pass_line
    (write_association_ends ov literal_eval int_of_str all_elements tb acc
       memberEnd).
Proof.
  unfold write_association_ends. apply emits_bind; [emits_run|]. intros l.
  apply emits_bind.
  { apply emits_fold_each. intros r e. unfold resolve_end. emits_run. }
  intros r. apply emits_bind; [emits_run|]. intros e0.
  apply emits_bind; [emits_run|]. intros e1.
  apply emits_bind; [apply emits_parse_association_end|]. intros _.
  apply emits_bind; [apply emits_parse_association_end|]. intros _.
  unfold route_ends. apply emits_bind; [apply emits_route_end|].
  intros. apply emits_route_end.
Qed.

Lemma emits_link_subsets k ignored du a :
  emits k (link_subsets ignored du a).
Proof. unfold link_subsets. emits_run. Qed.

Lemma emits_write_derivedunion fuel d :
  emits is_derivedunion_line (write_derivedunion ov fuel d).
Proof.
  revert d. induction fuel as [|n IH]; intros d; cbn [write_derivedunion].
  - apply emits_raise.
  - apply emits_bind; [emits_run|]. intros o.
    apply emits_bind; [emits_run|]. intros members.
    apply emits_bind.
    { apply emits_fold_each. intros subs u.
      apply emits_bind; [emits_run|]. intros uo.
      apply emits_bind; [|intros; emits_run].
      destruct (_ && _); [apply IH|apply emits_ret]. }
    intros subs. emits_run.
Qed.

Lemma emits_write_redefine r :
  emits is_redefine_line (write_redefine ov r).
Proof. unfold write_redefine. emits_run. Qed.

Lemma emits_write_operations tb ignored :
  emits is_operation_line (write_operations ov tb ignored).
Proof. unfold write_operations, write_operation. emits_run. Qed.

End Passes.

Lemma in_passes_all k ks seg :
  Forall (fun l => k l = true) seg -> in_passes (k :: ks) seg.
Proof.
  induction 1 as [|l seg Hl _ IH]; [apply in_passes_nil|].
  by apply in_passes_here.
Qed.

Lemma in_passes_app k ks seg1 seg2 :
  Forall (fun l => k l = true) seg1 ->
  in_passes (k :: ks) seg2 ->
  in_passes (k :: ks) (seg1 ++ seg2).
Proof.
  intros H1 H2. induction H1 as [|l seg1 Hl _ IH]; cbn; [done|].
  by apply in_passes_here.
Qed.

Lemma passes_same {A B} k ks (m : M A) (f : A -> M B) :
  emits k m ->
  (forall a, emits_in_passes (k :: ks) (f a)) ->
  emits_in_passes (k :: ks) (bind m f).
Proof.
  intros Hm Hf s. unfold bind. destruct (Hm s) as (seg1 & E1 & F1).
  destruct (m s) as [a s1|e s1]; cbn in E1.
  - destruct (Hf a s1) as (seg2 & E2 & F2). exists (seg1 ++ seg2).
    rewrite E2, E1, app_assoc. split; [done|]. by apply in_passes_app.
  - exists seg1. split; [done|]. by apply in_passes_all.
Qed.

Lemma passes_next {A} k ks (m : M A) :
  emits_in_passes ks m -> emits_in_passes (k :: ks) m.
Proof.
  intros Hm s. destruct (Hm s) as (seg & E & F). exists seg.
  split; [done|]. by constructor.
Qed.

Lemma passes_last {A} k ks (m : M A) :
  emits k m -> emits_in_passes (k :: ks) m.
Proof.
  intros Hm s. destruct (Hm s) as (seg & E & F). exists seg.
  split; [done|]. by apply in_passes_all.
Qed.

(** The lines of [generate] come in the order of its passes. *)
Lemma generate_emits_in_passes
    ov literal_eval int_of_str all_elements fuel :
  emits_in_passes passes
    (generate ov literal_eval int_of_str all_elements fuel).
Proof.
  unfold generate, passes.
  apply passes_same; [apply emits_build_tables|]. intros tb.
  apply passes_same; [by apply emits_write|]. intros _.
  apply passes_next.
  apply passes_same; [apply emits_for_each; intros; apply emits_tag_class|].
  intros _. apply passes_next.
  apply passes_same; [apply emits_write_classdefs|]. intros ignored.
  apply passes_next.
  apply passes_same; [apply emits_write_attributes|]. intros da.
  apply passes_next.
  apply passes_same.
  { apply emits_fold_each. intros. apply emits_write_association_ends. }
  intros r.
  apply passes_same; [apply emits_for_each; intros; apply emits_link_subsets|].
  intros _. apply passes_next.
  apply passes_same;
    [apply emits_for_each; intros; apply emits_write_attribute|].
  intros _. apply passes_next.
  apply passes_same;
    [apply emits_for_each; intros; apply emits_write_derivedunion|].
  intros _. apply passes_next.
  apply passes_same.
  { apply emits_for_each. intros x. apply emits_bind; [emits_run|].
    intros o. apply emits_bind; [emits_run|]. intros.
    apply emits_write_redefine. }
  intros _. apply passes_next.
  apply passes_last. apply emits_write_operations.
Qed.

(** C5, as the code has it: whatever the input, the registry and the
    outcome of the run (normal or a fault), the lines that [generate]
    writes come in the order of its passes: header, stereotype comments,
    class definitions, attributes, associations together with the simple
    attributes folded into attributes, deferred derived attributes,
    derived unions, redefinitions, operations.  The output is a function
    of the input and the registry. *)
Theorem generate_output_in_passes
    ov literal_eval int_of_str all_elements fuel s :
  exists seg,
    out (final_state (generate ov literal_eval int_of_str all_elements fuel s))
    = out s ++ seg
    /\ in_passes passes seg.
Proof. apply generate_emits_in_passes. Qed.

(** C5 fails as stated: the association [A.b] is written before the
    simple attribute [A.s], an attribute line of the association pass. *)
Lemma attribute_line_after_association_line :
  let r := generate no_overrides flag_literal flag_int
             association_then_attribute_model 5 init_state in
  succeeded r = true
  /\ out (final_state r) !! 4%nat
     = Some (Assign "A.b" (Dassociation "b" "B" None None false None))
  /\ out (final_state r) !! 6%nat
     = Some (Assign "A.s" (Dattribute "s" "str" [])).
Proof. vm_compute. done. Qed.

(** Every line of an output in passes is a line of one of them. *)
Lemma in_passes_member ks ls j l :
  in_passes ks ls -> ls !! j = Some l -> exists k, k ∈ ks /\ k l = true.
Proof.
  intros H. revert j. induction H as [ks|k ks l0 ls Hk _ IH|k ks ls _ IH];
    intros j Hj.
  - done.
  - destruct j as [|j]; cbn in Hj.
    + simplify_eq. exists k. split; [apply list_elem_of_here|done].
    + eauto.
  - destruct (IH j Hj) as (k' & Hin & Hk'). exists k'.
    split; [by apply list_elem_of_further|done].
Qed.

(** A line that only the passes from number [p] on can write stands after
    every line that only the passes before [p] can write. *)
Lemma in_passes_order ks ls p i j la lb :
  in_passes ks ls ->
  Forall (fun k => k la = false) (take p ks) ->
  Forall (fun k => k lb = false) (drop p ks) ->
  ls !! i = Some la ->
  ls !! j = Some lb ->
  (j < i)%nat.
Proof.
  intros H. revert p i j.
  induction H as [ks|k ks l0 ls Hk H IH|k ks ls H IH]; intros p i j Ha Hb Hi Hj.
  - done.
  - destruct i as [|i]; cbn in Hi.
    + simplify_eq. destruct p as [|p].
      * destruct (in_passes_member (k :: ks) (la :: ls) j lb)
          as (k' & Hin & Hk'); [by constructor|done|].
        rewrite drop_0 in Hb. rewrite Forall_forall in Hb.
        specialize (Hb k' Hin). congruence.
      * cbn in Ha. apply Forall_cons in Ha as [Ha _]. congruence.
    + destruct j as [|j]; [lia|]. cbn in Hj.
      specialize (IH p i j Ha Hb Hi Hj). lia.
  - destruct p as [|p].
    + destruct (in_passes_member ks ls j lb H Hj) as (k' & Hin & Hk').
      rewrite drop_0 in Hb. rewrite Forall_forall in Hb.
      specialize (Hb k' (list_elem_of_further _ _ _ Hin)). congruence.
    + cbn in Ha, Hb. apply Forall_cons in Ha as [_ Ha]. eauto.
Qed.

(** In the output of [generate] the class definitions stand before the
    association descriptors, and these before the derived unions. *)
Corollary class_definitions_before_associations
    ov literal_eval int_of_str all_elements fuel i j c n b key d1 d2 d3 d4 d5 d6 :
  let ls := out (final_state (generate ov literal_eval int_of_str
                                all_elements fuel init_state)) in
  ls !! j = Some (ClassDef c n b) ->
  ls !! i = Some (Assign key (Dassociation d1 d2 d3 d4 d5 d6)) ->
  (j < i)%nat.
Proof.
  intros ls Hj Hi.
  destruct (generate_emits_in_passes ov literal_eval int_of_str all_elements
              fuel init_state) as (seg & E & H).
  cbn in E. fold ls in E. subst seg.
  eapply (in_passes_order passes ls 4); [done| | |done|done];
    repeat constructor.
Qed.

Corollary associations_before_derived_unions
    ov literal_eval int_of_str all_elements fuel i j key d1 d2 d3 d4 d5 d6
    key' u1 u2 u3 u4 u5 :
  let ls := out (final_state (generate ov literal_eval int_of_str
                                all_elements fuel init_state)) in
  ls !! j = Some (Assign key (Dassociation d1 d2 d3 d4 d5 d6)) ->
  ls !! i = Some (Assign key' (Dderivedunion u1 u2 u3 u4 u5)) ->
  (j < i)%nat.
Proof.
  intros ls Hj Hi.
  destruct (generate_emits_in_passes ov literal_eval int_of_str all_elements
              fuel init_state) as (seg & E & H).
  cbn in E. fold ls in E. subst seg.
  eapply (in_passes_order passes ls 6); [done| | |done|done];
    repeat constructor.
Qed.

(** ** From the input to the class definition pass *)

Lemma bind_Ok_inv {A B} (m : M A) (k : A -> M B) s b s' :
  bind m k s = Ok b s' -> exists a s1, m s = Ok a s1 /\ k a s1 = Ok b s'.
Proof. unfold bind. destruct (m s) as [a s1|]; [eauto|done]. Qed.

Lemma fold_each_ok_inv {A B} (I : B -> state -> Prop) (l : list A)
    (f : B -> A -> M B) :
  (forall b x s b' s', x ∈ l -> I b s -> f b x s = Ok b' s' -> I b' s') ->
  forall b s r s', I b s -> fold_each l f b s = Ok r s' -> I r s'.
Proof.
  induction l as [|x l IH]; intros Hf b s r s' Hb Hrun; cbn in Hrun.
  - unfold ret in Hrun. by simplify_eq.
  - apply bind_Ok_inv in Hrun as (b' & s1 & H1 & H2).
    eapply IH; [| |exact H2].
    + intros ??????. eapply Hf; [by apply list_elem_of_further|done..].
    + eapply Hf; [apply list_elem_of_here|done..].
Qed.

Lemma for_each_ok_inv {A} (I : state -> Prop) (l : list A) (f : A -> M unit) :
  (forall x s s', x ∈ l -> I s -> f x s = Ok tt s' -> I s') ->
  forall s s', I s -> for_each l f s = Ok tt s' -> I s'.
Proof.
  induction l as [|x l IH]; intros Hf s s' Hs Hrun; cbn in Hrun.
  - unfold ret in Hrun. by simplify_eq.
  - apply bind_Ok_inv in Hrun as ([] & s1 & H1 & H2).
    eapply IH; [| |exact H2].
    + intros ?????. eapply Hf; [by apply list_elem_of_further|done..].
    + eapply Hf; [apply list_elem_of_here|done..].
Qed.

Section Framed.

Context (R : relation state) `{!PreOrder R}.

Lemma framed_ok {A} (m : M A) s a s' : framed R m -> m s = Ok a s' -> R s s'.
Proof. intros Hm E. specialize (Hm s). by rewrite E in Hm. Qed.

Lemma framed_ret {A} (a : A) : framed R (ret a).
Proof. intros s. reflexivity. Qed.

Lemma framed_raise {A} f : framed R (@raise A f).
Proof. intros s. reflexivity. Qed.

Lemma framed_bind {A B} (m : M A) (f : A -> M B) :
  framed R m -> (forall a, framed R (f a)) -> framed R (bind m f).
Proof.
  intros Hm Hf s. unfold bind. specialize (Hm s).
  destruct (m s) as [a s1|e s1]; cbn in Hm; [|done].
  etrans; [exact Hm|apply Hf].
Qed.

Lemma framed_for_each {A} (l : list A) f :
  (forall x, framed R (f x)) -> framed R (for_each l f).
Proof.
  intros Hf. induction l; cbn; [apply framed_ret|]. by apply framed_bind.
Qed.

Lemma framed_fold_each {A B} (l : list A) (f : B -> A -> M B) b :
  (forall b x, framed R (f b x)) -> framed R (fold_each l f b).
Proof.
  intros Hf. revert b. induction l; intros b; cbn; [apply framed_ret|].
  by apply framed_bind.
Qed.

Lemma framed_from_option {A} f (o : option A) : framed R (from_option f o).
Proof. destruct o; [apply framed_ret|apply framed_raise]. Qed.

Lemma framed_item keys o : framed R (item keys o).
Proof.
  destruct o; cbn; [|apply framed_raise].
  destruct (bool_decide _); [apply framed_ret|apply framed_raise].
Qed.

Lemma framed_get_class c : framed R (get_class c).
Proof. intros s. unfold get_class. destruct (_ !! _); reflexivity. Qed.

Lemma framed_get_prop p : framed R (get_prop p).
Proof. intros s. unfold get_prop. destruct (_ !! _); reflexivity. Qed.

Lemma framed_is_resolved v a : framed R (is_resolved v a).
Proof. intros s. reflexivity. Qed.

End Framed.

#[export] Instance quiet_preorder : PreOrder quiet.
Proof.
  split.
  - by intros s.
  - intros s1 s2 s3 [H1 H2] [H3 H4]. split; congruence.
Qed.

#[export] Instance restyled_preorder : PreOrder restyled.
Proof.
  split.
  - by intros s d.
  - intros s1 s2 s3 H1 H2 d. by rewrite H2, H1.
Qed.

Lemma quiet_put_prop p o : framed quiet (put_prop p o).
Proof. by intros s. Qed.

Lemma quiet_mark_resolved v a : framed quiet (mark_resolved v a).
Proof. by intros s. Qed.

Lemma quiet_update_prop p f : framed quiet (update_prop p f).
Proof.
  apply framed_bind; [apply _|apply framed_get_prop, _|].
  intros. apply quiet_put_prop.
Qed.

Lemma restyled_write l : framed restyled (write l).
Proof. by intros s d. Qed.

Lemma restyled_tag c tag : framed restyled (update_class c (set_stereotypeName tag)).
Proof.
  intros s. unfold update_class, bind, get_class.
  destruct (classes_st s !! c) as [o|] eqn:Hc; [|done].
  intros d. cbn. destruct (decide (c = d)) as [->|Hne].
  - by rewrite lookup_insert_eq, Hc.
  - by rewrite lookup_insert_ne.
Qed.

(** One step of the analysis of a framed run. *)
Ltac framed_step :=
  lazymatch goal with
  | |- framed _ (bind _ _) => apply framed_bind; [apply _| |intros ?]
  | |- framed _ (ret _) => apply framed_ret; apply _
  | |- framed _ (raise _) => apply framed_raise; apply _
  | |- framed _ (get_class _) => apply framed_get_class; apply _
  | |- framed _ (get_prop _) => apply framed_get_prop; apply _
  | |- framed _ (is_resolved _ _) => apply framed_is_resolved; apply _
  | |- framed _ (from_option _ _) => apply framed_from_option; apply _
  | |- framed _ (item _ _) => apply framed_item; apply _
  | |- framed quiet (put_prop _ _) => apply quiet_put_prop
  | |- framed quiet (update_prop _ _) => apply quiet_update_prop
  | |- framed quiet (mark_resolved _ _) => apply quiet_mark_resolved
  | |- framed restyled (write _) => apply restyled_write
  | |- framed restyled (update_class _ (set_stereotypeName _)) =>
      apply restyled_tag
  | |- framed _ (for_each _ _) => apply framed_for_each; [apply _|intros ?]
  | |- framed _ (fold_each _ _ _) =>
      apply framed_fold_each; [apply _|intros ? ?]
  | |- framed _ (if ?b then _ else _) => destruct b
  | |- framed _ (match ?x with _ => _ end) => destruct x
  end.

Ltac framed_run := repeat framed_step.

Section BuildTables.

Variable all_elements : dict ident element.

Lemma quiet_element_at r : framed quiet (element_at all_elements r).
Proof. unfold element_at. framed_run. Qed.

Lemma quiet_resolve val attr : framed quiet (resolve all_elements val attr).
Proof. unfold resolve. framed_run; apply quiet_element_at. Qed.

Lemma classify_classified tb kv s tb' s' :
  classified all_elements tb s ->
  kv ∈ all_elements ->
  classify all_elements tb kv s = Ok tb' s' ->
  classified all_elements tb' s'.
Proof.
  intros (Hout & Hkeys & Hfresh & Hgen) Hin. destruct kv as [key val].
  unfold classify. cbn [fst snd]. destruct val; intros H;
    try (unfold ret in H; simplify_eq; done).
  - destruct (Py.truthy_opt name);
      [|unfold ret in H; by simplify_eq].
    destruct (_ || _); [unfold ret in H; by simplify_eq|].
    unfold bind, put_class, ret in H. simplify_eq. split_and!; cbn.
    + done.
    + intros c [Hc| ->%list_elem_of_singleton]%elem_of_app.
      * apply lookup_insert_is_Some'. auto.
      * rewrite lookup_insert_eq. eauto.
    + by apply map_Forall_insert_2.
    + done.
  - unfold ret in H. simplify_eq. split_and!; cbn; try done.
    intros sp ge [Hg|Heq%list_elem_of_singleton]%elem_of_app; [eauto|].
    simplify_eq. eauto.
  - apply bind_Ok_inv in H as ([] & s1 & H1 & H).
    apply bind_Ok_inv in H as ([] & s2 & H2 & H).
    apply bind_Ok_inv in H as ([] & s3 & H3 & H).
    unfold ret in H. simplify_eq.
    assert (quiet s s') as [Hq1 Hq2].
    { etrans; [eapply (framed_ok quiet); [|exact H1]; apply quiet_put_prop|].
      etrans; [eapply (framed_ok quiet); [|exact H2]; apply quiet_resolve|].
      eapply (framed_ok quiet); [|exact H3].
      framed_run; apply quiet_resolve. }
    split_and!; cbn; by rewrite ?Hq1, ?Hq2.
Qed.

Lemma item_ok_inv keys o k s s' :
  item keys o s = Ok k s' -> o = Some k /\ k ∈ keys /\ s' = s.
Proof.
  unfold item. destruct o as [k'|]; [|done]. case_bool_decide; [|done].
  unfold ret. intros ?. by simplify_eq.
Qed.

Lemma update_class_ok_inv c f s s' :
  update_class c f s = Ok tt s' ->
  exists o, classes_st s !! c = Some o
            /\ classes_st s' = <[c := f o]> (classes_st s)
            /\ out s' = out s.
Proof.
  unfold update_class, bind, get_class, put_class.
  destruct (classes_st s !! c) as [o|]; [|done]. intros ?. simplify_eq.
  eauto.
Qed.

Lemma wired_update edges h c o' :
  wired edges h ->
  is_Some (h !! c) ->
  c_written o' = false ->
  Forall (fun g => is_Some (h !! g) /\ (Some c, Some g) ∈ edges)
    (generalization o') ->
  Forall (fun d => is_Some (h !! d) /\ (Some d, Some c) ∈ edges)
    (specialization o') ->
  wired edges (<[c := o']> h).
Proof.
  intros W Hc Hw Hg Hs d od Hd.
  assert (forall g, is_Some (h !! g) -> is_Some (<[c := o']> h !! g)) as Hmono.
  { intros g Hsome. apply lookup_insert_is_Some'. auto. }
  destruct (decide (c = d)) as [->|Hne].
  - rewrite lookup_insert_eq in Hd. simplify_eq. split_and!; [done| |].
    + eapply Forall_impl; [exact Hg|]. intros g [? ?]. auto.
    + eapply Forall_impl; [exact Hs|]. intros g [? ?]. auto.
  - rewrite lookup_insert_ne in Hd by done.
    destruct (W d od Hd) as (? & Hgd & Hsd). split_and!; [done| |].
    + eapply Forall_impl; [exact Hgd|]. intros g [? ?]. auto.
    + eapply Forall_impl; [exact Hsd|]. intros g [? ?]. auto.
Qed.

Lemma link_generalization_linked keys edges g s s' :
  linked keys edges s ->
  g ∈ edges ->
  link_generalization keys g s = Ok tt s' ->
  linked keys edges s'.
Proof.
  intros (Hout & Hkeys & W) Hin H. unfold link_generalization in H.
  apply bind_Ok_inv in H as (sp & s1 & H1 & H).
  apply item_ok_inv in H1 as (Hsp & Hspk & ->).
  apply bind_Ok_inv in H as (ge & s1 & H1 & H).
  apply item_ok_inv in H1 as (Hge & Hgek & ->).
  apply bind_Ok_inv in H as ([] & s1 & H1 & H).
  apply update_class_ok_inv in H1 as (osp & Hosp & Hs1 & Ho1).
  apply update_class_ok_inv in H as (oge & Hoge & Hs2 & Ho2).
  assert ((Some sp, Some ge) ∈ edges) as Hedge.
  { destruct g as [a b]. cbn in Hsp, Hge. by simplify_eq. }
  assert (wired edges (classes_st s1)) as W1.
  { destruct (W sp osp Hosp) as (? & ? & ?).
    rewrite Hs1. apply wired_update; [done|eauto|done| |done].
    cbn. apply Forall_app. split; [done|].
    apply Forall_singleton. split; [by apply Hkeys|done]. }
  assert (is_Some (classes_st s1 !! sp)) as Hsp1.
  { rewrite Hs1. apply lookup_insert_is_Some'. auto. }
  split_and!.
  - congruence.
  - intros c Hc. rewrite Hs2, Hs1.
    apply lookup_insert_is_Some'. right.
    apply lookup_insert_is_Some'. auto.
  - destruct (W1 ge oge Hoge) as (? & ? & ?).
    rewrite Hs2. apply wired_update; [done|eauto|done|done|].
    cbn. apply Forall_app. split; [done|].
    by apply Forall_singleton.
Qed.

Lemma quiet_enumeration_values properties e :
  framed quiet (enumeration_values properties e).
Proof. unfold enumeration_values. framed_run. Qed.

Lemma quiet_remove_metaclass classes memberEnd :
  framed quiet (remove_metaclass all_elements classes memberEnd).
Proof.
  unfold remove_metaclass.
  apply framed_bind; [apply _|framed_run|]. intros l.
  apply framed_bind; [apply _| |intros; framed_run].
  apply framed_fold_each; [apply _|]. intros ends e. unfold extension_end.
  apply framed_bind; [apply _|apply quiet_element_at|]. intros el.
  destruct el; framed_run.
Qed.

Lemma remove_metaclass_subset classes memberEnd s classes' s' :
  remove_metaclass all_elements classes memberEnd s = Ok classes' s' ->
  classes' ⊆ classes.
Proof.
  unfold remove_metaclass. intros H.
  apply bind_Ok_inv in H as (l & s1 & _ & H).
  apply bind_Ok_inv in H as (ends & s2 & _ & H).
  destruct ends as [|t ends].
  - unfold ret in H. by simplify_eq.
  - apply bind_Ok_inv in H as (? & s3 & _ & H). unfold ret in H.
    simplify_eq. intros c Hc. apply list_elem_of_filter in Hc. tauto.
Qed.

(** After [build_tables] nothing is written, the classes of the table are
    live and unwritten, and their generalizations are live classes linked
    by a [Generalization] of the input. *)
Lemma build_tables_linked s0 tb s :
  out s0 = [] ->
  classes_st s0 = ∅ ->
  build_tables all_elements s0 = Ok tb s ->
  linked (classes tb) (generalizations tb) s
  /\ (forall sp ge, (sp, ge) ∈ generalizations tb ->
                    exists key, (key, Generalization sp ge) ∈ all_elements).
Proof.
  intros Hout Hcls H. unfold build_tables in H.
  apply bind_Ok_inv in H as (tb0 & s1 & H1 & H).
  apply (fold_each_ok_inv (classified all_elements)) in H1.
  2:{ intros. by eapply classify_classified. }
  2:{ split_and!; try done.
      - by intros c ?%elem_of_nil.
      - rewrite Hcls. apply map_Forall_empty.
      - by intros sp ge ?%elem_of_nil. }
  destruct H1 as (Ho1 & Hk1 & Hf1 & Hg1).
  apply bind_Ok_inv in H as ([] & s2 & H2 & H).
  apply (for_each_ok_inv (linked (classes tb0) (generalizations tb0))) in H2.
  2:{ intros. by eapply link_generalization_linked. }
  2:{ split_and!; try done. intros c o Hc.
      destruct (Hf1 c o Hc) as (? & -> & ->). split_and!; [done|constructor..]. }
  apply bind_Ok_inv in H as (enums & s3 & H3 & H).
  apply bind_Ok_inv in H as (cls & s4 & H4 & H).
  unfold ret in H. simplify_eq. cbn [classes generalizations].
  assert (quiet s2 s3) as [Hq1 Hq2].
  { eapply (framed_ok quiet); [|exact H3].
    apply framed_fold_each; [apply _|]. intros acc kv.
    apply framed_bind; [apply _|apply quiet_enumeration_values|].
    intros. framed_run. }
  assert (quiet s3 s) as [Hq3 Hq4].
  { eapply (framed_ok quiet); [|exact H4].
    apply framed_fold_each; [apply _|]. intros.
    apply quiet_remove_metaclass. }
  assert (cls ⊆ classes tb0) as Hsub.
  { eapply (fold_each_ok_inv (fun c _ => c ⊆ classes tb0)); [| |exact H4].
    - intros b x sa b' sb _ Hb Hrm. etrans; [|exact Hb].
      by eapply remove_metaclass_subset.
    - done. }
  destruct H2 as (Ho2 & Hk2 & W2). split; [|done]. split_and!.
  - congruence.
  - intros c Hc. rewrite Hq3, Hq1. apply Hk2, Hsub, Hc.
  - by rewrite Hq3, Hq1.
Qed.

End BuildTables.

Lemma restyled_tag_children fuel tag me :
  framed restyled (tag_children fuel tag me).
Proof.
  revert me. induction fuel as [|n IH]; intros me; cbn [tag_children].
  - framed_run.
  - framed_run. apply IH.
Qed.

Lemma restyled_tag_class all_elements fuel c :
  framed restyled (tag_class all_elements fuel c).
Proof.
  unfold tag_class. apply framed_bind; [apply _|framed_run|]. intros o.
  destruct (c_appliedStereotype o) as [[|i l]|]; try (framed_run; fail).
  unfold element_at.
  apply framed_bind; [apply _|framed_run|]. intros inst.
  apply framed_bind; [apply _|destruct inst; framed_run|]. intros cl.
  apply framed_bind; [apply _|framed_run|]. intros st.
  framed_run. apply restyled_tag_children.
Qed.

Lemma same_graph_lookup h h' d o :
  same_graph h h' -> h !! d = Some o ->
  exists o', h' !! d = Some o' /\ skeleton o' = skeleton o.
Proof.
  intros G Hd. specialize (G d). rewrite Hd in G.
  destruct (h' !! d) as [o'|]; [|done]. cbn in G.
  exists o'. split; [done|]. congruence.
Qed.

Lemma same_graph_sym h h' : same_graph h h' -> same_graph h' h.
Proof. intros G d. by rewrite G. Qed.

Lemma wired_same_graph edges h h' :
  same_graph h h' -> wired edges h -> wired edges h'.
Proof.
  intros G W d o' Hd.
  destruct (same_graph_lookup _ _ _ _ (same_graph_sym _ _ G) Hd)
    as (o & Ho & Hsk).
  unfold skeleton in Hsk. simplify_eq. destruct (W d o Ho) as (Hw & Hg & Hs).
  assert (forall g, is_Some (h !! g) -> is_Some (h' !! g)) as Hlive.
  { intros g [og Hog].
    destruct (same_graph_lookup _ _ _ _ G Hog) as (? & ? & _). eauto. }
  split_and!; [congruence| |].
  - replace (generalization o') with (generalization o) by congruence.
    eapply Forall_impl; [exact Hg|]. intros g [? ?]. auto.
  - replace (specialization o') with (specialization o) by congruence.
    eapply Forall_impl; [exact Hs|]. intros g [? ?]. auto.
Qed.

Lemma wired_children_live edges h : wired edges h -> children_live h.
Proof.
  intros W c o child Hc Hin. destruct (W c o Hc) as (_ & _ & Hs).
  rewrite Forall_forall in Hs. by destruct (Hs child Hin).
Qed.

(** After [build_tables] on an input without cycles the specializations
    are live and acyclic, as [tag_children_visits_every_path] asks; the
    tagging keeps them so. *)
Lemma build_tables_specializations all_elements rank bound tb s :
  input_acyclic all_elements rank ->
  (forall c, (rank c <= bound)%nat) ->
  build_tables all_elements init_state = Ok tb s ->
  children_live (classes_st s)
  /\ specialization_acyclic (classes_st s) (fun c => (bound - rank c)%nat).
Proof.
  intros Hacyc Hbound H.
  apply build_tables_linked in H as [(_ & _ & W) Hg]; [|done..].
  split; [by eapply wired_children_live|].
  intros c o child Hc Hin. destruct (W c o Hc) as (_ & _ & Hs).
  rewrite Forall_forall in Hs. destruct (Hs child Hin) as [_ He].
  destruct (Hg _ _ He) as [key Hkey].
  pose proof (Hacyc _ _ _ Hkey). pose proof (Hbound child). lia.
Qed.

Lemma restyled_children_live s s' :
  restyled s s' -> children_live (classes_st s) ->
  children_live (classes_st s').
Proof.
  intros G L c o' child Hc Hin.
  destruct (same_graph_lookup _ _ _ _ (same_graph_sym _ _ G) Hc)
    as (o & Ho & Hsk).
  unfold skeleton in Hsk. simplify_eq.
  replace (specialization o') with (specialization o) in Hin by congruence.
  destruct (L _ _ _ Ho Hin) as [oc Hoc].
  destruct (same_graph_lookup _ _ _ _ G Hoc) as (? & ? & _). eauto.
Qed.

Lemma restyled_specialization_acyclic s s' rank :
  restyled s s' -> specialization_acyclic (classes_st s) rank ->
  specialization_acyclic (classes_st s') rank.
Proof.
  intros G A c o' child Hc Hin.
  destruct (same_graph_lookup _ _ _ _ (same_graph_sym _ _ G) Hc)
    as (o & Ho & Hsk).
  unfold skeleton in Hsk. simplify_eq.
  replace (specialization o') with (specialization o) in Hin by congruence.
  eauto.
Qed.

(** The state at the start of the class definition pass. *)
Lemma prepare_linked all_elements fuel tb s :
  prepare all_elements fuel init_state = Ok tb s ->
  wired (generalizations tb) (classes_st s)
  /\ (forall c, c ∈ classes tb -> is_Some (classes_st s !! c))
  /\ Forall (fun l => is_class_line l = false) (out s)
  /\ (forall sp ge, (sp, ge) ∈ generalizations tb ->
                    exists key, (key, Generalization sp ge) ∈ all_elements).
Proof.
  unfold prepare. intros H.
  apply bind_Ok_inv in H as (tb0 & s1 & H1 & H).
  apply build_tables_linked in H1 as [(Ho1 & Hk1 & W1) Hg1]; [|done..].
  apply bind_Ok_inv in H as ([] & s2 & H2 & H).
  unfold write in H2. simplify_eq.
  apply bind_Ok_inv in H as ([] & s3 & H3 & H).
  unfold ret in H. simplify_eq.
  assert (restyled {| out := out s1 ++ [Header]; log := log s1;
                      classes_st := classes_st s1; props_st := props_st s1;
                      resolved := resolved s1 |} s) as G.
  { eapply (framed_ok restyled); [|exact H3].
    apply framed_for_each; [apply _|]. intros.
    apply restyled_tag_class. }
  unfold restyled in G. cbn in G.
  destruct (emits_for_each is_stereotype_line (classes tb)
              (tag_class all_elements fuel)
              (fun c => emits_tag_class all_elements fuel c)
              {| out := out s1 ++ [Header]; log := log s1;
                 classes_st := classes_st s1; props_st := props_st s1;
                 resolved := resolved s1 |}) as (seg & E & F).
  rewrite H3 in E. cbn in E. split_and!.
  - by eapply wired_same_graph.
  - intros c Hc. destruct (Hk1 c Hc) as [o Ho].
    destruct (same_graph_lookup _ _ _ _ G Ho) as (? & ? & _). eauto.
  - rewrite E, Ho1. cbn. constructor; [done|].
    eapply Forall_impl; [exact F|]. by intros [].
  - done.
Qed.

Lemma generate_decompose ov literal_eval int_of_str all_elements fuel s0 :
  generate ov literal_eval int_of_str all_elements fuel s0
  = (do tb <- prepare all_elements fuel;
     do ignored_classes <- write_classdefs ov fuel (classes tb);
     emit_features ov literal_eval int_of_str all_elements fuel tb
       ignored_classes) s0.
Proof.
  unfold generate, prepare, emit_features, bind.
  destruct (build_tables all_elements s0) as [tb s1|]; [|done].
  destruct (write Header s1) as [[] s2|]; [|done].
  destruct (for_each _ _ s2) as [[] s3|]; done.
Qed.

Lemma emits_emit_features
    ov literal_eval int_of_str all_elements fuel tb ignored :
  emits is_feature_line
    (emit_features ov literal_eval int_of_str all_elements fuel tb ignored).
Proof.
  unfold emit_features.
  apply emits_bind.
  { eapply emits_weaken; [|apply emits_write_attributes].
    by intros [| | | | | |? []]. }
  intros da. apply emits_bind.
  { apply emits_fold_each. intros.
    eapply emits_weaken; [|apply emits_write_association_ends].
    by intros [| | | | | |? []]. }
  intros r. apply emits_bind.
  { apply emits_for_each. intros. apply emits_link_subsets. }
  intros _. apply emits_bind.
  { apply emits_for_each. intros.
    eapply emits_weaken; [|apply emits_write_attribute].
    by intros [| | | | | |? []]. }
  intros _. apply emits_bind.
  { apply emits_for_each. intros.
    eapply emits_weaken; [|apply emits_write_derivedunion].
    by intros [| | | | | |? []]. }
  intros _. apply emits_bind.
  { apply emits_for_each. intros x. apply emits_bind; [emits_run|].
    intros o. apply emits_bind; [emits_run|]. intros.
    eapply emits_weaken; [|apply emits_write_redefine].
    by intros [| | | | | |? []]. }
  intros _. eapply emits_weaken; [|apply emits_write_operations].
  by intros [| | | | | |? []].
Qed.

Lemma decl_count_features c ls :
  Forall (fun l => is_feature_line l = true) ls -> decl_count c ls = 0%nat.
Proof.
  intros H. apply no_class_line_count.
  eapply Forall_impl; [exact H|]. intros l. unfold is_feature_line.
  by destruct (is_class_line l).
Qed.

(** C1: if the generalizations of the input have no cycle and the stages
    before the class definitions run without a fault, then in the output
    of [generate] every class of the emission set (the classes of the
    table that are not tagged [SimpleAttribute]) is declared exactly once,
    by its synthesized line or by the text of its override; no class is
    declared twice, and the declaration of a class stands after the
    declaration of each of its generalizations. *)
Theorem classdefs_once_parents_first
    ov literal_eval int_of_str all_elements rank fuel tb s :
  input_acyclic all_elements rank ->
  (forall c, (rank c < fuel)%nat) ->
  prepare all_elements fuel init_state = Ok tb s ->
  let ls := out (final_state (generate ov literal_eval int_of_str
                                all_elements fuel init_state)) in
  (forall c o, c ∈ classes tb -> classes_st s !! c = Some o ->
               stereotypeName o ≠ Some "SimpleAttribute" ->
               decl_count c ls = 1%nat)
  /\ (forall c, (decl_count c ls <= 1)%nat)
  /\ (forall c o g, classes_st s !! c = Some o ->
                    g ∈ generalization o ->
                    decl_count c ls = 1%nat ->
                    declared_before g c ls).
Proof.
  intros Hacyc Hfuel Hprep ls.
  destruct (prepare_linked _ _ _ _ Hprep) as (W & Hk & Hout & Hg).
  destruct (classdefs_pass_correct ov rank fuel (classes tb) s)
    as (ignored & s' & Hrun & H1 & H2 & H3).
  { intros c o g Hc Hin. destruct (W c o Hc) as (_ & Hgen & _).
    rewrite Forall_forall in Hgen. by destruct (Hgen g Hin). }
  { intros c o g Hc Hin. destruct (W c o Hc) as (_ & Hgen & _).
    rewrite Forall_forall in Hgen. destruct (Hgen g Hin) as [_ He].
    destruct (Hg _ _ He) as [key Hkey]. by eapply Hacyc. }
  { intros c o Hc. by destruct (W c o Hc). }
  { done. }
  { apply Forall_forall. intros c Hc. split; [by apply Hk|apply Hfuel]. }
  destruct (emits_emit_features ov literal_eval int_of_str all_elements fuel
              tb ignored s') as (seg & E & F).
  assert (ls = out s' ++ seg) as ->.
  { unfold ls. rewrite generate_decompose. unfold bind at 1. rewrite Hprep.
    unfold bind at 1. by rewrite Hrun. }
  assert (forall c, decl_count c (out s' ++ seg) = decl_count c (out s')) as Hc.
  { intros c. rewrite decl_count_app, (decl_count_features c seg F). lia. }
  split_and!.
  - intros c o Hin Ho Hn. rewrite Hc. eauto.
  - intros c. by rewrite Hc.
  - intros c o g Ho Hin Hcount. rewrite Hc in Hcount.
    apply declared_before_app. eauto.
Qed.

Lemma classdefs_once_parents_first_witness :
  exists tb s,
    prepare diamond_model 3 init_state = Ok tb s
    /\ let ls := out (final_state (generate no_overrides flag_literal flag_int
                                     diamond_model 3 init_state)) in
       (forall c o, c ∈ classes tb -> classes_st s !! c = Some o ->
                    stereotypeName o ≠ Some "SimpleAttribute" ->
                    decl_count c ls = 1%nat)
       /\ (forall c, (decl_count c ls <= 1)%nat)
       /\ (forall c o g, classes_st s !! c = Some o ->
                         g ∈ generalization o ->
                         decl_count c ls = 1%nat ->
                         declared_before g c ls).
Proof.
  eexists _, _. split.
  - vm_compute. reflexivity.
  - apply (classdefs_once_parents_first no_overrides flag_literal flag_int
             diamond_model diamond_depth 3).
    + intros key sp ge Hin. vm_compute in Hin.
      repeat (apply elem_of_cons in Hin as [Hin|Hin];
              [try discriminate; injection Hin as -> -> ->; vm_compute; lia|]).
      by apply elem_of_nil in Hin.
    + intros c. unfold diamond_depth. repeat case_bool_decide; lia.
    + vm_compute. reflexivity.
Defined.

(** * Further properties *)

(** ** Names *)

Lemma to_lower_not_upper c : Py.is_upper (Py.to_lower c) = false.
Proof. destruct c as [[] [] [] [] [] [] [] []]; reflexivity. Qed.

Lemma to_lower_fixed c : Py.is_upper c = false -> Py.to_lower c = c.
Proof. unfold Py.to_lower. by intros ->. Qed.

Lemma lower_no_capital s :
  all_chars (fun c => negb (Py.is_upper c)) (Py.lower s) = true.
Proof.
  induction s as [|c s IH]; [done|]. cbn.
  by rewrite to_lower_not_upper, IH.
Qed.

Lemma no_capital_fixed s :
  all_chars (fun c => negb (Py.is_upper c)) s = true ->
  camelCase_to_underscore s = s.
Proof.
  unfold camelCase_to_underscore.
  induction s as [|c s IH]; [done|]. cbn.
  destruct (Py.is_upper c) eqn:Hc; [done|]. cbn. intros Hs.
  by rewrite (to_lower_fixed c Hc), IH.
Qed.

(** X1: the result of [camelCase_to_underscore] holds no capital letter,
    and the function leaves its own results unchanged. *)
Theorem camelCase_to_underscore_idempotent s :
  all_chars (fun c => negb (Py.is_upper c)) (camelCase_to_underscore s) = true
  /\ camelCase_to_underscore (camelCase_to_underscore s)
     = camelCase_to_underscore s.
Proof.
  assert (all_chars (fun c => negb (Py.is_upper c))
            (camelCase_to_underscore s) = true) as H
      by apply lower_no_capital.
  split; [done|]. by apply no_capital_fixed.
Qed.

Lemma lower_length s : String.length (Py.lower s) = String.length s.
Proof. induction s as [|c s IH]; [done|]. cbn. by rewrite IH. Qed.

(** X2: on an argument of ASCII text, the result of
    [camelCase_to_underscore] is longer than the argument by one
    character for each capital letter, and an argument without a capital
    letter is returned as it is. *)
Theorem camelCase_to_underscore_length s :
  all_chars is_ascii s = true ->
  String.length (camelCase_to_underscore s)
  = (String.length s + capitals s)%nat
  /\ (capitals s = 0%nat -> camelCase_to_underscore s = s).
Proof.
  intros _. split.
  - unfold camelCase_to_underscore. rewrite lower_length.
    induction s as [|c s IH]; [done|]. cbn.
    destruct (Py.is_upper c); cbn; rewrite IH; lia.
  - intros H0. apply no_capital_fixed.
    induction s as [|c s IH]; [done|]. cbn in *.
    destruct (Py.is_upper c); [lia|]. cbn. apply IH. lia.
Qed.

Lemma camelCase_to_underscore_length_witness :
  String.length (camelCase_to_underscore "camelCamelCase")
  = (String.length "camelCamelCase" + capitals "camelCamelCase")%nat
  /\ (capitals "camelCamelCase" = 0%nat ->
      camelCase_to_underscore "camelCamelCase" = "camelCamelCase").
Proof.
  apply (camelCase_to_underscore_length "camelCamelCase"). reflexivity.
Defined.

Example camelCase_to_underscore_doctest :
  camelCase_to_underscore "camelcase" = "camelcase"
  /\ camelCase_to_underscore "camelCase" = "camel_case"
  /\ camelCase_to_underscore "camelCamelCase" = "camel_camel_case".
Proof. repeat split. Qed.

Lemma skip_to_letter_split derived s :
  exists prefix,
    s = prefix +:+ (skip_to_letter derived s).2
    /\ all_chars (fun c => negb (is_alpha c)) prefix = true
    /\ (skip_to_letter derived s).1 = derived || has_char "/" prefix
    /\ starts_with_letter (skip_to_letter derived s).2 = true.
Proof.
  revert derived. induction s as [|c s IH]; intros derived.
  { exists "". cbn. by rewrite orb_false_r. }
  cbn [skip_to_letter]. destruct (is_alpha c) eqn:Hc.
  - exists "". cbn. by rewrite orb_false_r, Hc.
  - destruct (IH (derived || Ascii.eqb c "/")) as (p & Hs & Hp & Hd & Hl).
    exists (String c p). split_and!; [| |rewrite Hd|done].
    + exact (f_equal (String c) Hs).
    + cbn. by rewrite Hc, Hp.
    + change (has_char "/" (String c p))
        with (Ascii.eqb "/" c || has_char "/" p).
      by rewrite (Ascii.eqb_sym "/" c), orb_assoc.
Qed.

(** X3: [parse_association_name] splits the name without its spaces into
    a prefix without a letter, which it drops, and the name it returns,
    which is empty or begins with a letter; the flag it returns tells
    whether the prefix holds a slash. *)
Theorem parse_association_name_split name :
  exists prefix,
    Py.remove_char " " name = prefix +:+ (parse_association_name name).2
    /\ all_chars (fun c => negb (is_alpha c)) prefix = true
    /\ (parse_association_name name).1 = has_char "/" prefix
    /\ starts_with_letter (parse_association_name name).2 = true.
Proof.
  destruct (skip_to_letter_split false (Py.remove_char " " name))
    as (p & ? & ? & ? & ?).
  by exists p.
Qed.

Lemma remove_char_absent c s :
  has_char c s = false -> Py.remove_char c s = s.
Proof.
  induction s as [|d s IH]; [done|]. cbn.
  destruct (Ascii.eqb c d); [done|]. cbn. by intros ->%IH.
Qed.

Lemma has_char_removed c s : has_char c (Py.remove_char c s) = false.
Proof.
  induction s as [|d s IH]; [done|]. cbn.
  destruct (Ascii.eqb c d) eqn:E; [done|]. cbn. by rewrite E.
Qed.

Lemma has_char_app c s t :
  has_char c (s +:+ t) = has_char c s || has_char c t.
Proof.
  induction s as [|d s IH]; [done|].
  change (has_char c (String d s +:+ t))
    with (Ascii.eqb c d || has_char c (s +:+ t)).
  cbn [has_char]. by rewrite IH, orb_assoc.
Qed.

Lemma skip_to_letter_fixed s :
  starts_with_letter s = true -> skip_to_letter false s = (false, s).
Proof. destruct s as [|c s]; [done|]. cbn. by intros ->. Qed.

(** X4: the name that [parse_association_name] returns holds no space, and
    parsing it again returns it unchanged, as not derived. *)
Theorem parse_association_name_again name :
  has_char " " (parse_association_name name).2 = false
  /\ parse_association_name (parse_association_name name).2
     = (false, (parse_association_name name).2).
Proof.
  destruct (skip_to_letter_split false (Py.remove_char " " name))
    as (p & Hs & _ & _ & Hl).
  fold (parse_association_name name) in Hs, Hl.
  assert (has_char " " (parse_association_name name).2 = false) as Hn.
  { pose proof (has_char_removed " " name) as H. rewrite Hs in H.
    rewrite has_char_app in H. by apply orb_false_elim in H as [_ ?]. }
  split; [done|]. unfold parse_association_name at 1.
  rewrite (remove_char_absent _ _ Hn). by apply skip_to_letter_fixed.
Qed.

(** ** Values *)

Lemma to_lower_inv c x : Py.to_lower c = x -> c = x \/ c = Py.to_upper x.
Proof.
  intros <-.
  destruct c as [[] [] [] [] [] [] [] []];
    first [by left | by right].
Qed.

Ltac case_letter H :=
  apply to_lower_inv in H as [H|H]; vm_compute in H; subst.

Lemma lower_true d : Py.lower d = "true" -> Py.title d = "True".
Proof.
  destruct d as [|c1 [|c2 [|c3 [|c4 [|c5 d]]]]]; try done.
  cbn [Py.lower]. intros H. injection H as H1 H2 H3 H4.
  case_letter H1; case_letter H2; case_letter H3; case_letter H4;
    reflexivity.
Qed.

Lemma lower_false d : Py.lower d = "false" -> Py.title d = "False".
Proof.
  destruct d as [|c1 [|c2 [|c3 [|c4 [|c5 [|c6 d]]]]]]; try done.
  cbn [Py.lower]. intros H. injection H as H1 H2 H3 H4 H5.
  case_letter H1; case_letter H2; case_letter H3; case_letter H4;
    case_letter H5; reflexivity.
Qed.

(** X5: a default value that reads true or false in whatever mix of upper
    and lower case is emitted as [True] or [False]; every other default
    value is emitted as the model file gives it. *)
Theorem map_default_boolean d :
  map_default (Some d)
  = Some (if String.eqb (Py.lower d) "true" then "True"
          else if String.eqb (Py.lower d) "false" then "False"
          else d).
Proof.
  unfold map_default.
  destruct (String.eqb (Py.lower d) "true") eqn:Ht.
  { apply String.eqb_eq in Ht. rewrite (lower_true d Ht).
    by destruct d. }
  destruct (String.eqb (Py.lower d) "false") eqn:Hf.
  { apply String.eqb_eq in Hf. rewrite (lower_false d Hf).
    by destruct d. }
  by rewrite andb_false_r.
Qed.

(** *** The tags of an end *)

Lemma has_char_remove_other c d s :
  has_char c s = false -> has_char c (Py.remove_char d s) = false.
Proof.
  induction s as [|e s IH]; [done|]. cbn [has_char Py.remove_char].
  intros [He Hs]%orb_false_elim.
  destruct (Ascii.eqb d e); [by apply IH|].
  cbn [has_char]. by rewrite He, IH.
Qed.

Lemma strip_blanks_blank_free v : blank_free (strip_blanks v) = true.
Proof.
  unfold blank_free, strip_blanks.
  rewrite has_char_removed.
  rewrite (has_char_remove_other "010" "013"); [|apply has_char_removed].
  rewrite (has_char_remove_other " " "013"); [done|].
  apply has_char_remove_other, has_char_removed.
Qed.

Lemma split_from_no_char c sep cur s :
  has_char c cur = false ->
  has_char c s = false \/ c = sep ->
  Forall (fun n => has_char c n = false) (Py.split_from sep cur s).
Proof.
  revert cur. induction s as [|d s IH]; intros cur Hcur Hs.
  { by constructor. }
  cbn [Py.split_from].
  assert (has_char c s = false \/ c = sep) as Hs'.
  { destruct Hs as [Hs|Hs]; [left|by right].
    cbn [has_char] in Hs. by apply orb_false_elim in Hs as [_ ?]. }
  destruct (Ascii.eqb sep d) eqn:Hd.
  - constructor; [done|]. by apply IH.
  - apply IH; [|done]. rewrite has_char_app. cbn [has_char].
    rewrite Hcur, orb_false_r. cbn [orb].
    destruct Hs as [Hs| ->]; [|done].
    cbn [has_char] in Hs. by apply orb_false_elim in Hs as [? _].
Qed.

Lemma split_separator_free v :
  Forall (fun n => separator_free n = true)
    (Py.split "," (strip_blanks v)).
Proof.
  pose proof (strip_blanks_blank_free v) as Hb. unfold blank_free in Hb.
  apply negb_true_iff in Hb.
  apply orb_false_elim in Hb as [Hb H3].
  apply orb_false_elim in Hb as [H1 H2].
  pose proof (split_from_no_char " " "," "" _ eq_refl (or_introl H1)) as F1.
  pose proof (split_from_no_char "010" "," "" _ eq_refl (or_introl H2)) as F2.
  pose proof (split_from_no_char "013" "," "" _ eq_refl (or_introl H3)) as F3.
  pose proof (split_from_no_char "," "," "" (strip_blanks v) eq_refl
                (or_intror eq_refl)) as F4.
  unfold Py.split. rewrite Forall_forall in *. intros n Hn.
  unfold separator_free.
  by rewrite (F1 n Hn), (F2 n Hn), (F3 n Hn), (F4 n Hn).
Qed.

Section Tags.

Variable all_elements : dict ident element.

Lemma scan_slot_inv acc slot s acc' s' :
  scan_slot all_elements acc slot s = Ok acc' s' ->
  (tags_clean acc -> tags_clean acc')
  /\ props_st s' = props_st s /\ classes_st s' = classes_st s
  /\ out s' = out s.
Proof.
  unfold scan_slot. intros H.
  apply bind_Ok_inv in H as (f & t1 & H1 & H).
  destruct (definingFeature_of all_elements slot); [|done].
  unfold from_option, ret in H1. simplify_eq.
  apply bind_Ok_inv in H as (fe & t2 & H1 & H).
  destruct (dict_get all_elements f); [|done].
  unfold from_option, ret in H1. simplify_eq.
  apply bind_Ok_inv in H as ([] & t3 & H1 & H).
  unfold msg in H1. simplify_eq.
  apply bind_Ok_inv in H as (acc1 & t4 & H1 & H).
  assert ((tags_clean acc -> tags_clean acc1)
          /\ props_st t4 = props_st t2 /\ classes_st t4 = classes_st t2
          /\ out t4 = out t2) as (Hc & Hp & Hk & Ho).
  { destruct (bool_decide (element_name fe = Some "subsets")).
    - apply bind_Ok_inv in H1 as (v & t5 & H1 & H2).
      destruct (value_of all_elements slot); [|done].
      unfold from_option, ret in H1, H2. simplify_eq.
      split; [|done]. intros [_ Hr]. split; [|done].
      apply split_separator_free.
    - unfold ret in H1. by simplify_eq. }
  destruct (bool_decide (element_name fe = Some "redefines")).
  - apply bind_Ok_inv in H as (v & t5 & H2 & H).
    destruct (value_of all_elements slot); [|done].
    unfold from_option, ret in H2, H. simplify_eq.
    split; [|done]. intros [Ha _]%Hc. split; [done|].
    cbn. intros r ?. simplify_eq. apply strip_blanks_blank_free.
  - unfold ret in H. by simplify_eq.
Qed.

Lemma parse_association_tags_inv st s tags s' :
  parse_association_tags all_elements st s = Ok tags s' ->
  tags_clean tags
  /\ props_st s' = props_st s /\ classes_st s' = classes_st s
  /\ out s' = out s.
Proof.
  unfold parse_association_tags. intros H.
  set (I := fun (acc : list string * option string) (t : state) =>
              tags_clean acc /\ props_st t = props_st s
              /\ classes_st t = classes_st s /\ out t = out s).
  assert (I ([], None) s) as H0 by (by repeat split).
  eapply (fold_each_ok_inv I); [|exact H0|exact H].
  intros acc x t acc' t' _ Hacc Hx.
  eapply (fold_each_ok_inv I); [|exact Hacc|exact Hx].
  intros b y u b' u' _ (? & ? & ? & ?) Hy.
  apply scan_slot_inv in Hy as (Hc & Hp & Hk & Ho).
  split_and!; [by apply Hc|congruence..].
Qed.

(** X6: the names of derived unions that [parse_association_tags] returns
    for an end hold no blank, no line break and no comma, and the name of
    the redefined end that it returns holds no blank and no line break. *)
Theorem parse_association_tags_clean st s tags s' :
  parse_association_tags all_elements st s = Ok tags s' ->
  Forall (fun n => separator_free n = true) tags.1
  /\ (forall r, tags.2 = Some r -> blank_free r = true).
Proof. intros H. by apply parse_association_tags_inv in H as [? _]. Qed.

End Tags.

Lemma parse_association_tags_clean_witness :
  Forall (fun n => separator_free n = true) ["v"].
Proof.
  eapply (parse_association_tags_clean nested_union_model (Some ["inst"])
            init_state (["v"], None)).
  vm_compute. reflexivity.
Defined.

(** ** Association ends *)

Lemma get_prop_inv p s o s' :
  get_prop p s = Ok o s' -> s' = s /\ props_st s !! p = Some o.
Proof.
  unfold get_prop. destruct (props_st s !! p); [|done].
  intros ?. by simplify_eq.
Qed.

Lemma get_class_inv c s o s' :
  get_class c s = Ok o s' -> s' = s /\ classes_st s !! c = Some o.
Proof.
  unfold get_class. destruct (classes_st s !! c); [|done].
  intros ?. by simplify_eq.
Qed.

Lemma from_option_inv {A} f (o : option A) s a s' :
  from_option f o s = Ok a s' -> s' = s /\ o = Some a.
Proof. destruct o; [|done]. unfold from_option, ret. intros ?. by simplify_eq. Qed.

Lemma update_prop_track p f s s' o :
  props_st s !! p = Some o ->
  update_prop p f s = Ok tt s' ->
  props_st s' !! p = Some (f o)
  /\ classes_st s' = classes_st s /\ out s' = out s /\ log s' = log s.
Proof.
  intros Ho. rewrite (update_prop_ok _ _ _ _ Ho). intros ?. simplify_eq.
  cbn. by rewrite lookup_insert_eq.
Qed.

Lemma end_upper_not_empty p : end_upper p <> "".
Proof.
  unfold end_upper, Py.or_else.
  destruct (upperValue p) as [u|]; [|done].
  destruct (Py.truthy u) eqn:Hu; [|done].
  intros ->. done.
Qed.

Lemma end_lower_cases p :
  end_lower p = PInt 0
  \/ exists l, end_lower p = PStr l /\ l <> "" /\ l <> "*".
Proof.
  unfold end_lower.
  destruct (String.eqb _ "*") eqn:E; [by left|right].
  eexists. split; [done|]. apply String.eqb_neq in E. split; [|done].
  unfold Py.or_else. destruct (lowerValue p) as [l|].
  - destruct (Py.truthy l) eqn:Hl; [by intros ->|apply end_upper_not_empty].
  - apply end_upper_not_empty.
Qed.

Section Ends.

Variable int_of_str : string -> option Z.
Variable all_elements : dict ident element.

Lemma parse_association_end_sets head tail h s s' :
  props_st s !! head = Some h ->
  Py.truthy_opt (p_class_ (p_src h)) = true ->
  parse_association_end int_of_str all_elements head tail s = Ok tt s' ->
  exists h' tags d co to,
    props_st s' !! head = Some h'
    /\ tags_clean tags
    /\ p_src h' = p_src h /\ p_written h' = p_written h
    /\ type_obj h' = type_obj h /\ class_obj_ h' = class_obj_ h
    /\ union h' = union h
    /\ navigable h' = p_class_ (p_src h)
    /\ lower h' = end_lower (p_src h)
    /\ upper h' = Some (end_upper (p_src h))
    /\ subsets h' = Some tags.1 /\ redefines h' = tags.2
    /\ derived h' = Some d
    /\ class_name h' = Some co /\ opposite_class_name h' = Some to
    /\ composite h' = bool_decide (aggregation (p_src h) = Some "composite")
    /\ out s' = out s /\ classes_st s' = classes_st s.
Proof.
  intros Hh Hnav. unfold parse_association_end. intros H.
  apply bind_Ok_inv in H as (h0 & t0 & H0 & H).
  apply get_prop_inv in H0 as [-> H0]. simplify_eq.
  apply bind_Ok_inv in H as ([] & t1 & H1 & H).
  apply (update_prop_track _ _ _ _ _ Hh) in H1 as (P1 & C1 & O1 & _).
  rewrite Hnav in H. cbn [negb] in H.
  destruct (name_of h) as [nm|]; [|done].
  apply bind_Ok_inv in H as (tags & t2 & H2 & H).
  apply parse_association_tags_inv in H2 as (Htags & P2 & C2 & O2).
  rewrite <- P2 in P1.
  apply bind_Ok_inv in H as (h1 & t3 & H3 & H).
  apply get_prop_inv in H3 as [-> H3]. simplify_eq.
  apply bind_Ok_inv in H as (c & t3 & H3 & H).
  apply from_option_inv in H3 as [-> H3].
  apply bind_Ok_inv in H as (co & t3 & H4 & H).
  apply get_class_inv in H4 as [-> H4].
  apply bind_Ok_inv in H as ([] & t3 & H5 & H).
  apply (update_prop_track _ _ _ _ _ P1) in H5 as (P3 & C3 & O3 & _).
  apply bind_Ok_inv in H as (t & t4 & H6 & H).
  apply from_option_inv in H6 as [-> H6].
  apply bind_Ok_inv in H as (to & t4 & H7 & H).
  apply get_class_inv in H7 as [-> H7].
  apply bind_Ok_inv in H as ([] & t4 & H8 & H).
  apply (update_prop_track _ _ _ _ _ P3) in H8 as (P4 & C4 & O4 & _).
  apply bind_Ok_inv in H as ([] & t5 & H9 & H).
  apply (update_prop_track _ _ _ _ _ P4) in H9 as (P5 & C5 & O5 & _).
  apply bind_Ok_inv in H as ([] & t6 & H10 & H).
  apply (update_prop_track _ _ _ _ _ P5) in H10 as (P6 & C6 & O6 & _).
  apply bind_Ok_inv in H as ([] & t7 & H11 & H).
  apply (update_prop_track _ _ _ _ _ P6) in H11 as (P7 & C7 & O7 & _).
  apply bind_Ok_inv in H as ([] & t8 & H12 & H).
  apply (update_prop_track _ _ _ _ _ P7) in H12 as (P8 & C8 & O8 & _).
  apply bind_Ok_inv in H as (d & t9 & H13 & H).
  assert (t9 = t8) as ->.
  { match type of H13 with
    | (if ?b then _ else _) _ = _ => destruct b
    end.
    - by apply from_option_inv in H13 as [-> _].
    - unfold ret in H13. by simplify_eq. }
  apply bind_Ok_inv in H as ([] & t9 & H14 & H).
  apply (update_prop_track _ _ _ _ _ P8) in H14 as (P9 & C9 & O9 & _).
  apply (update_prop_track _ _ _ _ _ P9) in H as (P10 & C10 & O10 & _).
  eexists _, tags, d, (c_name co), (c_name to).
  split; [exact P10|]. split; [exact Htags|].
  split_and!; try reflexivity; congruence.
Qed.

(** X7: when [parse_association_end] returns for an end that its class
    owns, the upper bound of the end is a string that is not empty, the
    star when the model file gives none; its lower bound is the integer 0
    or a string that is neither empty nor the star; and a lower bound that
    the model file does not give is the upper bound, with 0 for the
    star. *)
Theorem parse_association_end_multiplicity head tail h s s' :
  props_st s !! head = Some h ->
  Py.truthy_opt (p_class_ (p_src h)) = true ->
  parse_association_end int_of_str all_elements head tail s = Ok tt s' ->
  exists h' u,
    props_st s' !! head = Some h'
    /\ upper h' = Some u /\ u <> ""
    /\ (Py.truthy_opt (upperValue (p_src h)) = false -> u = "*")
    /\ (lower h' = PInt 0
        \/ exists l, lower h' = PStr l /\ l <> "" /\ l <> "*")
    /\ (Py.truthy_opt (lowerValue (p_src h)) = false ->
        lower h' = if String.eqb u "*" then PInt 0 else PStr u).
Proof.
  intros Hh Hnav H.
  destruct (parse_association_end_sets _ _ _ _ _ Hh Hnav H)
    as (h' & tags & d & co & to & P & _ & _ & _ & _ & _ & _ & _ & L & U & _).
  exists h', (end_upper (p_src h)). rewrite L. split_and!; try done.
  - apply end_upper_not_empty.
  - unfold end_upper, Py.or_else, Py.truthy_opt.
    destruct (upperValue (p_src h)); [|done]. by intros ->.
  - apply end_lower_cases.
  - unfold end_lower, Py.or_else, Py.truthy_opt.
    destruct (lowerValue (p_src h)); [|done]. by intros ->.
Qed.

(** X8: an end without a name is an error of [parse_association_end] only
    when its class owns it: then [ValueError] is raised before a tag is
    read; in both cases nothing is written or logged and [navigable] alone
    is set. *)
Theorem parse_association_end_nameless head tail h s :
  props_st s !! head = Some h ->
  name_of h = None ->
  parse_association_end int_of_str all_elements head tail s
  = if Py.truthy_opt (p_class_ (p_src h))
    then Err (ValueError ("ERROR! no name, but navigable: " +:+ head
                          +:+ " (" +:+ full_name (class_name h) None
                          +:+ ")"))
           (navigable_set head h s)
    else Ok tt (navigable_set head h s).
Proof.
  intros Hh Hn. unfold parse_association_end.
  rewrite (bind_ok _ _ _ _ _ (get_prop_ok _ _ _ Hh)).
  rewrite (bind_ok _ _ _ _ _ (update_prop_ok _ _ _ _ Hh)).
  rewrite Hn. by destruct (Py.truthy_opt (p_class_ (p_src h))).
Qed.

End Ends.

Lemma parse_association_end_multiplicity_witness :
  exists s',
    parse_association_end flag_int nested_union_model "a_u" "u_o"
      subsetting_end_state = Ok tt s'
    /\ exists h' u,
         props_st s' !! "a_u" = Some h'
         /\ upper h' = Some u /\ u <> ""
         /\ (Py.truthy_opt (upperValue subsetting_end) = false -> u = "*")
         /\ (lower h' = PInt 0
             \/ exists l, lower h' = PStr l /\ l <> "" /\ l <> "*")
         /\ (Py.truthy_opt (lowerValue subsetting_end) = false ->
             lower h' = if String.eqb u "*" then PInt 0 else PStr u).
Proof.
  destruct (parse_association_end flag_int nested_union_model "a_u" "u_o"
              subsetting_end_state) as [[] s'|f s'] eqn:E.
  - exists s'. split; [reflexivity|].
    apply (parse_association_end_multiplicity flag_int nested_union_model
             "a_u" "u_o"
             (with_class_obj (Some "A")
                (with_type_obj (Some "T") (new_prop subsetting_end)))
             subsetting_end_state s').
    + reflexivity.
    + reflexivity.
    + exact E.
  - vm_compute in E. discriminate E.
Defined.

Lemma parse_association_end_nameless_witness :
  parse_association_end flag_int [] "e" "f"
    (one_prop_state "e" "A" (nameless_end (Some "A")))
  = Err (ValueError "ERROR! no name, but navigable: e (A.None)")
      (navigable_set "e" (with_class_name (Some "A")
                            (new_prop (nameless_end (Some "A"))))
         (one_prop_state "e" "A" (nameless_end (Some "A")))).
Proof.
  apply (parse_association_end_nameless flag_int [] "e" "f"
           (with_class_name (Some "A") (new_prop (nameless_end (Some "A"))))).
  - reflexivity.
  - reflexivity.
Defined.

(** ** The writer *)

Lemma written_lines_nil s : written_lines [] s = s.
Proof. destruct s. unfold written_lines. cbn. by rewrite app_nil_r. Qed.

Lemma logged_nil s : logged [] s = s.
Proof. destruct s. unfold logged. cbn. by rewrite app_nil_r. Qed.

Lemma write_property_line ov full v s :
  write_property ov full v s = Ok tt (written_lines [property_line ov full v] s).
Proof.
  unfold write_property, property_line. by destruct (write_override ov full).
Qed.

(** X9: every line that the pass of the operations writes is the text that
    the override registry holds for its key: an operation without an
    override writes nothing. *)
Theorem write_operations_only_overrides ov tb ignored s :
  exists seg,
    out (final_state (write_operations ov tb ignored s)) = out s ++ seg
    /\ Forall (fun l => is_registered_override ov l = true) seg.
Proof.
  revert s. change (emits (is_registered_override ov)
                      (write_operations ov tb ignored)).
  unfold write_operations. apply emits_for_each. intros c.
  apply emits_bind; [apply emits_get_class|]. intros o.
  apply emits_for_each. intros p.
  apply emits_bind; [apply emits_from_option|]. intros name.
  unfold write_operation.
  destruct (has_override ov _) eqn:E; [|apply emits_msg].
  destruct (write_override ov _) eqn:W; [|apply emits_ret].
  apply emits_write. cbn. rewrite E. by rewrite bool_decide_eq_true_2.
Qed.

(** *** The routing of the ends *)

Lemma write_association_plain ov head tail h t s :
  props_st s !! head = Some h ->
  props_st s !! tail = Some t ->
  p_written h = false ->
  Py.truthy_opt (navigable h) = true ->
  truthy_int (derived h) = false ->
  Py.truthy_opt (redefines h) = false ->
  write_association ov head tail s
  = Ok tt (written_lines [association_line ov h t] s).
Proof.
  intros Hh Ht Hw Hn Hd Hr. unfold write_association.
  rewrite (bind_ok _ _ _ _ _ (get_prop_ok _ _ _ Hh)).
  rewrite Hw, Hn, Hd, Hr. cbn [negb assert andb].
  unfold bind at 1. cbn [ret]. unfold bind at 1. cbn [ret].
  unfold bind at 1. cbn [ret].
  rewrite (bind_ok _ _ _ _ _ (get_prop_ok _ _ _ Ht)).
  unfold bind at 1.
  replace ((if Py.truthy_opt (navigable t) then ret () else ret ()) s)
    with (Ok tt s) by (by destruct (Py.truthy_opt (navigable t))).
  apply write_property_line.
Qed.

Lemma write_association_no_assertion ov head tail h s s' :
  props_st s !! head = Some h ->
  Py.truthy_opt (navigable h) = true ->
  truthy_int (derived h) = false ->
  Py.truthy_opt (redefines h) = false ->
  write_association ov head tail s <> Err AssertionError s'.
Proof.
  intros Hh Hn Hd Hr. unfold write_association.
  rewrite (bind_ok _ _ _ _ _ (get_prop_ok _ _ _ Hh)).
  destruct (p_written h) eqn:Hw; [done|].
  destruct (props_st s !! tail) as [t|] eqn:Ht.
  - assert (p_written h = false) as Hw' by done.
    pose proof (write_association_plain ov head tail h t s Hh Ht Hw' Hn Hd Hr)
      as E.
    unfold write_association in E.
    rewrite (bind_ok _ _ _ _ _ (get_prop_ok _ _ _ Hh)), Hw in E.
    by rewrite E.
  - rewrite Hn, Hd, Hr. cbn [negb assert].
    unfold bind at 1. cbn [ret]. unfold bind at 1. cbn [ret].
    unfold bind at 1. cbn [ret].
    rewrite (bind_err _ _ _ AttributeError s); [done|].
    unfold get_prop. by rewrite Ht.
Qed.

(** X10: in the routing of the ends of an association that is not folded
    into an attribute, an assertion fails only for a second derived union
    of the same name: the assertions of [write_association] never fail
    there.  The state is then as before the turn. *)
Theorem route_end_assertion ov lit tb e1 e2 acc s s' :
  route_end ov lit tb None e1 e2 acc s = Err AssertionError s' ->
  s' = s
  /\ exists o1,
       props_st s !! e1 = Some o1
       /\ Py.truthy_opt (redefines o1) = false
       /\ truthy_int (derived o1)
          || derives ov (full_name (class_name o1) (name_of o1)) = true
       /\ is_Some (dict_get acc.1 (name_of o1)).
Proof.
  unfold route_end. intros H.
  destruct (props_st s !! e1) as [o1|] eqn:Ho1.
  2: { rewrite (bind_err _ _ _ AttributeError s) in H; [done|].
       unfold get_prop. by rewrite Ho1. }
  rewrite (bind_ok _ _ _ _ _ (get_prop_ok _ _ _ Ho1)) in H.
  destruct (Py.truthy_opt (redefines o1)) eqn:Hr; [done|].
  destruct (truthy_int (derived o1) || derives ov _) eqn:Hd.
  - destruct (dict_get acc.1 (name_of o1)) as [d|] eqn:Hg.
    + rewrite bool_decide_eq_true_2 in H by eauto.
      cbn in H. simplify_eq. split; [done|]. exists o1. eauto.
    + rewrite bool_decide_eq_false_2 in H by (by intros [? ?]).
      cbn [negb assert] in H. unfold bind at 1 in H. cbn [ret] in H.
      rewrite (bind_ok _ _ _ _ _ (update_prop_ok _ _ _ _ Ho1)) in H.
      erewrite bind_ok in H; [done|].
      apply update_prop_ok. cbn. apply lookup_insert_eq.
  - apply orb_false_elim in Hd as [Hd _].
    destruct (Py.truthy_opt (navigable o1)) eqn:Hn; [|done].
    unfold bind in H.
    destruct (write_association ov e1 e2 s) as [[] s1|f s1] eqn:E; [done|].
    simplify_eq. exfalso.
    by eapply (write_association_no_assertion ov e1 e2 o1 s s').
Qed.

Lemma route_end_assertion_witness :
  route_end no_overrides flag_literal no_tables None "b_x" "b_o"
    ([(Some "x", "a_x")], []) second_union_state
  = Err AssertionError second_union_state
  /\ second_union_state = second_union_state
  /\ exists o1,
       props_st second_union_state !! "b_x" = Some o1
       /\ Py.truthy_opt (redefines o1) = false
       /\ truthy_int (derived o1)
          || derives no_overrides (full_name (class_name o1) (name_of o1))
          = true
       /\ is_Some (dict_get ([(Some "x", "a_x")], @nil ident).1 (name_of o1)).
Proof.
  split; [vm_compute; reflexivity|].
  apply (route_end_assertion no_overrides flag_literal no_tables
           "b_x" "b_o" ([(Some "x", "a_x")], []) second_union_state
           second_union_state).
  vm_compute. reflexivity.
Defined.

Lemma route_end_plain ov lit tb e1 e2 acc o1 o2 s :
  props_st s !! e1 = Some o1 ->
  props_st s !! e2 = Some o2 ->
  plain_end ov o1 ->
  route_end ov lit tb None e1 e2 acc s
  = Ok acc (written_lines
              (if Py.truthy_opt (navigable o1)
               then [association_line ov o1 o2] else []) s).
Proof.
  intros H1 H2 (Hr & Hd & Hv & Hw). unfold route_end.
  rewrite (bind_ok _ _ _ _ _ (get_prop_ok _ _ _ H1)).
  rewrite Hr, Hd, Hv. cbn [orb].
  destruct (Py.truthy_opt (navigable o1)) eqn:Hn.
  - unfold bind.
    by rewrite (write_association_plain ov e1 e2 o1 o2 s H1 H2 Hw Hn Hd Hr).
  - by rewrite written_lines_nil.
Qed.

(** X11: the two turns of the routing write, for an association between
    two ends that are neither derived nor redefining, the line of the
    first end and then the line of the second, each only if its end is
    navigable, and each naming the other end as its opposite exactly when
    that one is navigable. *)
Theorem route_ends_plain_association ov lit tb e0 e1 acc o0 o1 s :
  props_st s !! e0 = Some o0 ->
  props_st s !! e1 = Some o1 ->
  plain_end ov o0 ->
  plain_end ov o1 ->
  route_ends ov lit tb None e0 e1 acc s
  = Ok acc
      (written_lines
         ((if Py.truthy_opt (navigable o0)
           then [association_line ov o0 o1] else [])
          ++ (if Py.truthy_opt (navigable o1)
              then [association_line ov o1 o0] else [])) s).
Proof.
  intros H0 H1 P0 P1. unfold route_ends.
  rewrite (bind_ok _ _ _ _ _
             (route_end_plain ov lit tb e0 e1 acc o0 o1 s H0 H1 P0)).
  rewrite (route_end_plain ov lit tb e1 e0 acc o1 o0
             (written_lines _ s) H1 H0 P1).
  unfold written_lines. cbn. by rewrite <- app_assoc.
Qed.

Lemma route_ends_plain_association_witness :
  route_ends no_overrides flag_literal no_tables None "a_b" "b_a" ([], [])
    two_ends_state
  = Ok ([], [])
      (written_lines
         [Assign "A.b" (Dassociation "b" "B" None None false (Some "a"));
          Assign "B.a" (Dassociation "a" "A" None None false (Some "b"))]
         two_ends_state).
Proof.
  apply (route_ends_plain_association no_overrides flag_literal no_tables
           "a_b" "b_a" ([], []) (parsed_end "b" "A" "B")
           (parsed_end "a" "B" "A") two_ends_state).
  - reflexivity.
  - reflexivity.
  - repeat split.
  - repeat split.
Defined.

(** *** The subsets of an end *)

Lemma logged_logged ms ns s : logged ns (logged ms s) = logged (ms ++ ns) s.
Proof. unfold logged. cbn. by rewrite <- app_assoc. Qed.

Lemma link_subsets_unknown_loop (ignored : list ident)
    (du : dict (option string) ident) (a : ident) o (t : ident) l :
  type_obj o = Some t ->
  (forall n, n ∈ l -> dict_get du (Some n) = None) ->
  forall s,
    props_st s !! a = Some o ->
    for_each l
      (fun s =>
         do o <- get_prop a;
         do t <- from_option AttributeError (type_obj o);
         if bool_decide (t ∉ ignored) then
           match dict_get du (Some s) with
           | Some d =>
               do do_ <- get_prop d;
               do members <- from_option AttributeError (union do_);
               update_prop d (with_union (Some (members ++ [a])))
           | None => msg (NotADerivedUnion (Py.fmt (class_name o)) s)
           end
         else ret tt) s
    = Ok tt (logged (if bool_decide (t ∉ ignored)
                     then map (NotADerivedUnion (Py.fmt (class_name o))) l
                     else []) s).
Proof.
  intros Ht. induction l as [|n l IH]; intros Hl s Ha.
  { cbn. unfold ret. destruct (bool_decide _); by rewrite logged_nil. }
  cbn [for_each]. unfold bind at 1.
  rewrite (bind_ok _ _ _ _ _ (get_prop_ok _ _ _ Ha)), Ht.
  unfold bind at 1. cbn [from_option ret].
  destruct (bool_decide (t ∉ ignored)) eqn:Hi.
  - rewrite (Hl n) by apply list_elem_of_here. cbn [msg].
    rewrite IH; [|by intros; apply Hl, list_elem_of_further|done].
    unfold logged. cbn. by rewrite <- app_assoc.
  - cbn [ret]. by rewrite IH; [|by intros; apply Hl, list_elem_of_further|].
Qed.

(** X12: a name among the subsets of an end that names no registered
    derived union is no fault: [link_subsets] logs it and goes on to the
    next name; it logs nothing when the type of the end is an ignored
    class.  Nothing is written and no object changes. *)
Theorem link_subsets_unknown_union (ignored : list ident)
    (du : dict (option string) ident) (a : ident) o (t : ident) s :
  props_st s !! a = Some o ->
  type_obj o = Some t ->
  (forall n, n ∈ default [] (subsets o) -> dict_get du (Some n) = None) ->
  link_subsets ignored du a s
  = Ok tt (logged (if bool_decide (t ∉ ignored)
                   then map (NotADerivedUnion (Py.fmt (class_name o)))
                          (default [] (subsets o))
                   else []) s).
Proof.
  intros Ha Ht Hl. unfold link_subsets.
  rewrite (bind_ok _ _ _ _ _ (get_prop_ok _ _ _ Ha)).
  exact (link_subsets_unknown_loop ignored du a o t _ Ht Hl s Ha).
Qed.

Lemma link_subsets_unknown_union_witness :
  link_subsets [] [] "a_u" tagged_end_state
  = Ok tt (logged [NotADerivedUnion "A" "v"; NotADerivedUnion "A" "w"]
             tagged_end_state).
Proof.
  apply (link_subsets_unknown_union [] [] "a_u"
           (with_subsets (Some ["v"; "w"])
              (with_type_obj (Some "T") (parsed_end "u" "A" "T"))) "T").
  - reflexivity.
  - reflexivity.
  - intros n _. reflexivity.
Defined.

(** *** The literals of an enumeration *)

Lemma item_ok (keys : list ident) k s :
  k ∈ keys -> item keys (Some k) s = Ok k s.
Proof. intros H. unfold item. by rewrite bool_decide_eq_true_2. Qed.

Lemma enumeration_values_loop (properties : list ident) s
    (keys : list ident) :
  (forall k, k ∈ keys -> k ∈ properties /\ is_Some (props_st s !! k)) ->
  forall values,
    fold_each keys
      (fun values key =>
         do p <- item properties (Some key);
         do o <- get_prop p;
         ret (values ++ [Py.fmt (name_of o)])) values s
    = Ok (values ++ literal_names (props_st s) keys) s
    /\ List.length (literal_names (props_st s) keys) = List.length keys.
Proof.
  induction keys as [|k keys IH]; intros Hk values.
  { cbn. by rewrite app_nil_r. }
  destruct (Hk k) as [Hin [o Ho]]; [apply list_elem_of_here|].
  destruct (IH (fun k' H => Hk k' (list_elem_of_further _ _ _ H))
              (values ++ [Py.fmt (name_of o)])) as [E L].
  cbn [fold_each]. unfold bind at 1.
  rewrite (bind_ok _ _ _ _ _ (item_ok properties k s Hin)).
  rewrite (bind_ok _ _ _ _ _ (get_prop_ok _ _ _ Ho)). cbn [ret].
  rewrite E.
  assert (literal_names (props_st s) (k :: keys)
          = Py.fmt (name_of o) :: literal_names (props_st s) keys) as ->.
  { unfold literal_names. cbn. by rewrite Ho. }
  split; [by rewrite <- app_assoc|]. cbn. f_equal. exact L.
Qed.

(** X13: the values of an enumeration are the names of its owned
    attributes in the order in which the enumeration owns them, one for
    each, a literal without a name giving the text None; the property
    objects are not changed. *)
Theorem enumeration_values_order (properties : list ident) e
    (keys : list ident) s :
  e_ownedAttribute e = Some keys ->
  (forall k, k ∈ keys -> k ∈ properties /\ is_Some (props_st s !! k)) ->
  enumeration_values properties e s
  = Ok {| e_name := e_name e; e_ownedAttribute := e_ownedAttribute e;
          enumerates := literal_names (props_st s) keys |} s
  /\ List.length (literal_names (props_st s) keys) = List.length keys.
Proof.
  intros He Hk. unfold enumeration_values. rewrite He.
  destruct (enumeration_values_loop properties s keys Hk []) as [E L].
  split; [|done]. unfold bind at 1. cbn [from_option ret].
  unfold bind at 1. by rewrite E.
Qed.

Lemma enumeration_values_order_witness :
  enumeration_values ["l1"; "l2"]
    {| e_name := "VisibilityKind"; e_ownedAttribute := Some ["l2"; "l1"];
       enumerates := [] |} two_literals_state
  = Ok {| e_name := "VisibilityKind"; e_ownedAttribute := Some ["l2"; "l1"];
          enumerates := ["private"; "public"] |} two_literals_state
  /\ List.length (literal_names (props_st two_literals_state) ["l2"; "l1"])
     = 2%nat.
Proof.
  apply (enumeration_values_order ["l1"; "l2"]
           {| e_name := "VisibilityKind";
              e_ownedAttribute := Some ["l2"; "l1"];
              enumerates := [] |} ["l2"; "l1"] two_literals_state).
  - reflexivity.
  - intros k Hk. apply elem_of_cons in Hk as [->|Hk].
    { split; [set_solver|]. by eexists. }
    apply elem_of_cons in Hk as [->|Hk].
    { split; [set_solver|]. by eexists. }
    by apply elem_of_nil in Hk.
Defined.

(** ** Derived unions *)

Lemma props_marked_refl h : props_marked h h.
Proof. intros d. by left. Qed.

Lemma with_written_fixed o : p_written o = true -> with_written true o = o.
Proof. destruct o. cbn. by intros ->. Qed.

Lemma with_written_twice o :
  with_written true (with_written true o) = with_written true o.
Proof. by destruct o. Qed.

Lemma props_marked_trans h1 h2 h3 :
  props_marked h1 h2 -> props_marked h2 h3 -> props_marked h1 h3.
Proof.
  intros H12 H23 d. destruct (H12 d) as [E1|E1], (H23 d) as [E2|E2];
    rewrite E2, E1; auto.
  right. destruct (h1 !! d); [|done]. cbn. by rewrite with_written_twice.
Qed.

Lemma props_marked_insert h d o :
  h !! d = Some o -> props_marked h (<[d := with_written true o]> h).
Proof.
  intros Hd e. destruct (decide (e = d)) as [->|Hne].
  - right. by rewrite lookup_insert_eq, Hd.
  - left. by rewrite lookup_insert_ne.
Qed.

Lemma props_marked_lookup h h' d o :
  props_marked h h' -> h !! d = Some o ->
  exists o', h' !! d = Some o'
             /\ (o' = o \/ o' = with_written true o).
Proof.
  intros M Hd. destruct (M d) as [E|E]; rewrite Hd in E; eauto.
Qed.

Lemma props_marked_lookup_inv h h' d o' :
  props_marked h h' -> h' !! d = Some o' ->
  exists o, h !! d = Some o /\ (o' = o \/ o' = with_written true o).
Proof.
  intros M Hd. destruct (M d) as [E|E]; rewrite Hd in E.
  - eauto.
  - destruct (h !! d) as [o|]; [|done]. cbn in E. simplify_eq. eauto.
Qed.

Lemma member_ok_marked rank h h' k u :
  props_marked h h' -> member_ok rank h k u = true ->
  member_ok rank h' k u = true.
Proof.
  intros M. unfold member_ok. destruct (h !! u) as [uo|] eqn:Hu; [|done].
  destruct (props_marked_lookup _ _ _ _ M Hu) as (uo' & -> & [->| ->]);
    [done|].
  intros _. cbn. by rewrite andb_false_r.
Qed.

Lemma unions_closed_marked rank h h' :
  props_marked h h' -> unions_closed rank h -> unions_closed rank h'.
Proof.
  intros M C d o' Hd.
  destruct (props_marked_lookup_inv _ _ _ _ M Hd) as (o & Ho & Heq).
  specialize (C d o Ho). cbn in C.
  assert (union o' = union o) as -> by (by destruct Heq as [->| ->]).
  eapply Forall_impl; [exact C|]. intros u. by apply member_ok_marked.
Qed.

Lemma member_names_marked h h' l :
  props_marked h h' -> member_names h' l = member_names h l.
Proof.
  intros M. unfold member_names. induction l as [|u l IH]; [done|].
  cbn. rewrite IH. destruct (M u) as [E|E]; rewrite E; [done|].
  by destruct (h !! u).
Qed.

Lemma member_done_marked h h' u :
  props_marked h h' -> member_done h u -> member_done h' u.
Proof.
  intros M (uo & Hu & Hw).
  destruct (props_marked_lookup _ _ _ _ M Hu) as (uo' & Hu' & [->| ->]).
  - by exists uo.
  - eexists. split; [exact Hu'|]. done.
Qed.

Lemma append_cons x (a b : string) : String x a +:+ b = String x (a +:+ b).
Proof. reflexivity. Qed.

Lemma append_assoc (a b c : string) : (a +:+ b) +:+ c = a +:+ (b +:+ c).
Proof.
  induction a as [|x a IH]; [done|]. rewrite !append_cons. by rewrite IH.
Qed.

Lemma append_not_empty_l (a b : string) : a <> "" -> a +:+ b <> "".
Proof. destruct a; [done|]. by rewrite append_cons. Qed.

Lemma append_not_empty_r (a b : string) : b <> "" -> a +:+ b <> "".
Proof. destruct a; [done|]. by rewrite append_cons. Qed.

Lemma truthy_not_empty s : s <> "" -> Py.truthy s = true.
Proof. intros H. unfold Py.truthy. by apply negb_true_iff, String.eqb_neq. Qed.

Lemma full_name_not_empty cn n : full_name cn n <> "".
Proof.
  unfold full_name. apply append_not_empty_r. by rewrite append_cons.
Qed.

Lemma concat_cons_app sep (a b : string) r :
  String.concat sep ((a +:+ b) :: r) = a +:+ String.concat sep (b :: r).
Proof. destruct r as [|y r]; [done|]. cbn. by rewrite append_assoc. Qed.

Lemma join_onto_concat names subs :
  subs <> "" ->
  join_onto subs names = String.concat ", " (subs :: names).
Proof.
  revert subs. induction names as [|nm names IH]; intros subs Hs; [done|].
  cbn [join_onto fold_left]. rewrite (truthy_not_empty _ Hs).
  fold (join_onto ((subs +:+ ", ") +:+ nm) names).
  rewrite IH by (by apply append_not_empty_l, append_not_empty_l).
  rewrite concat_cons_app. rewrite append_assoc. done.
Qed.

Lemma join_onto_empty names :
  Forall (fun nm => nm <> "") names ->
  join_onto "" names = String.concat ", " names.
Proof.
  destruct names as [|nm names]; [done|]. intros [Hn _]%Forall_cons.
  cbn [join_onto fold_left]. cbn [Py.truthy String.eqb negb].
  change ("" +:+ nm) with nm. fold (join_onto nm names).
  by apply join_onto_concat.
Qed.

Lemma member_names_not_empty h l :
  Forall (fun nm => nm <> "") (member_names h l).
Proof.
  unfold member_names. induction l as [|u l IH]; [by constructor|].
  cbn. destruct (h !! u); cbn; [|done].
  constructor; [apply full_name_not_empty|done].
Qed.

Lemma derivedunion_line_marked ov o subs :
  derivedunion_line ov (with_written true o) subs
  = derivedunion_line ov o subs.
Proof. by destruct o. Qed.

Lemma write_derivedunion_members ov rank n k :
  write_derivedunion_spec ov rank n ->
  (k <= n)%nat ->
  forall l subs s1,
    unions_closed rank (props_st s1) ->
    Forall (fun u => member_ok rank (props_st s1) k u = true) l ->
    exists s2 seg,
      fold_each l
        (fun subs u =>
           do uo <- get_prop u;
           exec (if truthy_int (derived uo) && negb (p_written uo)
                 then write_derivedunion ov n u else ret tt);
           do uo <- get_prop u;
           ret ((if Py.truthy subs then subs +:+ ", " else subs)
                +:+ full_name (class_name uo) (name_of uo)))
        subs s1
      = Ok (join_onto subs (member_names (props_st s1) l)) s2
      /\ out s2 = out s1 ++ seg
      /\ props_marked (props_st s1) (props_st s2)
      /\ Forall (member_done (props_st s2)) l
      /\ classes_st s2 = classes_st s1.
Proof.
  intros IH Hk. induction l as [|u l IHl]; intros subs s1 C Hl.
  { exists s1, []. rewrite app_nil_r. split_and!; try done.
    apply props_marked_refl. }
  apply Forall_cons in Hl as [Hu Hl].
  unfold member_ok in Hu.
  destruct (props_st s1 !! u) as [uo|] eqn:Huo; [|done].
  assert (exists s1a seg1,
            (if truthy_int (derived uo) && negb (p_written uo)
             then write_derivedunion ov n u else ret tt) s1 = Ok tt s1a
            /\ out s1a = out s1 ++ seg1
            /\ props_marked (props_st s1) (props_st s1a)
            /\ member_done (props_st s1a) u
            /\ classes_st s1a = classes_st s1)
    as (s1a & seg1 & Hrun & Hout & M1 & D1 & K1).
  { destruct (truthy_int (derived uo) && negb (p_written uo)) eqn:Hd.
    - apply andb_true_iff in Hu as [Hun Hrk].
      apply bool_decide_eq_true in Hun as [mu Hmu].
      apply Nat.ltb_lt in Hrk.
      destruct (IH u uo mu s1 C Huo Hmu ltac:(lia))
        as (s1a & seg & Hrun & Hout & M1 & (o' & Ho' & Hw') & _ & K1).
      exists s1a, (seg ++ [derivedunion_line ov uo
                            (String.concat ", "
                               (member_names (props_st s1) mu))]).
      split_and!; try done. exists o'. eauto.
    - exists s1, []. rewrite app_nil_r. split_and!; try done.
      + apply props_marked_refl.
      + exists uo. split; [done|]. intros Hder. rewrite Hder in Hd.
        cbn in Hd. by apply negb_false_iff in Hd. }
  destruct (props_marked_lookup _ _ _ _ M1 Huo) as (uo' & Huo' & Heq).
  assert (full_name (class_name uo') (name_of uo')
          = full_name (class_name uo) (name_of uo)) as Hname
      by (by destruct Heq as [->| ->]).
  destruct (IHl ((if Py.truthy subs then subs +:+ ", " else subs)
                 +:+ full_name (class_name uo) (name_of uo)) s1a)
    as (s2 & seg2 & Hrun2 & Hout2 & M2 & D2 & K2).
  { by eapply unions_closed_marked. }
  { eapply Forall_impl; [exact Hl|]. intros v. by apply member_ok_marked. }
  exists s2, (seg1 ++ seg2). split_and!.
  - cbn [fold_each]. unfold bind at 1.
    rewrite (bind_ok _ _ _ _ _ (get_prop_ok _ _ _ Huo)).
    unfold bind at 1. rewrite Hrun.
    rewrite (bind_ok _ _ _ _ _ (get_prop_ok _ _ _ Huo')). cbn [ret].
    rewrite Hname, Hrun2. rewrite (member_names_marked _ _ _ M1).
    assert (member_names (props_st s1) (u :: l)
            = full_name (class_name uo) (name_of uo)
              :: member_names (props_st s1) l) as ->.
    { unfold member_names. cbn. by rewrite Huo. }
    done.
  - rewrite Hout2, Hout. by rewrite app_assoc.
  - by eapply props_marked_trans.
  - constructor; [|done]. by eapply member_done_marked.
  - congruence.
Qed.

Lemma write_derivedunion_line ov o subs s :
  (if Py.truthy subs
         then write_property ov (full_name (class_name o) (name_of o))
                (Dderivedunion (Py.fmt (name_of o))
                   (Py.fmt (opposite_class_name o)) (lower o)
                   (quoted_upper (upper o)) subs)
         else
           exec (if negb (has_override ov
                            (full_name (class_name o) (name_of o)))
                 then msg (NoSubsets (Py.fmt (class_name o))
                             (Py.fmt (name_of o)) (lower o)
                             (Py.fmt (upper o)))
                 else ret tt);
           write_property ov (full_name (class_name o) (name_of o))
             (Dderivedunion (Py.fmt (name_of o))
                (Py.fmt (opposite_class_name o)) (lower o)
                (quoted_upper (upper o)) subs)) s
  = Ok tt (written_lines [derivedunion_line ov o subs]
             (logged (if Py.truthy subs then []
                      else if negb (has_override ov
                                      (full_name (class_name o) (name_of o)))
                           then [NoSubsets (Py.fmt (class_name o))
                                   (Py.fmt (name_of o)) (lower o)
                                   (Py.fmt (upper o))]
                           else []) s)).
Proof.
  destruct (Py.truthy subs).
  - rewrite write_property_line. by rewrite logged_nil.
  - unfold bind at 1. destruct (negb (has_override ov _)).
    + cbn [msg]. rewrite write_property_line. done.
    + cbn [ret]. rewrite write_property_line. by rewrite logged_nil.
Qed.

Lemma write_derivedunion_correct ov rank fuel :
  write_derivedunion_spec ov rank fuel.
Proof.
  induction fuel as [|n IH]; intros d o members s C Hd Hm Hrk; [lia|].
  destruct (write_derivedunion_members ov rank n (rank d) IH ltac:(lia)
              members "" s C) as (s2 & seg & Hrun & Hout & M & D & K).
  { pose proof (C d o Hd) as Hc. cbn in Hc. by rewrite Hm in Hc. }
  destruct (props_marked_lookup _ _ _ _ M Hd) as (o2 & Hd2 & Heq).
  rewrite (join_onto_empty _ (member_names_not_empty _ _)) in Hrun.
  set (subs := String.concat ", " (member_names (props_st s) members)) in *.
  pose proof (write_derivedunion_line ov o2 subs s2) as Hline.
  set (s3 := written_lines [derivedunion_line ov o2 subs] _) in Hline.
  eexists _, seg. split_and!.
  - cbn [write_derivedunion].
    rewrite (bind_ok _ _ _ _ _ (get_prop_ok _ _ _ Hd)), Hm.
    unfold bind at 1. cbn [from_option ret].
    unfold bind at 1. rewrite Hrun.
    rewrite (bind_ok _ _ _ _ _ (get_prop_ok _ _ _ Hd2)).
    rewrite (bind_ok _ _ _ _ _ Hline).
    apply (update_prop_ok d (with_written true) o2 s3). exact Hd2.
  - cbn. rewrite Hout, <- app_assoc. do 2 f_equal.
    destruct Heq as [->| ->]; [done|].
    by rewrite derivedunion_line_marked.
  - cbn. eapply props_marked_trans; [exact M|].
    by apply props_marked_insert.
  - cbn. rewrite lookup_insert_eq. by eexists.
  - cbn. eapply Forall_impl; [exact D|]. intros u.
    apply member_done_marked. by apply props_marked_insert.
  - cbn. exact K.
Qed.

(** An end without a list of members, as a derived end that redefines
    is, makes [for u in d.union] fault. *)
Lemma write_derivedunion_no_members ov fuel d o s :
  props_st s !! d = Some o ->
  union o = None ->
  write_derivedunion ov (S fuel) d s = Err TypeError s.
Proof.
  intros Hd Hu. cbn [write_derivedunion].
  rewrite (bind_ok _ _ _ _ _ (get_prop_ok _ _ _ Hd)), Hu. reflexivity.
Qed.

(** X14: on property objects where every member of every derived union
    is live, every member that is derived and not yet written is a
    derived union itself, with a list of members, and no derived union
    is, through such members, a member of itself, [write_derivedunion]
    ends normally with enough fuel: it first writes the derived unions
    among the members that are derived and not written, and last the
    line of the derived union [d] itself, whose member list is the
    comma-separated list of the names [Class.name] of its members in
    their order.  Of the objects it changes nothing but the flag
    [written], which it sets on [d]; each member is then written or not
    derived. *)
Theorem write_derivedunion_total ov rank fuel d o members s :
  unions_closed rank (props_st s) ->
  props_st s !! d = Some o ->
  union o = Some members ->
  (rank d < fuel)%nat ->
  exists s' seg,
    write_derivedunion ov fuel d s = Ok tt s'
    /\ out s' = out s ++ seg
                ++ [derivedunion_line ov o
                      (String.concat ", "
                         (member_names (props_st s) members))]
    /\ Forall (fun l => is_derivedunion_line l = true) seg
    /\ props_marked (props_st s) (props_st s')
    /\ (exists o', props_st s' !! d = Some o' /\ p_written o' = true)
    /\ Forall (member_done (props_st s')) members
    /\ classes_st s' = classes_st s.
Proof.
  intros C Hd Hm Hrk.
  destruct (write_derivedunion_correct ov rank fuel d o members s C Hd Hm Hrk)
    as (s' & seg & Hrun & Hout & M & W & D & K).
  exists s', seg. split_and!; try done.
  destruct (emits_write_derivedunion ov fuel d s) as (seg' & E & F).
  rewrite Hrun in E. cbn in E. rewrite Hout in E.
  apply app_inv_head in E. subst seg'.
  by apply Forall_app in F as [? _].
Qed.

Lemma write_derivedunion_total_witness :
  exists s' seg,
    write_derivedunion no_overrides 2 "a_v" nested_union_state = Ok tt s'
    /\ out s' = out nested_union_state ++ seg
                ++ [Assign "A.v" (Dderivedunion "v" "T" (PInt 0) "'*'" "A.u")]
    /\ Forall (fun l => is_derivedunion_line l = true) seg
    /\ props_marked (props_st nested_union_state) (props_st s')
    /\ (exists o', props_st s' !! "a_v" = Some o' /\ p_written o' = true)
    /\ Forall (member_done (props_st s')) ["a_u"]
    /\ classes_st s' = classes_st nested_union_state.
Proof.
  apply (write_derivedunion_total no_overrides nested_union_rank 2 "a_v"
           union_v ["a_u"] nested_union_state).
  - apply (bool_decide_unpack _). vm_compute. exact I.
  - reflexivity.
  - reflexivity.
  - vm_compute. lia.
Defined.

(** ** The passes of [generate] *)

Lemma emits_nothing {A} (m : M A) s :
  emits no_line m -> out (final_state (m s)) = out s.
Proof.
  intros H. destruct (H s) as (seg & E & F). rewrite E.
  destruct seg as [|l seg]; [by rewrite app_nil_r|].
  by apply Forall_cons in F as [? _].
Qed.

Lemma emits_after_header ov literal_eval int_of_str all_elements fuel tb :
  emits follows_header
    (exec for_each (classes tb) (tag_class all_elements fuel);
     do ignored_classes <- write_classdefs ov fuel (classes tb);
     emit_features ov literal_eval int_of_str all_elements fuel tb
       ignored_classes).
Proof.
  apply emits_bind.
  { apply emits_for_each. intros.
    eapply emits_weaken; [|apply emits_tag_class]. by intros []. }
  intros _. apply emits_bind.
  { eapply emits_weaken; [|apply emits_write_classdefs]. by intros []. }
  intros ignored. unfold emit_features.
  apply emits_bind.
  { eapply emits_weaken; [|apply emits_write_attributes]. by intros []. }
  intros da. apply emits_bind.
  { apply emits_fold_each. intros.
    eapply emits_weaken; [|apply emits_write_association_ends].
    by intros []. }
  intros r. apply emits_bind.
  { apply emits_for_each. intros. apply emits_link_subsets. }
  intros _. apply emits_bind.
  { apply emits_for_each. intros.
    eapply emits_weaken; [|apply emits_write_attribute]. by intros []. }
  intros _. apply emits_bind.
  { apply emits_for_each. intros.
    eapply emits_weaken; [|apply emits_write_derivedunion]. by intros []. }
  intros _. apply emits_bind.
  { apply emits_for_each. intros x. apply emits_bind; [emits_run|].
    intros o. apply emits_bind; [emits_run|]. intros.
    eapply emits_weaken; [|apply emits_write_redefine]. by intros []. }
  intros _. eapply emits_weaken; [|apply emits_write_operations].
  by intros [].
Qed.

(** X15: a fault while the tables are built, before the header, is the
    fault of [generate], and nothing is written then; otherwise the
    header is the first line that [generate] writes, whatever happens
    later, and no line after it is the header. *)
Theorem generate_header_first
    ov literal_eval int_of_str all_elements fuel s :
  match build_tables all_elements s with
  | Err f s1 =>
      generate ov literal_eval int_of_str all_elements fuel s = Err f s1
      /\ out s1 = out s
  | Ok tb s1 =>
      exists seg,
        out (final_state
               (generate ov literal_eval int_of_str all_elements fuel s))
        = out s ++ Header :: seg
        /\ Forall (fun l => is_header l = false) seg
  end.
Proof.
  pose proof (emits_nothing (build_tables all_elements) s
                (emits_build_tables all_elements no_line)) as E0.
  destruct (build_tables all_elements s) as [tb s1|f s1] eqn:Hb; cbn in E0.
  - assert (generate ov literal_eval int_of_str all_elements fuel s
            = (exec for_each (classes tb) (tag_class all_elements fuel);
               do ignored_classes <- write_classdefs ov fuel (classes tb);
               emit_features ov literal_eval int_of_str all_elements fuel tb
                 ignored_classes) (written_lines [Header] s1)) as ->.
    { unfold generate. unfold bind at 1. rewrite Hb. done. }
    destruct (emits_after_header ov literal_eval int_of_str all_elements fuel
                tb (written_lines [Header] s1)) as (seg & E & F).
    exists seg. rewrite E. cbn. rewrite E0, <- app_assoc. split; [done|].
    eapply Forall_impl; [exact F|]. intros l. unfold follows_header.
    by destruct (is_header l).
  - split; [|done]. unfold generate. unfold bind at 1. by rewrite Hb.
Qed.

(** *** The ignored classes *)

Lemma simple_attribute_class_marked h h' c :
  marked h h' -> simple_attribute_class h' c <-> simple_attribute_class h c.
Proof.
  intros M. unfold simple_attribute_class.
  destruct (M c) as [E|E]; rewrite E; [done|]. by destruct (h !! c).
Qed.

Lemma write_classdefs_ignored_loop ov rank fuel :
  forall l ignored s1,
    class_inv s1 ->
    parents_live (classes_st s1) ->
    generalization_acyclic (classes_st s1) rank ->
    Forall (fun c => is_Some (classes_st s1 !! c) /\ (rank c < fuel)%nat) l ->
    exists s2,
      fold_each l
        (fun ignored_classes c =>
           do o <- get_class c;
           if bool_decide (stereotypeName o = Some "SimpleAttribute")
           then ret (ignored_classes ++ [c])
           else exec write_classdef ov fuel c; ret ignored_classes)
        ignored s1
      = Ok (ignored ++ filter (simple_attribute_class (classes_st s1)) l) s2.
Proof.
  induction l as [|c l IHl]; intros ignored s1 Inv L A Hl.
  { exists s1. cbn. by rewrite app_nil_r. }
  apply Forall_cons in Hl as [[[o Hc] Hrk] Hl].
  cbn [fold_each]. unfold bind at 1.
  rewrite (bind_ok _ _ _ _ _ (get_class_ok _ _ _ Hc)).
  case_bool_decide as Hsa.
  - cbn [ret]. destruct (IHl (ignored ++ [c]) s1 Inv L A Hl) as (s2 & Hrun).
    exists s2. rewrite Hrun. rewrite filter_cons_True.
    + by rewrite <- app_assoc.
    + unfold simple_attribute_class. by rewrite Hc, <- Hsa.
  - destruct (write_classdef_correct ov rank fuel c s1 Inv L A
                ltac:(eauto) Hrk)
      as (s1a & la & Hrun & Hout & Inva & Ma & Fa & oc & Hoc & Hwc).
    unfold bind at 1. rewrite Hrun. cbn [ret].
    destruct (IHl ignored s1a) as (s2 & Hrun2).
    { done. }
    { by eapply parents_live_marked. }
    { by eapply generalization_acyclic_marked. }
    { eapply Forall_impl; [exact Hl|]. intros c' [[o' Ho'] ?].
      split; [|done].
      destruct (marked_lookup _ _ _ _ Ma Ho') as (? & ? & _). eauto. }
    exists s2. rewrite Hrun2. rewrite filter_cons_False.
    + f_equal. f_equal. apply list_filter_iff. intros c'.
      by apply simple_attribute_class_marked.
    + unfold simple_attribute_class. rewrite Hc. cbn. congruence.
Qed.

(** X16: on a class store that is well formed and acyclic, the pass of
    the class definitions ends normally, and the ignored classes that it
    returns are exactly the classes of the table that are tagged
    [SimpleAttribute]. *)
Theorem write_classdefs_ignored ov rank fuel classes s :
  parents_live (classes_st s) ->
  generalization_acyclic (classes_st s) rank ->
  map_Forall (fun _ o => c_written o = false) (classes_st s) ->
  Forall (fun l => is_class_line l = false) (out s) ->
  Forall (fun c => is_Some (classes_st s !! c) /\ (rank c < fuel)%nat)
    classes ->
  exists ignored_classes s',
    write_classdefs ov fuel classes s = Ok ignored_classes s'
    /\ forall c, c ∈ ignored_classes
                 <-> c ∈ classes /\ simple_attribute_class (classes_st s) c.
Proof.
  intros L A Hunw Hout Hcl.
  assert (class_inv s) as Inv.
  { intros c. pose proof (no_class_line_count c (out s) Hout) as H0.
    destruct (classes_st s !! c) as [o|] eqn:Hc; [|done].
    by rewrite (Hunw c o Hc). }
  destruct (write_classdefs_ignored_loop ov rank fuel classes [] s Inv L A Hcl)
    as (s' & Hrun).
  eexists _, s'. split; [exact Hrun|]. intros c. cbn.
  rewrite list_elem_of_filter. tauto.
Qed.

Lemma write_classdefs_ignored_witness :
  exists ignored_classes s',
    write_classdefs no_overrides 2 ["S"; "B"] simple_base_state
    = Ok ignored_classes s'
    /\ forall c, c ∈ ignored_classes
                 <-> c ∈ ["S"; "B"]
                     /\ simple_attribute_class (classes_st simple_base_state) c.
Proof.
  apply (write_classdefs_ignored no_overrides simple_base_rank 2 ["S"; "B"]
           simple_base_state).
  - apply (bool_decide_unpack _). vm_compute. exact I.
  - apply (bool_decide_unpack _). vm_compute. exact I.
  - apply (bool_decide_unpack _). vm_compute. exact I.
  - repeat constructor.
  - repeat constructor; try (by eexists); vm_compute; lia.
Defined.

(** ** The tables *)

Lemma dict_set_elem {K V} `{EqDecision K} (d : dict K V) k v k' v' :
  (k, v) ∈ dict_set d k' v' -> (k, v) = (k', v') \/ (k, v) ∈ d.
Proof.
  induction d as [|[k0 v0] d IH]; cbn.
  - intros ?%list_elem_of_singleton. by left.
  - destruct (decide (k' = k0)) as [->|Hne].
    + intros [?|?]%elem_of_cons; [by left|right].
      by apply list_elem_of_further.
    + intros [?|Hin]%elem_of_cons.
      * right. simplify_eq. apply list_elem_of_here.
      * destruct (IH Hin) as [?|?]; [by left|right].
        by apply list_elem_of_further.
Qed.

Lemma tables_extend_nil tb : tables_extend tb [] tb.
Proof.
  unfold tables_extend, class_keys, generalization_edges, association_ends,
    property_keys, extension_ends. cbn. rewrite !app_nil_r.
  split_and!; try done. by left.
Qed.

Lemma tables_extend_cons tb0 kv tb1 l tb2 :
  tables_extend tb0 [kv] tb1 -> tables_extend tb1 l tb2 ->
  tables_extend tb0 (kv :: l) tb2.
Proof.
  intros (C1 & G1 & A1 & P1 & X1 & E1) (C2 & G2 & A2 & P2 & X2 & E2).
  change (kv :: l) with ([kv] ++ l).
  unfold tables_extend, class_keys, generalization_edges, association_ends,
    property_keys, extension_ends in *.
  rewrite !omap_app, !app_assoc.
  rewrite C2, C1, G2, G1, A2, A1, P2, P1, X2, X1. split_and!; try done.
  intros k en Hin. destruct (E2 k en Hin) as [H1|(e & He & Hk)].
  - destruct (E1 k en H1) as [?|(e & He & Hk)]; [by left|right].
    exists e. split; [|done]. apply elem_of_app. by left.
  - right. exists e. split; [|done]. apply elem_of_app. by right.
Qed.

Section Classification.

Variable all_elements : dict ident element.

Lemma classify_extend tb kv s tb' s' :
  classify all_elements tb kv s = Ok tb' s' -> tables_extend tb [kv] tb'.
Proof.
  destruct kv as [key val]. unfold classify. cbn [fst snd].
  unfold tables_extend, class_keys, generalization_edges, association_ends,
    property_keys, extension_ends.
  destruct val as [name st oa oo|sp ge|me|p|name|me|cl sl|v f|n|]; intros H;
    cbn [omap list_omap fst snd is_class_element].
  - destruct (Py.truthy_opt name) eqn:Hn; cbn [andb].
    2: { unfold ret in H. simplify_eq. rewrite !app_nil_r.
         split_and!; try done. by left. }
    destruct (_ || _) eqn:Hs; cbn [negb].
    + unfold ret in H. simplify_eq. cbn. rewrite !app_nil_r.
      split_and!; try done.
      intros k en [Heq|?]%dict_set_elem; [right|by left]. simplify_eq.
      eexists. split; [apply list_elem_of_here|]. cbn. rewrite Hn, Hs.
      split; [done|]. by destruct name.
    + unfold bind, put_class, ret in H. simplify_eq. cbn.
      rewrite !app_nil_r. split_and!; try done. by left.
  - unfold ret in H. simplify_eq. cbn. rewrite !app_nil_r.
    split_and!; try done. by left.
  - unfold ret in H. simplify_eq. cbn. rewrite !app_nil_r.
    split_and!; try done. by left.
  - apply bind_Ok_inv in H as ([] & s1 & _ & H).
    apply bind_Ok_inv in H as ([] & s2 & _ & H).
    apply bind_Ok_inv in H as ([] & s3 & _ & H).
    unfold ret in H. simplify_eq. cbn. rewrite !app_nil_r.
    split_and!; try done. by left.
  - unfold ret in H. simplify_eq. cbn. rewrite !app_nil_r.
    split_and!; try done. by left.
  - unfold ret in H. simplify_eq. cbn. rewrite !app_nil_r.
    split_and!; try done. by left.
  - unfold ret in H. simplify_eq. cbn. rewrite !app_nil_r.
    split_and!; try done. by left.
  - unfold ret in H. simplify_eq. cbn. rewrite !app_nil_r.
    split_and!; try done. by left.
  - unfold ret in H. simplify_eq. cbn. rewrite !app_nil_r.
    split_and!; try done. by left.
  - unfold ret in H. simplify_eq. cbn. rewrite !app_nil_r.
    split_and!; try done. by left.
Qed.

Lemma classify_fold_extend l :
  forall tb s tb' s',
    fold_each l (classify all_elements) tb s = Ok tb' s' ->
    tables_extend tb l tb'.
Proof.
  induction l as [|kv l IH]; intros tb s tb' s' H; cbn in H.
  { unfold ret in H. simplify_eq. apply tables_extend_nil. }
  apply bind_Ok_inv in H as (tb1 & s1 & H1 & H).
  eapply tables_extend_cons; [by eapply classify_extend|by eapply IH].
Qed.

End Classification.

Lemma for_each_ok_elem {A} (l : list A) (f : A -> M unit) s s' x :
  for_each l f s = Ok tt s' -> x ∈ l -> exists s1 s2, f x s1 = Ok tt s2.
Proof.
  revert s. induction l as [|y l IH]; intros s H Hx.
  { by apply elem_of_nil in Hx. }
  cbn in H. apply bind_Ok_inv in H as ([] & s1 & H1 & H).
  apply elem_of_cons in Hx as [->|Hx]; [eauto|by eapply IH].
Qed.

Lemma fold_each_ok_elem {A B} (l : list A) (f : B -> A -> M B) b s r s' x :
  fold_each l f b s = Ok r s' -> x ∈ l ->
  exists b1 s1 b2 s2, f b1 x s1 = Ok b2 s2.
Proof.
  revert b s. induction l as [|y l IH]; intros b s H Hx.
  { by apply elem_of_nil in Hx. }
  cbn in H. apply bind_Ok_inv in H as (b1 & s1 & H1 & H).
  apply elem_of_cons in Hx as [->|Hx]; [eauto 6|by eapply IH].
Qed.

Lemma fold_each_app_inv {A B} (l1 l2 : list A) (f : B -> A -> M B) b s r s' :
  fold_each (l1 ++ l2) f b s = Ok r s' ->
  exists b1 s1, fold_each l1 f b s = Ok b1 s1
                /\ fold_each l2 f b1 s1 = Ok r s'.
Proof.
  revert b s. induction l1 as [|y l1 IH]; intros b s H.
  { exists b, s. by split. }
  cbn in H. apply bind_Ok_inv in H as (b1 & s1 & H1 & H).
  destruct (IH _ _ H) as (b2 & s2 & H2 & H3).
  exists b2, s2. split; [|done]. cbn. by rewrite (bind_ok _ _ _ _ _ H1).
Qed.

Section Tables.

Variable all_elements : dict ident element.

Lemma extension_end_types ends end_ s ends' s' :
  extension_end all_elements ends end_ s = Ok ends' s' ->
  ends' = ends ++ extension_types all_elements [end_].
Proof.
  unfold extension_end, extension_types. intros H.
  apply bind_Ok_inv in H as (e & s1 & H1 & H).
  unfold element_at in H1. apply from_option_inv in H1 as [-> H1].
  cbn [omap list_omap]. rewrite H1.
  destruct e; try (unfold ret in H; simplify_eq; by rewrite app_nil_r).
  destruct (Py.truthy_opt (p_type p)) eqn:Ht.
  - apply bind_Ok_inv in H as (t & s1 & H2 & H).
    apply item_ok_inv in H2 as (Hp & _ & ->).
    apply bind_Ok_inv in H as ([] & s1 & _ & H).
    unfold ret in H. simplify_eq. by rewrite Hp.
  - unfold ret in H. simplify_eq. by rewrite app_nil_r.
Qed.

Lemma extension_ends_types l :
  forall ends s ends' s',
    fold_each l (extension_end all_elements) ends s = Ok ends' s' ->
    ends' = ends ++ extension_types all_elements l.
Proof.
  induction l as [|e l IH]; intros ends s ends' s' H; cbn in H.
  { unfold ret in H. simplify_eq. by rewrite app_nil_r. }
  apply bind_Ok_inv in H as (ends1 & s1 & H1 & H).
  apply extension_end_types in H1. apply IH in H. subst.
  change (e :: l) with ([e] ++ l). unfold extension_types.
  by rewrite omap_app, app_assoc.
Qed.

Lemma remove_metaclass_inv classes l s classes' s' :
  remove_metaclass all_elements classes (Some l) s = Ok classes' s' ->
  match extension_types all_elements l with
  | t :: _ => t ∈ classes /\ classes' = filter (fun c => c ≠ t) classes
  | [] => classes' = classes
  end.
Proof.
  unfold remove_metaclass. intros H.
  apply bind_Ok_inv in H as (l' & s1 & H1 & H).
  apply from_option_inv in H1 as [-> H1]. simplify_eq.
  apply bind_Ok_inv in H as (ends & s1 & H1 & H).
  apply extension_ends_types in H1. cbn in H1. subst ends.
  destruct (extension_types all_elements l') as [|t ends].
  - unfold ret in H. by simplify_eq.
  - apply bind_Ok_inv in H as (t' & s2 & H2 & H).
    apply item_ok_inv in H2 as (Ht & Hin & ->).
    unfold ret in H. by simplify_eq.
Qed.

(** X17: when [remove_metaclass] returns for an extension, the type of
    the first member end that is a property with a type was a class of
    the table, and the classes returned are the classes without it, in
    their order; the classes are returned as they are when no member end
    is such a property. *)
Theorem remove_metaclass_result classes l s classes' s' :
  remove_metaclass all_elements classes (Some l) s = Ok classes' s' ->
  match extension_types all_elements l with
  | t :: _ => t ∈ classes /\ classes' = filter (fun c => c ≠ t) classes
  | [] => classes' = classes
  end.
Proof. apply remove_metaclass_inv. Qed.

Lemma remove_metaclass_sublist classes memberEnd s classes' s' :
  remove_metaclass all_elements classes memberEnd s = Ok classes' s' ->
  classes' `sublist_of` classes.
Proof.
  intros H. destruct memberEnd as [l|]; [|done].
  apply remove_metaclass_inv in H.
  destruct (extension_types all_elements l) as [|t ?].
  - by subst.
  - destruct H as [_ ->]. apply sublist_filter.
Qed.

Lemma enumeration_values_name properties e s e' s' :
  enumeration_values properties e s = Ok e' s' -> e_name e' = e_name e.
Proof.
  unfold enumeration_values. intros H.
  apply bind_Ok_inv in H as (keys & s1 & _ & H).
  apply bind_Ok_inv in H as (values & s2 & _ & H).
  unfold ret in H. by simplify_eq.
Qed.

(** X18: when the tables are built, the generalizations, the
    associations, the properties and the extensions of the table are the
    elements of these kinds in the order of the file; the classes are, in
    the order of the file, among the [Class] elements with a name that
    does not end in [Kind] or [Sort]; and every enumeration is a [Class]
    element with a name that ends in [Kind] or [Sort]. *)
Theorem build_tables_partition s tb s' :
  build_tables all_elements s = Ok tb s' ->
  classes tb `sublist_of` class_keys all_elements
  /\ generalizations tb = generalization_edges all_elements
  /\ associations tb = association_ends all_elements
  /\ properties tb = property_keys all_elements
  /\ extensions tb = extension_ends all_elements
  /\ enumerations_named all_elements (enumerations tb).
Proof.
  unfold build_tables. intros H.
  apply bind_Ok_inv in H as (tb0 & s1 & H1 & H).
  apply classify_fold_extend in H1 as (C & G & A & P & X & E).
  cbn in C, G, A, P, X, E.
  apply bind_Ok_inv in H as ([] & s2 & _ & H).
  apply bind_Ok_inv in H as (enums & s3 & H3 & H).
  apply bind_Ok_inv in H as (cls & s4 & H4 & H).
  unfold ret in H. simplify_eq. cbn. split_and!; try done.
  - rewrite <- C.
    eapply (fold_each_ok_inv (fun cls _ => cls `sublist_of` classes tb0));
      [|reflexivity|exact H4].
    intros b x t b' t' _ Hb Hx. etrans; [|exact Hb].
    by eapply remove_metaclass_sublist.
  - assert (forall k en, (k, en) ∈ enums ->
              exists en0, (k, en0) ∈ enumerations tb0
                          /\ e_name en = e_name en0) as He.
    { eapply (fold_each_ok_inv
                (fun (acc : dict ident enum_obj) (_ : state) =>
                   forall k en, (k, en) ∈ acc ->
                     exists en0, (k, en0) ∈ enumerations tb0
                                 /\ e_name en = e_name en0));
        [| |exact H3].
      - intros acc [k0 en0] t acc' t' Hin Hacc Hx.
        apply bind_Ok_inv in Hx as (e' & t1 & Hv & Hx).
        unfold ret in Hx. simplify_eq.
        intros k en [?|Heq%list_elem_of_singleton]%elem_of_app; [eauto|].
        simplify_eq. exists en0. split; [done|].
        by eapply enumeration_values_name.
      - by intros k en ?%elem_of_nil. }
    intros k en Hin. destruct (He k en Hin) as (en0 & Hin0 & Hname).
    destruct (E k en0 Hin0) as [?%elem_of_nil|(e & ? & ? & ?)]; [done|].
    exists e. split_and!; try done. congruence.
Qed.

End Tables.

Lemma remove_metaclass_result_witness :
  "M" ∈ ["A"; "M"; "S"]
  /\ ["A"; "S"] = filter (fun c => c ≠ "M") ["A"; "M"; "S"].
Proof.
  eapply (remove_metaclass_result kinds_model ["A"; "M"; "S"] ["x_m"; "x_s"]
            kinds_props_state ["A"; "S"]).
  vm_compute. reflexivity.
Defined.

Lemma build_tables_partition_witness :
  exists tb s',
    build_tables kinds_model init_state = Ok tb s'
    /\ classes tb `sublist_of` class_keys kinds_model
    /\ generalizations tb = generalization_edges kinds_model
    /\ associations tb = association_ends kinds_model
    /\ properties tb = property_keys kinds_model
    /\ extensions tb = extension_ends kinds_model
    /\ enumerations_named kinds_model (enumerations tb).
Proof.
  destruct (build_tables kinds_model init_state) as [tb s'|f s'] eqn:E.
  - exists tb, s'. split; [reflexivity|].
    apply (build_tables_partition kinds_model init_state tb s'). exact E.
  - vm_compute in E. discriminate E.
Defined.

(** ** Models that [generate] rejects *)

Lemma generate_build_err
    ov literal_eval int_of_str all_elements fuel s f s1 :
  build_tables all_elements s = Err f s1 ->
  generate ov literal_eval int_of_str all_elements fuel s = Err f s1
  /\ out s1 = out s.
Proof.
  intros E.
  pose proof (emits_nothing (build_tables all_elements) s
                (emits_build_tables all_elements no_line)) as E0.
  rewrite E in E0. split; [|done]. unfold generate. unfold bind at 1.
  by rewrite E.
Qed.

Section Faults.

Context {P : fault -> Prop}.

Lemma faults_ret {A} (a : A) : faults_only P (ret a).
Proof. by intros s f s'. Qed.

Lemma faults_raise {A} f : P f -> faults_only P (@raise A f).
Proof. intros Hf s f' s' H. unfold raise in H. by simplify_eq. Qed.

Lemma faults_bind {A B} (m : M A) (k : A -> M B) :
  faults_only P m -> (forall a, faults_only P (k a)) ->
  faults_only P (bind m k).
Proof.
  intros Hm Hk s f s'. unfold bind.
  destruct (m s) as [a s1|f1 s1] eqn:E.
  - apply Hk.
  - intros ?. simplify_eq. by eapply Hm.
Qed.

Lemma faults_for_each {A} (l : list A) (k : A -> M unit) :
  (forall x, faults_only P (k x)) -> faults_only P (for_each l k).
Proof.
  intros Hk. induction l; cbn; [apply faults_ret|]. by apply faults_bind.
Qed.

Lemma faults_fold_each {A B} (l : list A) (k : B -> A -> M B) b :
  (forall b x, faults_only P (k b x)) -> faults_only P (fold_each l k b).
Proof.
  intros Hk. revert b. induction l; intros b; cbn; [apply faults_ret|].
  by apply faults_bind.
Qed.

Lemma faults_from_option {A} f (o : option A) :
  P f -> faults_only P (from_option f o).
Proof. intros. destruct o; [apply faults_ret|by apply faults_raise]. Qed.

Lemma faults_for_each_inv {A} (I : state -> Prop) (l : list A)
    (k : A -> M unit) :
  (forall x s s', I s -> k x s = Ok tt s' -> I s') ->
  (forall x s f s', I s -> k x s = Err f s' -> P f) ->
  forall s f s', I s -> for_each l k s = Err f s' -> P f.
Proof.
  intros Hok Herr. induction l as [|x l IH]; intros s f s' Hs H; [done|].
  cbn in H. unfold bind in H. destruct (k x s) as [[] s1|f1 s1] eqn:E.
  - eapply IH; [|exact H]. by eapply Hok.
  - simplify_eq. by eapply Herr.
Qed.

End Faults.

Section Rejected.

Variable all_elements : dict ident element.

Lemma faults_element_at r :
  faults_only (fun f => f = KeyError) (element_at all_elements r).
Proof. by apply faults_from_option. Qed.

Lemma faults_resolve val attr :
  faults_only (fun f => f = KeyError) (resolve all_elements val attr).
Proof.
  unfold resolve. apply faults_bind; [apply faults_element_at|]. intros e.
  apply faults_bind; [by intros s f s'|]. intros [].
  - destruct (references e attr) as [[r|[|x l]]|];
      first [apply faults_ret|by apply faults_raise].
  - apply faults_bind; [by intros s f s'|]. intros _.
    destruct (references e attr) as [[r|l]|]; [| |apply faults_ret].
    + apply faults_bind; [apply faults_element_at|]. intros. apply faults_ret.
    + apply faults_for_each. intros r.
      apply faults_bind; [apply faults_element_at|]. intros. apply faults_ret.
Qed.

Lemma faults_classify tb kv :
  faults_only (fun f => f = KeyError) (classify all_elements tb kv).
Proof.
  destruct kv as [key val]. unfold classify. cbn [fst snd].
  destruct val; try apply faults_ret.
  - destruct (Py.truthy_opt name); [|apply faults_ret].
    destruct (_ || _); [apply faults_ret|].
    apply faults_bind; [by intros s f s'|]. intros. apply faults_ret.
  - apply faults_bind; [by intros s f s'|]. intros _.
    apply faults_bind; [apply faults_resolve|]. intros _.
    apply faults_bind; [|intros; apply faults_ret].
    apply faults_for_each. intros st.
    apply faults_bind; [apply faults_resolve|]. intros _.
    apply faults_for_each. intros slot.
    apply faults_bind; [apply faults_resolve|]. intros _.
    apply faults_resolve.
Qed.

Lemma classify_live tb kv s tb' s' :
  classes_live (classes tb) s ->
  classify all_elements tb kv s = Ok tb' s' ->
  classes_live (classes tb') s'.
Proof.
  intros Hl. destruct kv as [key val]. unfold classify. cbn [fst snd].
  destruct val; intros H; try (unfold ret in H; simplify_eq; done).
  - destruct (Py.truthy_opt name); [|unfold ret in H; by simplify_eq].
    destruct (_ || _); [unfold ret in H; by simplify_eq|].
    unfold bind, put_class, ret in H. simplify_eq. cbn.
    intros c [Hc| ->%list_elem_of_singleton]%elem_of_app; cbn.
    + apply lookup_insert_is_Some'. right. by apply Hl.
    + rewrite lookup_insert_eq. eauto.
  - apply bind_Ok_inv in H as ([] & s1 & H1 & H).
    apply bind_Ok_inv in H as ([] & s2 & H2 & H).
    apply bind_Ok_inv in H as ([] & s3 & H3 & H).
    unfold ret in H. simplify_eq.
    assert (quiet s s') as [Hq1 Hq2].
    { etrans; [eapply (framed_ok quiet); [|exact H1]; apply quiet_put_prop|].
      etrans; [eapply (framed_ok quiet); [|exact H2]; apply quiet_resolve|].
      eapply (framed_ok quiet); [|exact H3].
      framed_run; apply quiet_resolve. }
    intros c Hc. cbn in Hc. rewrite Hq1. by apply Hl.
Qed.

Lemma link_generalization_live keys g s s' :
  classes_live keys s ->
  link_generalization keys g s = Ok tt s' ->
  classes_live keys s'.
Proof.
  intros Hl H. unfold link_generalization in H.
  apply bind_Ok_inv in H as (sp & s1 & H1 & H).
  apply item_ok_inv in H1 as (_ & _ & ->).
  apply bind_Ok_inv in H as (ge & s1 & H1 & H).
  apply item_ok_inv in H1 as (_ & _ & ->).
  apply bind_Ok_inv in H as ([] & s1 & H1 & H).
  apply update_class_ok_inv in H1 as (osp & Hosp & Hs1 & _).
  apply update_class_ok_inv in H as (oge & Hoge & Hs2 & _).
  intros c Hc. rewrite Hs2, Hs1.
  apply lookup_insert_is_Some'. right.
  apply lookup_insert_is_Some'. right. by apply Hl.
Qed.

Lemma item_fault (keys : list ident) o s f s' :
  item keys o s = Err f s' -> f = KeyError.
Proof.
  unfold item. destruct o; [case_bool_decide|]; unfold ret, raise;
    intros ?; by simplify_eq.
Qed.

Lemma link_generalization_fault keys g s f s' :
  classes_live keys s ->
  link_generalization keys g s = Err f s' ->
  f = KeyError.
Proof.
  intros Hl. unfold link_generalization.
  destruct (item keys g.1 s) as [sp s1|f1 s1] eqn:E1.
  2: { rewrite (bind_err _ _ _ _ _ E1). intros ?. simplify_eq.
       by eapply item_fault. }
  rewrite (bind_ok _ _ _ _ _ E1).
  apply item_ok_inv in E1 as (_ & Hsp & ->).
  destruct (item keys g.2 s) as [ge s1|f1 s1] eqn:E2.
  2: { rewrite (bind_err _ _ _ _ _ E2). intros ?. simplify_eq.
       by eapply item_fault. }
  rewrite (bind_ok _ _ _ _ _ E2).
  apply item_ok_inv in E2 as (_ & Hge & ->).
  destruct (Hl sp Hsp) as [osp Hosp]. destruct (Hl ge Hge) as [oge Hoge].
  rewrite (bind_ok _ _ _ _ _ (update_class_ok _ _ _ _ Hosp)).
  unfold update_class, bind, get_class. cbn.
  destruct (decide (sp = ge)) as [->|Hne].
  - by rewrite lookup_insert_eq.
  - by rewrite lookup_insert_ne, Hoge.
Qed.

Lemma link_loop_endpoints keys edges s s' sp ge :
  for_each edges (link_generalization keys) s = Ok tt s' ->
  (sp, ge) ∈ edges ->
  exists c g, sp = Some c /\ ge = Some g /\ c ∈ keys /\ g ∈ keys.
Proof.
  intros H Hin. destruct (for_each_ok_elem _ _ _ _ _ H Hin) as (t1 & t2 & Hl).
  unfold link_generalization in Hl. cbn [fst snd] in Hl.
  apply bind_Ok_inv in Hl as (c & t3 & Hc & Hl).
  apply item_ok_inv in Hc as (-> & Hc & ->).
  apply bind_Ok_inv in Hl as (g & t3 & Hg' & Hl).
  apply item_ok_inv in Hg' as (-> & Hg' & ->).
  eauto 6.
Qed.

Lemma build_tables_generalization_fault s key sp ge :
  (key, Generalization sp ge) ∈ all_elements ->
  (forall c, sp = Some c -> c ∉ class_keys all_elements)
  \/ (forall g, ge = Some g -> g ∉ class_keys all_elements) ->
  exists s1, build_tables all_elements s = Err KeyError s1.
Proof.
  intros Hin Hout. unfold build_tables.
  destruct (fold_each all_elements (classify all_elements) no_tables s)
    as [tb0 s1|f s1] eqn:E1.
  2: { rewrite (bind_err _ _ _ _ _ E1). exists s1. f_equal.
       eapply (faults_fold_each (P := fun f => f = KeyError)); [|exact E1].
       intros. apply faults_classify. }
  rewrite (bind_ok _ _ _ _ _ E1).
  assert (classes_live (classes tb0) s1) as Hlive.
  { eapply (fold_each_ok_inv (fun tb t => classes_live (classes tb) t));
      [| |exact E1].
    - intros. by eapply classify_live.
    - by intros c ?%elem_of_nil. }
  apply classify_fold_extend in E1 as (C & G & _). cbn in C, G.
  destruct (for_each (generalizations tb0)
              (link_generalization (classes tb0)) s1)
    as [[] s2|f s2] eqn:E2.
  - exfalso.
    assert ((sp, ge) ∈ generalizations tb0) as Hg.
    { rewrite G. apply list_elem_of_omap.
      by exists (key, Generalization sp ge). }
    destruct (link_loop_endpoints _ _ _ _ _ _ E2 Hg)
      as (c & g & -> & -> & Hc & Hg').
    rewrite C in Hc, Hg'. destruct Hout as [H|H]; by eapply H.
  - rewrite (bind_err _ _ _ _ _ E2). exists s2. f_equal.
    eapply (faults_for_each_inv (P := fun f => f = KeyError)
              (classes_live (classes tb0))); [| |exact Hlive|exact E2].
    + intros. by eapply link_generalization_live.
    + intros. by eapply link_generalization_fault.
Qed.

(** X19: a generalization one end of which is not a class of the table
    (a [Class] element with a name that does not end in [Kind] or
    [Sort]) makes [generate] end with [KeyError] before anything is
    written. *)
Theorem generate_generalization_outside
    ov literal_eval int_of_str fuel s key sp ge :
  (key, Generalization sp ge) ∈ all_elements ->
  (forall c, sp = Some c -> c ∉ class_keys all_elements)
  \/ (forall g, ge = Some g -> g ∉ class_keys all_elements) ->
  exists s1,
    generate ov literal_eval int_of_str all_elements fuel s
    = Err KeyError s1
    /\ out s1 = out s.
Proof.
  intros Hin Hout.
  destruct (build_tables_generalization_fault s key sp ge Hin Hout)
    as (s1 & E).
  exists s1. by apply generate_build_err.
Qed.

Lemma build_tables_metaclasses a1 k1 m1 a2 k2 m2 a3 t s tb s' :
  all_elements
  = a1 ++ (k1, Extension (Some m1)) :: a2
       ++ (k2, Extension (Some m2)) :: a3 ->
  head (extension_types all_elements m1) = Some t ->
  head (extension_types all_elements m2) = Some t ->
  build_tables all_elements s = Ok tb s' -> False.
Proof.
  intros Hall Ht1 Ht2. unfold build_tables. intros H.
  apply bind_Ok_inv in H as (tb0 & s1 & H1 & H).
  apply classify_fold_extend in H1 as (_ & _ & _ & _ & X & _). cbn in X.
  apply bind_Ok_inv in H as ([] & s2 & _ & H).
  apply bind_Ok_inv in H as (enums & s3 & _ & H).
  apply bind_Ok_inv in H as (cls & s4 & H4 & _).
  rewrite X in H4. rewrite Hall in H4 at 1. unfold extension_ends in H4.
  rewrite omap_app in H4. cbn [omap list_omap snd] in H4.
  rewrite omap_app in H4. cbn [omap list_omap snd] in H4.
  apply fold_each_app_inv in H4 as (c1 & t1 & _ & H4).
  cbn [fold_each] in H4. apply bind_Ok_inv in H4 as (c2 & t2 & Hm1 & H4).
  apply fold_each_app_inv in H4 as (c3 & t3 & H3 & H4).
  cbn [fold_each] in H4. apply bind_Ok_inv in H4 as (c4 & t4 & Hm2 & _).
  apply remove_metaclass_inv in Hm1, Hm2.
  destruct (extension_types all_elements m1) as [|u1 ?]; [done|].
  destruct (extension_types all_elements m2) as [|u2 ?]; [done|].
  cbn in Ht1, Ht2. simplify_eq. destruct Hm1 as [_ ->], Hm2 as [Hin _].
  assert (c3 ⊆ filter (fun c => c ≠ t) c1) as Hsub.
  { eapply (fold_each_ok_inv
              (fun cls _ => cls ⊆ filter (fun c => c ≠ t) c1));
      [|reflexivity|exact H3].
    intros b x u b' u' _ Hb Hx. etrans; [|exact Hb].
    by eapply remove_metaclass_subset. }
  apply Hsub, list_elem_of_filter in Hin. by destruct Hin.
Qed.

(** X20: a model file with two extensions whose first member end with a
    type has the same type, two stereotypes that extend one metaclass,
    makes [generate] end with a fault before anything is written: the
    second extension finds the metaclass removed. *)
Theorem generate_shared_metaclass
    ov literal_eval int_of_str fuel s a1 k1 m1 a2 k2 m2 a3 t :
  all_elements
  = a1 ++ (k1, Extension (Some m1)) :: a2
       ++ (k2, Extension (Some m2)) :: a3 ->
  head (extension_types all_elements m1) = Some t ->
  head (extension_types all_elements m2) = Some t ->
  exists f s1,
    generate ov literal_eval int_of_str all_elements fuel s = Err f s1
    /\ out s1 = out s.
Proof.
  intros Hall Ht1 Ht2.
  destruct (build_tables all_elements s) as [tb s1|f s1] eqn:E.
  - exfalso.
    by eapply (build_tables_metaclasses a1 k1 m1 a2 k2 m2 a3 t).
  - exists f, s1. by apply generate_build_err.
Qed.

Lemma dict_get_elem {V} (d : dict ident V) k v :
  dict_get d k = Some v -> (k, v) ∈ d.
Proof.
  induction d as [|[k0 v0] d IH]; [done|]. cbn.
  destruct (decide (k = k0)) as [->|Hne].
  - intros ?. simplify_eq. apply list_elem_of_here.
  - intros ?. by apply list_elem_of_further, IH.
Qed.

Lemma resolve_ok_many val attr e l s s' :
  dict_get all_elements val = Some e ->
  references e attr = Some (RefMany l) ->
  resolve all_elements val attr s = Ok tt s' ->
  forall r, r ∈ l -> is_Some (dict_get all_elements r).
Proof.
  intros He Hr. unfold resolve. intros H.
  apply bind_Ok_inv in H as (e' & s1 & H1 & H).
  unfold element_at in H1. apply from_option_inv in H1 as [-> H1].
  simplify_eq.
  apply bind_Ok_inv in H as (again & s1 & H1 & H).
  unfold is_resolved in H1. simplify_eq. rewrite Hr in H.
  destruct (bool_decide _).
  - destruct l; [|done]. by intros r ?%elem_of_nil.
  - apply bind_Ok_inv in H as ([] & s2 & _ & H). intros r Hin.
    destruct (for_each_ok_elem _ _ _ _ _ H Hin) as (t1 & t2 & Hx).
    apply bind_Ok_inv in Hx as (x & t3 & Hx & _).
    unfold element_at in Hx. apply from_option_inv in Hx as [_ Hx]. eauto.
Qed.

Lemma build_tables_stereotype_fault s key p l r :
  dict_get all_elements key = Some (Property p) ->
  p_appliedStereotype p = Some l ->
  r ∈ l ->
  dict_get all_elements r = None ->
  exists s1, build_tables all_elements s = Err KeyError s1.
Proof.
  intros Hkey Hl Hr Hnone. unfold build_tables.
  destruct (fold_each all_elements (classify all_elements) no_tables s)
    as [tb0 s1|f s1] eqn:E1.
  2: { rewrite (bind_err _ _ _ _ _ E1). exists s1. f_equal.
       eapply (faults_fold_each (P := fun f => f = KeyError)); [|exact E1].
       intros. apply faults_classify. }
  exfalso.
  destruct (fold_each_ok_elem _ _ _ _ _ _ _ E1 (dict_get_elem _ _ _ Hkey))
    as (tb1 & t1 & tb2 & t2 & Hc).
  unfold classify in Hc. cbn [fst snd] in Hc.
  apply bind_Ok_inv in Hc as ([] & t3 & _ & Hc).
  apply bind_Ok_inv in Hc as ([] & t4 & Hres & _).
  assert (is_Some (dict_get all_elements r)) as [x Hx].
  { eapply (resolve_ok_many key "appliedStereotype" (Property p) l);
      [done| |exact Hres|done].
    cbn. by rewrite Hl. }
  congruence.
Qed.

(** X21: a property with an applied stereotype whose id is not in the
    model file makes [generate] end with [KeyError] before anything is
    written: [resolve] only catches the [KeyError] of a missing field. *)
Theorem generate_dangling_stereotype
    ov literal_eval int_of_str fuel s key p l r :
  dict_get all_elements key = Some (Property p) ->
  p_appliedStereotype p = Some l ->
  r ∈ l ->
  dict_get all_elements r = None ->
  exists s1,
    generate ov literal_eval int_of_str all_elements fuel s
    = Err KeyError s1
    /\ out s1 = out s.
Proof.
  intros Hkey Hl Hr Hnone.
  destruct (build_tables_stereotype_fault s key p l r Hkey Hl Hr Hnone)
    as (s1 & E).
  exists s1. by apply generate_build_err.
Qed.

End Rejected.

Lemma generate_generalization_outside_witness :
  exists s1,
    generate no_overrides flag_literal flag_int enumeration_parent_model 3
      init_state = Err KeyError s1
    /\ out s1 = out init_state.
Proof.
  apply (generate_generalization_outside enumeration_parent_model
           no_overrides flag_literal flag_int 3 init_state
           "g" (Some "A") (Some "K")).
  - set_solver.
  - right. intros g [= <-]. vm_compute. set_solver.
Defined.

Lemma generate_shared_metaclass_witness :
  exists f s1,
    generate no_overrides flag_literal flag_int shared_metaclass_model 3
      init_state = Err f s1
    /\ out s1 = out init_state.
Proof.
  apply (generate_shared_metaclass shared_metaclass_model
           no_overrides flag_literal flag_int 3 init_state
           [("M", Class (Some "M") None None None);
            ("x1", Property (association_end "base" "M" None None))]
           "e1" ["x1"]
           [("x2", Property (association_end "base" "M" None None))]
           "e2" ["x2"] [] "M").
  - reflexivity.
  - reflexivity.
  - reflexivity.
Defined.

Lemma generate_dangling_stereotype_witness :
  exists s1,
    generate no_overrides flag_literal flag_int dangling_stereotype_model 3
      init_state = Err KeyError s1
    /\ out s1 = out init_state.
Proof.
  apply (generate_dangling_stereotype dangling_stereotype_model
           no_overrides flag_literal flag_int 3 init_state
           "a" dangling_stereotype ["missing"] "missing").
  - reflexivity.
  - reflexivity.
  - set_solver.
  - reflexivity.
Defined.

(** ** The bases of a class *)

#[export] Instance marked_st_preorder : PreOrder marked_st.
Proof.
  split.
  - intros s. apply marked_refl.
  - intros s1 s2 s3. apply marked_trans.
Qed.

Lemma marked_st_write l : framed marked_st (write l).
Proof. intros s. apply marked_refl. Qed.

Lemma marked_st_written c : framed marked_st (update_class c (set_c_written true)).
Proof.
  intros s. unfold update_class, bind, get_class.
  destruct (classes_st s !! c) as [o|] eqn:Hc; [|apply marked_refl].
  cbn. by apply marked_insert.
Qed.

Lemma marked_st_write_classdef ov fuel c :
  framed marked_st (write_classdef ov fuel c).
Proof.
  revert c. induction fuel as [|n IH]; intros c; cbn [write_classdef].
  { apply framed_raise, _. }
  apply framed_bind; [apply _|apply framed_get_class, _|]. intros o.
  apply framed_bind; [apply _| |intros; apply marked_st_written].
  destruct (negb (c_written o)); [|apply framed_ret, _].
  apply framed_bind; [apply _| |].
  - apply framed_fold_each; [apply _|]. intros s g.
    apply framed_bind; [apply _|apply IH|]. intros _.
    apply framed_bind; [apply _|apply framed_get_class, _|]. intros go.
    apply framed_ret, _.
  - intros s. destruct (write_override ov (c_name o)); apply marked_st_write.
Qed.

Lemma base_names_marked h h' l :
  marked h h' -> base_names h' l = base_names h l.
Proof.
  intros M. unfold base_names. induction l as [|g l IH]; [done|].
  cbn. rewrite IH. destruct (M g) as [E|E]; rewrite E; [done|].
  by destruct (h !! g).
Qed.

Lemma write_classdef_bases_fold ov n l :
  forall acc s1 acc' s2,
    fold_each l
      (fun s g =>
         exec write_classdef ov n g;
         do go <- get_class g;
         ret ((if Py.truthy s then s +:+ ", " else s) +:+ c_name go))
      acc s1 = Ok acc' s2 ->
    acc' = join_onto acc (base_names (classes_st s1) l).
Proof.
  induction l as [|g l IH]; intros acc s1 acc' s2 H; cbn in H.
  { unfold ret in H. by simplify_eq. }
  apply bind_Ok_inv in H as (acc1 & t1 & H1 & H).
  apply bind_Ok_inv in H1 as ([] & t2 & Hw & H1).
  apply bind_Ok_inv in H1 as (go & t3 & Hg & H1).
  apply get_class_inv in Hg as [-> Hg]. unfold ret in H1. simplify_eq.
  pose proof (framed_ok marked_st _ _ _ _ (marked_st_write_classdef ov n g) Hw)
    as M.
  apply IH in H. rewrite H. rewrite (base_names_marked _ _ _ M).
  destruct (marked_lookup_inv _ _ _ _ M Hg) as (og & Hog & Hname & _).
  unfold base_names at 2. cbn. rewrite Hog. cbn. by rewrite Hname.
Qed.

(** X22: on a class store that is well formed and acyclic, with nothing
    written yet and no class without a name, [write_classdef] ends
    normally, and the last line that it writes is the declaration of the
    class: the text of its override, or the class line whose bases are
    the names of its generalizations in their order, separated by a comma
    and a blank. *)
Theorem write_classdef_bases ov rank fuel c o s :
  parents_live (classes_st s) ->
  generalization_acyclic (classes_st s) rank ->
  map_Forall (fun _ o => c_written o = false /\ c_name o <> "")
    (classes_st s) ->
  Forall (fun l => is_class_line l = false) (out s) ->
  classes_st s !! c = Some o ->
  (rank c < fuel)%nat ->
  exists s' lines,
    write_classdef ov fuel c s = Ok tt s'
    /\ out s' = out s ++ lines
                ++ [class_line ov c o
                      (String.concat ", "
                         (base_names (classes_st s) (generalization o)))].
Proof.
  intros L A Hunw Hout Hc Hrk.
  assert (class_inv s) as Inv.
  { intros d. pose proof (no_class_line_count d (out s) Hout) as H0.
    destruct (classes_st s !! d) as [od|] eqn:Hd; [|done].
    by destruct (Hunw d od Hd) as [-> _]. }
  destruct (write_classdef_correct ov rank fuel c s Inv L A ltac:(eauto) Hrk)
    as (s' & lines0 & Hrun & _).
  destruct fuel as [|n]; [lia|].
  pose proof Hrun as H. cbn [write_classdef] in H.
  rewrite (bind_ok _ _ _ _ _ (get_class_ok _ _ _ Hc)) in H.
  destruct (Hunw c o Hc) as [Hw _]. rewrite Hw in H. cbn [negb] in H.
  apply bind_Ok_inv in H as ([] & s3 & H & Hupd).
  apply bind_Ok_inv in H as (bases & s2 & Hfold & Hline).
  pose proof (write_classdef_bases_fold _ _ _ _ _ _ _ Hfold) as Hb.
  rewrite join_onto_empty in Hb.
  2: { unfold base_names. clear -Hunw.
       induction (generalization o) as [|g l IH]; [by constructor|].
       cbn. destruct (classes_st s !! g) as [og|] eqn:Hg; cbn; [|done].
       constructor; [|done]. by destruct (Hunw g og Hg). }
  destruct (emits_fold_each is_class_line (generalization o)
              (fun s g =>
                 exec write_classdef ov n g;
                 do go <- get_class g;
                 ret ((if Py.truthy s then s +:+ ", " else s) +:+ c_name go))
              ""
              ltac:(intros b x; cbn beta;
                    apply emits_bind; [apply emits_write_classdef|];
                    intros; emits_run) s)
    as (seg & E & _).
  rewrite Hfold in E. cbn in E.
  apply update_class_ok_inv in Hupd as (_ & _ & _ & Ho3).
  assert (out s3 = out s2 ++ [class_line ov c o bases]) as Ho2.
  { unfold class_line. destruct (write_override ov (c_name o));
      unfold write in Hline; by simplify_eq. }
  exists s', seg. split; [done|].
  rewrite Ho3, Ho2, E, Hb. by rewrite <- app_assoc.
Qed.

Lemma write_classdef_bases_witness :
  exists s' lines,
    write_classdef no_overrides 2 "B" simple_base_state = Ok tt s'
    /\ out s' = out simple_base_state ++ lines ++ [ClassDef "B" "B" "S"].
Proof.
  apply (write_classdef_bases no_overrides simple_base_rank 2 "B"
           (add_generalization "S" (new_class "B" None None None))
           simple_base_state).
  - apply (bool_decide_unpack _). vm_compute. exact I.
  - apply (bool_decide_unpack _). vm_compute. exact I.
  - apply (bool_decide_unpack _). vm_compute. exact I.
  - repeat constructor.
  - reflexivity.
  - vm_compute. lia.
Defined.

(** ** The members of the derived unions *)

Lemma with_union_same o : with_union ((fun m => m ++ []) <$> union o) o = o.
Proof. destruct o as [? ? ? ? ? ? ? ? ? ? ? ? ? ? ? [m|]]; cbn; [|done].
       by rewrite app_nil_r. Qed.

Lemma with_union_twice (f g : list ident) o :
  with_union ((fun m => m ++ g)
                <$> union (with_union ((fun m => m ++ f) <$> union o) o))
    (with_union ((fun m => m ++ f) <$> union o) o)
  = with_union ((fun m => m ++ (f ++ g)) <$> union o) o.
Proof. destruct o as [? ? ? ? ? ? ? ? ? ? ? ? ? ? ? [m|]]; cbn; [|done].
       by rewrite app_assoc. Qed.

Lemma grown_nil h : grown (fun _ => []) h h.
Proof.
  intros d. destruct (h !! d) as [o|]; [|done].
  exact (f_equal Some (eq_sym (with_union_same o))).
Qed.

Lemma grown_trans f g h1 h2 h3 :
  grown f h1 h2 -> grown g h2 h3 -> grown (fun d => f d ++ g d) h1 h3.
Proof.
  intros H12 H23 d. rewrite H23, H12. destruct (h1 !! d) as [o|]; [|done].
  exact (f_equal Some (with_union_twice (f d) (g d) o)).
Qed.

Lemma grown_ext f g h h' :
  (forall d, f d = g d) -> grown f h h' -> grown g h h'.
Proof. intros E H d. by rewrite H, E. Qed.

Lemma grown_insert h d od m a :
  h !! d = Some od -> union od = Some m ->
  grown (fun d' => if bool_decide (d = d') then [a] else [])
    h (<[d := with_union (Some (m ++ [a])) od]> h).
Proof.
  intros Hd Hm d'. case_bool_decide as E.
  - subst d'. rewrite lookup_insert_eq, Hd. cbn. by rewrite Hm.
  - rewrite lookup_insert_ne by done.
    destruct (h !! d') as [o|]; [|done].
    exact (f_equal Some (eq_sym (with_union_same o))).
Qed.

Lemma grown_lookup f h h' d o :
  grown f h h' -> h !! d = Some o ->
  exists o', h' !! d = Some o'
             /\ subsets o' = subsets o /\ type_obj o' = type_obj o
             /\ class_name o' = class_name o
             /\ (is_Some (union o) -> is_Some (union o')).
Proof.
  intros G Hd. rewrite (G d), Hd. cbn. eexists. split; [done|].
  split_and!; try done. by intros [m ->].
Qed.

Lemma links_ready_grown f du props h h' :
  grown f h h' -> links_ready du props h -> links_ready du props h'.
Proof.
  intros G [Hp Hd]. split.
  - eapply Forall_impl; [exact Hp|]. intros a (o & Ha & Ht).
    destruct (grown_lookup _ _ _ _ _ G Ha) as (o' & Ha' & Hs & Hty & _).
    exists o'. split; [done|]. by rewrite Hs, Hty.
  - eapply Forall_impl; [exact Hd|]. intros nd (od & Hod & Hu).
    destruct (grown_lookup _ _ _ _ _ G Hod) as (o' & Ho' & _ & _ & _ & Hu').
    exists o'. auto.
Qed.

Lemma new_members_grown f ignored du h h' props d :
  grown f h h' ->
  new_members ignored du h' props d = new_members ignored du h props d.
Proof.
  intros G. unfold new_members. induction props as [|a props IH]; [done|].
  cbn. rewrite IH. f_equal. rewrite (G a).
  by destruct (h !! a) as [o|].
Qed.

Lemma dict_get_ready (du : dict (option string) ident) n d
    (h : gmap string prop_obj) :
  Forall (fun nd => exists od, h !! nd.2 = Some od /\ is_Some (union od)) du ->
  dict_get du n = Some d ->
  exists od m, h !! d = Some od /\ union od = Some m.
Proof.
  intros Hd Hn. induction du as [|[n0 d0] du IH]; [done|].
  apply Forall_cons in Hd as [(od & Hod & m & Hm) Hd]. cbn in Hn.
  destruct (decide (n = n0)); [|by apply IH].
  simplify_eq. eauto.
Qed.

Lemma link_subsets_names (ignored : list ident)
    (du : dict (option string) ident) (a t : ident) l :
  forall s1,
    (exists oa, props_st s1 !! a = Some oa /\ type_obj oa = Some t) ->
    Forall (fun nd => exists od, props_st s1 !! nd.2 = Some od
                                 /\ is_Some (union od)) du ->
    exists s2,
      for_each l
        (fun s =>
           do o <- get_prop a;
           do t <- from_option AttributeError (type_obj o);
           if bool_decide (t ∉ ignored) then
             match dict_get du (Some s) with
             | Some d =>
                 do do_ <- get_prop d;
                 do members <- from_option AttributeError (union do_);
                 update_prop d (with_union (Some (members ++ [a])))
             | None => msg (NotADerivedUnion (Py.fmt (class_name o)) s)
             end
           else ret tt) s1 = Ok tt s2
      /\ out s2 = out s1 /\ classes_st s2 = classes_st s1
      /\ grown (fun d => flat_map (fun n => end_links ignored du a t n d) l)
           (props_st s1) (props_st s2).
Proof.
  induction l as [|n l IH]; intros s1 (oa & Ha & Ht) Hd.
  { exists s1. split_and!; try done. apply grown_nil. }
  assert (exists s1a,
            (do o <- get_prop a;
             do t <- from_option AttributeError (type_obj o);
             if bool_decide (t ∉ ignored) then
               match dict_get du (Some n) with
               | Some d =>
                   do do_ <- get_prop d;
                   do members <- from_option AttributeError (union do_);
                   update_prop d (with_union (Some (members ++ [a])))
               | None => msg (NotADerivedUnion (Py.fmt (class_name o)) n)
               end
             else ret tt) s1 = Ok tt s1a
            /\ out s1a = out s1 /\ classes_st s1a = classes_st s1
            /\ grown (end_links ignored du a t n) (props_st s1) (props_st s1a))
    as (s1a & Hrun & Ho & Hc & G).
  { rewrite (bind_ok _ _ _ _ _ (get_prop_ok _ _ _ Ha)), Ht.
    unfold bind at 1. cbn [from_option ret]. unfold end_links.
    destruct (bool_decide (t ∉ ignored)).
    2: { exists s1. split_and!; try done. apply grown_nil. }
    destruct (dict_get du (Some n)) as [d0|] eqn:Hn.
    2: { eexists. split; [done|]. split_and!; try done. apply grown_nil. }
    destruct (dict_get_ready du _ _ _ Hd Hn) as (od & m & Hod & Hm).
    rewrite (bind_ok _ _ _ _ _ (get_prop_ok _ _ _ Hod)), Hm.
    unfold bind at 1. cbn [from_option ret].
    rewrite (update_prop_ok _ _ _ _ Hod).
    eexists. split; [done|]. split_and!; try done. cbn.
    by apply grown_insert. }
  destruct (IH s1a) as (s2 & Hrun2 & Ho2 & Hc2 & G2).
  { destruct (grown_lookup _ _ _ _ _ G Ha) as (oa' & Ha' & _ & Hty & _).
    exists oa'. split; [done|]. by rewrite Hty. }
  { eapply Forall_impl; [exact Hd|]. intros nd (od & Hod & Hu).
    destruct (grown_lookup _ _ _ _ _ G Hod) as (o' & Ho' & _ & _ & _ & Hu').
    exists o'. auto. }
  exists s2. split_and!.
  - cbn [for_each]. unfold bind at 1. by rewrite Hrun.
  - congruence.
  - congruence.
  - cbn [flat_map]. by eapply grown_trans.
Qed.

Lemma link_subsets_loop ignored du props :
  forall s1,
    links_ready du props (props_st s1) ->
    exists s2,
      for_each props (link_subsets ignored du) s1 = Ok tt s2
      /\ out s2 = out s1 /\ classes_st s2 = classes_st s1
      /\ grown (new_members ignored du (props_st s1) props)
           (props_st s1) (props_st s2).
Proof.
  induction props as [|a props IH]; intros s1 [Hp Hd].
  { exists s1. split_and!; try done. apply grown_nil. }
  apply Forall_cons in Hp as [(o & Ha & Hty) Hp].
  assert (exists s1a,
            link_subsets ignored du a s1 = Ok tt s1a
            /\ out s1a = out s1 /\ classes_st s1a = classes_st s1
            /\ grown (new_members ignored du (props_st s1) [a])
                 (props_st s1) (props_st s1a))
    as (s1a & Hrun & Ho & Hc & G).
  { unfold link_subsets.
    rewrite (bind_ok _ _ _ _ _ (get_prop_ok _ _ _ Ha)).
    unfold new_members. cbn [flat_map]. rewrite Ha.
    destruct Hty as [Hnil|[t Ht]].
    - rewrite Hnil. exists s1. split_and!; try done.
      eapply grown_ext; [|apply grown_nil]. intros d.
      by destruct (type_obj o).
    - rewrite Ht.
      destruct (link_subsets_names ignored du a t (default [] (subsets o)) s1)
        as (s2 & H2 & ? & ? & G2); [by eauto|done|].
      exists s2. split_and!; try done.
      eapply grown_ext; [|exact G2]. intros d. by rewrite app_nil_r. }
  destruct (IH s1a) as (s2 & Hrun2 & Ho2 & Hc2 & G2).
  { eapply links_ready_grown; [exact G|]. by split. }
  exists s2. split_and!.
  - cbn [for_each]. unfold bind at 1. by rewrite Hrun.
  - congruence.
  - congruence.
  - eapply grown_ext; [|eapply grown_trans; [exact G|]].
    2: { eapply grown_ext; [|exact G2]. intros d.
         apply (new_members_grown _ ignored du _ _ props d G). }
    intros d. unfold new_members. cbn [flat_map]. by rewrite app_nil_r.
Qed.

(** X23: when the ends are property objects, with a type when they have
    subsets, and the registered derived unions are property objects with
    a list of members, the linking of the subsets ends normally; it adds
    to the members of each derived union the ends that subset it, one
    entry for each of their subsets that names it, in the order of the
    properties, leaving out the ends whose type is an ignored class, and
    changes nothing else of the objects; nothing is written. *)
Theorem link_subsets_members ignored du props s :
  links_ready du props (props_st s) ->
  exists s',
    for_each props (link_subsets ignored du) s = Ok tt s'
    /\ out s' = out s /\ classes_st s' = classes_st s
    /\ grown (new_members ignored du (props_st s) props)
         (props_st s) (props_st s').
Proof. apply link_subsets_loop. Qed.

Lemma link_subsets_members_witness :
  exists s',
    for_each ["a_v"; "a_u"; "a_w"]
      (link_subsets [] [(Some "v", "a_v")]) subsetting_state = Ok tt s'
    /\ out s' = out subsetting_state
    /\ classes_st s' = classes_st subsetting_state
    /\ grown (new_members [] [(Some "v", "a_v")]
                (props_st subsetting_state) ["a_v"; "a_u"; "a_w"])
         (props_st subsetting_state) (props_st s').
Proof.
  apply (link_subsets_members [] [(Some "v", "a_v")] ["a_v"; "a_u"; "a_w"]
           subsetting_state).
  split.
  - repeat constructor; eexists; (split; [reflexivity|]);
      first [by left | right; by eexists].
  - repeat constructor. eexists. split; [reflexivity|]. by eexists.
Defined.
